(** * changelog-patcher: a model of [src/patchChangelog.js]

    The script moves the entries of the "Unreleased" section of a changelog
    into a new dated release section.  Its core is the function
    [processChangelog(changelogContent, packageVersion, currentDateStr)],
    which uses two helpers, [getFirstVersionHeader] and [isHigherVersion];
    the body of the script, which reads the files, calls it and writes its
    result, is modelled after them.

    JavaScript strings are sequences of UTF-16 code units: a string is a
    [list N] here.  The regular expressions of the source are kept as
    syntax and run by a backtracking matcher ([exec]); each one is also
    written out as the matcher it denotes, and the two are proved equal
    before anything is proved about the program.  Numbers are IEEE 754
    binary64 values, taken from the standard library's [SpecFloat]. *)

From Stdlib Require Import NArith ZArith Lia Bool.
From Stdlib Require Import Floats.SpecFloat.
From Stdlib Require Import Strings.Ascii Strings.String DecimalString.
From stdpp Require Import base option list gmap.

Open Scope N_scope.

(** ** Code units and string literals *)

Definition lit (s : string) : list N :=
  map N_of_ascii (list_ascii_of_string s).
Arguments lit s%_string.

Definition LF : N := 10.
Definition QUOTE : N := 34.

(** ** Character classes of the regular expressions (no [u], no [i] flag) *)

(** [\d] *)
Definition is_digit (c : N) : bool := (48 <=? c) && (c <=? 57).

(** [\w] is [A-Za-z0-9_] *)
Definition is_word (c : N) : bool :=
  ((65 <=? c) && (c <=? 90)) || ((97 <=? c) && (c <=? 122))
  || is_digit c || (c =? 95).

(** LineTerminator: LF, CR, LS, PS.  In multiline mode [^] matches at the
    start of the input and after each of these. *)
Definition is_line_terminator (c : N) : bool :=
  (c =? 10) || (c =? 13) || (c =? 8232) || (c =? 8233).

(** [\s], which is also the set that [String.prototype.trim] strips:
    WhiteSpace (TAB, VT, FF, SP, NBSP, ZWNBSP and the category Zs) and
    LineTerminator. *)
Definition is_space (c : N) : bool :=
  ((9 <=? c) && (c <=? 13)) || (c =? 32) || (c =? 160) || (c =? 5760)
  || ((8192 <=? c) && (c <=? 8202)) || (c =? 8232) || (c =? 8233)
  || (c =? 8239) || (c =? 8287) || (c =? 12288) || (c =? 65279).

(** ** String primitives *)

Definition str_eqb (a b : list N) : bool := bool_decide (a = b).

(** [s.startsWith(p)], returning what follows [p] *)
Fixpoint strip_prefix (p s : list N) : option (list N) :=
  match p, s with
  | [], _ => Some s
  | _ :: _, [] => None
  | a :: p', b :: s' => if a =? b then strip_prefix p' s' else None
  end.

Definition starts_with (p s : list N) : bool :=
  match strip_prefix p s with Some _ => true | None => false end.

(** [s.includes(p)] *)
Fixpoint includes (p s : list N) : bool :=
  starts_with p s ||
  match s with
  | [] => false
  | _ :: s' => includes p s'
  end.

(** The longest prefix of [s] in the class [f], and the rest. *)
Fixpoint span (f : N -> bool) (s : list N) : list N * list N :=
  match s with
  | c :: s' =>
      if f c then let '(a, b) := span f s' in (c :: a, b) else ([], s)
  | [] => ([], [])
  end.

Definition drop_while (f : N -> bool) (s : list N) : list N := snd (span f s).

(** [s.split(sep)] for a one-unit separator: never the empty array. *)
Fixpoint split_on (sep : N) (s : list N) : list (list N) :=
  match s with
  | [] => [[]]
  | c :: s' =>
      if c =? sep then [] :: split_on sep s'
      else match split_on sep s' with
           | piece :: pieces => (c :: piece) :: pieces
           | [] => [[c]]
           end
  end.

(** [s.trim()] *)
Definition trim (s : list N) : list N :=
  rev (drop_while is_space (rev (drop_while is_space s))).

(** [s.padStart(n, c)] for a one-unit pad string *)
Definition pad_start (n : nat) (c : N) (s : list N) : list N :=
  replicate (n - length s) c ++ s.

(** Truthiness of a value that is [null]/[undefined] or a string. *)
Definition truthy (v : option (list N)) : bool :=
  match v with
  | Some (_ :: _) => true
  | _ => false
  end.

(** [String(n)] for a non-negative integer: its decimal digits. *)
Fixpoint uint_units (u : Decimal.uint) : list N :=
  match u with
  | Decimal.Nil => []
  | Decimal.D0 u' => 48 :: uint_units u'
  | Decimal.D1 u' => 49 :: uint_units u'
  | Decimal.D2 u' => 50 :: uint_units u'
  | Decimal.D3 u' => 51 :: uint_units u'
  | Decimal.D4 u' => 52 :: uint_units u'
  | Decimal.D5 u' => 53 :: uint_units u'
  | Decimal.D6 u' => 54 :: uint_units u'
  | Decimal.D7 u' => 55 :: uint_units u'
  | Decimal.D8 u' => 56 :: uint_units u'
  | Decimal.D9 u' => 57 :: uint_units u'
  end.

Definition String_of_N (n : N) : list N := uint_units (N.to_uint n).

(** ** Regular expressions

    The fragment the source uses: one unit of a class, sequence, a greedy
    or lazy star over a class, the greedy option, capture groups, the two
    readings of [^] and the lookahead.  The matcher backtracks the way
    ECMAScript prescribes, with a continuation for what follows; a
    lookahead consumes nothing, keeps its captures and is not re-entered. *)

Inductive regex :=
  | Nothing
  | Unit (f : N -> bool)
  | Then (r1 r2 : regex)
  | Maybe (r : regex)
  | Many (f : N -> bool)
  | Few (f : N -> bool)
  | Capture (i : nat) (r : regex)
  | LineStart
  | InputStart
  | Ahead (r : regex).

(** A place in the input: the unit before it, its index, the rest of the
    input and the captures made so far. *)
Record place := Place {
  before : option N;
  index : nat;
  rest : list N;
  groups : gmap nat (list N)
}.

Definition step (c : N) (s : list N) (p : place) : place :=
  {| before := Some c; index := S (index p); rest := s; groups := groups p |}.

Definition set_group (i : nat) (text : list N) (p : place) : place :=
  {| before := before p; index := index p; rest := rest p;
     groups := <[i := text]> (groups p) |}.

Definition with_groups (g : gmap nat (list N)) (p : place) : place :=
  {| before := before p; index := index p; rest := rest p; groups := g |}.

Definition at_line_start (p : place) : bool :=
  match before p with
  | None => true
  | Some c => is_line_terminator c
  end.

(** [[f]*]: one more unit first, the continuation at this place next. *)
Fixpoint greedy {A} (f : N -> bool) (k : place -> option A)
    (s : list N) (p : place) : option A :=
  match s with
  | c :: s' =>
      if f c then
        match greedy f k s' (step c s' p) with
        | Some a => Some a
        | None => k p
        end
      else k p
  | [] => k p
  end.

(** [[f]*?]: the continuation at this place first, one more unit next. *)
Fixpoint lazy {A} (f : N -> bool) (k : place -> option A)
    (s : list N) (p : place) : option A :=
  match k p with
  | Some a => Some a
  | None =>
      match s with
      | c :: s' => if f c then lazy f k s' (step c s' p) else None
      | [] => None
      end
  end.

Fixpoint matches (r : regex) (A : Type) (p : place) (k : place -> option A)
    {struct r} : option A :=
  match r with
  | Nothing => k p
  | Unit f =>
      match rest p with
      | c :: s' => if f c then k (step c s' p) else None
      | [] => None
      end
  | Then r1 r2 => matches r1 A p (fun p' => matches r2 A p' k)
  | Maybe r =>
      match matches r A p k with
      | Some a => Some a
      | None => k p
      end
  | Many f => greedy f k (rest p) p
  | Few f => lazy f k (rest p) p
  | Capture i r =>
      matches r A p
        (fun p' => k (set_group i (take (index p' - index p) (rest p)) p'))
  | LineStart => if at_line_start p then k p else None
  | InputStart => match index p with O => k p | S _ => None end
  | Ahead r =>
      match matches r _ p (fun p' => Some (groups p')) with
      | Some g => k (with_groups g p)
      | None => None
      end
  end.

(** The result of [String.prototype.match] without the [g] flag. *)
Record match_result := Match {
  match_index : nat;
  match_groups : gmap nat (list N)
}.

(** The start positions from the left, the end of the input included. *)
Fixpoint search (r : regex) (s : list N) (p : place) : option match_result :=
  match matches r _ p (fun p' => Some (groups p')) with
  | Some g => Some (Match (index p) g)
  | None =>
      match s with
      | c :: s' => search r s' (step c s' p)
      | [] => None
      end
  end.

Definition exec (r : regex) (s : list N) : option match_result :=
  search r s (Place None 0 s ∅).

(** [m[i]] of a match that may be [null]. *)
Definition group (i : nat) (m : option match_result) : option (list N) :=
  match m with
  | Some m => match_groups m !! i
  | None => None
  end.

(** Literal text, [x+] and [x{n}]. *)
Definition text (s : list N) : regex :=
  foldr (fun c r => Then (Unit (N.eqb c)) r) Nothing s.

Definition plus (f : N -> bool) : regex := Then (Unit f) (Many f).

Fixpoint times (n : nat) (f : N -> bool) : regex :=
  match n with
  | O => Nothing
  | S n' => Then (Unit f) (times n' f)
  end.

Definition any (_ : N) : bool := true.

(** A sequence of expressions. *)
Definition sequence (rs : list regex) : regex := foldr Then Nothing rs.

(** ** The header locator: [getFirstVersionHeader] *)

(** [/^##\s*\[(?:V)?(\d+\.\d+\.\d+)\]\s*-\s*\d{4}-\d{2}-\d{2}/m] *)
Definition versionRegex : regex :=
  sequence
    [ LineStart; text (lit "##"); Many is_space; text (lit "[");
      Maybe (text (lit "V"));
      Capture 1
        (sequence [ plus is_digit; text (lit "."); plus is_digit;
                    text (lit "."); plus is_digit ]);
      text (lit "]"); Many is_space; text (lit "-"); Many is_space;
      times 4 is_digit; text (lit "-"); times 2 is_digit; text (lit "-");
      times 2 is_digit ].

(** [match ? match[1] : null] *)
Definition getFirstVersionHeader (changelogContent : list N) : option (list N) :=
  group 1 (exec versionRegex changelogContent).

(** ** The pending-section capture *)

(** [/(## \[Unreleased\]\n([\s\S]*?))(?=^## )/m] *)
Definition unreleasedRegex : regex :=
  sequence
    [ Capture 1
        (sequence [ text (lit "## [Unreleased]" ++ [LF]); Capture 2 (Few any) ]);
      Ahead (sequence [ LineStart; text (lit "## ") ]) ].

(** ** Numbers

    A Number is a binary64 value.  [Number(s)] on a string of decimal digits
    is its value rounded to the nearest binary64, ties to even (the empty
    string gives [+0]); what [Number] does on any other string (signs,
    exponents, radix prefixes, blanks, [NaN] for the rest) is left to a
    parameter of the development, [Number_of_other]. *)

Definition prec : Z := 53.
Definition emax : Z := 1024.

Definition number := spec_float.

Definition zero : number := S754_zero false.

Fixpoint decimal_value (acc : N) (s : list N) : N :=
  match s with
  | [] => acc
  | c :: s' => decimal_value (10 * acc + (c - 48)) s'
  end.

Definition Number_of_digits (s : list N) : number :=
  binary_normalize prec emax (Z.of_N (decimal_value 0 s)) 0 false.

(** [x || 0] where [x] is an array element: [undefined] past the end, and
    the falsy numbers are [NaN], [+0] and [-0]. *)
Definition or_zero (x : option number) : number :=
  match x with
  | None => zero
  | Some S754_nan => zero
  | Some (S754_zero _) => zero
  | Some v => v
  end.

(** [a < b] on Numbers; [a > b] is [b < a]. *)
Definition lt_number (a b : number) : bool := SFltb a b.

(** The loop of [isHigherVersion], from index [i] with [fuel] rounds left. *)
Fixpoint compare_parts (versionParts currentParts : list number)
    (i fuel : nat) : bool :=
  match fuel with
  | O => false
  | S fuel' =>
      let v := or_zero (versionParts !! i) in
      let c := or_zero (currentParts !! i) in
      if lt_number c v then true
      else if lt_number v c then false
      else compare_parts versionParts currentParts (S i) fuel'
  end.

(** ** The category list and the fixed texts *)

Definition categories : list (list N) := Eval cbv in
  [lit "Added"; lit "Changed"; lit "Deprecated"; lit "Removed"; lit "Fixed";
   lit "Security"].

(** [/^###\s*(\w+)/] *)
Definition headerRegex : regex :=
  sequence
    [ InputStart; text (lit "###"); Many is_space; Capture 1 (plus is_word) ].

(** The category a line announces, if it is a category header:
    [headerMatch && categories.includes(headerMatch[1])]. *)
Definition category_header (line : list N) : option (list N) :=
  match group 1 (exec headerRegex line) with
  | Some name => if bool_decide (name ∈ categories) then Some name else None
  | None => None
  end.

(** One round of the loop over [unreleasedLines]: the state is
    [currentCategory] and the object [categoryContent]. *)
Definition walk_line (st : option (list N) * gmap (list N) (list N))
    (line : list N) : option (list N) * gmap (list N) (list N) :=
  let '(currentCategory, categoryContent) := st in
  match category_header line with
  | Some name => (Some name, categoryContent)
  | None =>
      if truthy currentCategory then
        match currentCategory with
        | Some c =>
            (currentCategory,
             <[c := default [] (categoryContent !! c) ++ line ++ [LF]]>
               categoryContent)
        | None => st
        end
      else st
  end.

(** [categoryContent] before the loop: every category with the empty string. *)
Definition empty_content : gmap (list N) (list N) :=
  foldl (fun m category => <[category := []]> m) ∅ categories.

(** The whole extraction: the walk, then [trim] on every value. *)
Definition extract_content (unreleasedBlock : list N) : gmap (list N) (list N) :=
  trim <$> snd (foldl walk_line (None, empty_content)
                  (split_on LF unreleasedBlock)).

(** The clock behind [new Date()]: [getFullYear()], [getMonth()], [getDate()]. *)
Record clock := Clock { getFullYear : N; getMonth : N; getDate : N }.

(** The date of the release header: [currentDateStr] unless it is falsy. *)
Definition date_string (now : clock) (currentDateStr : option (list N)) : list N :=
  if truthy currentDateStr then default [] currentDateStr
  else
    let yyyy := String_of_N (getFullYear now) in
    let mm := pad_start 2 48 (String_of_N (getMonth now + 1)) in
    let dd := pad_start 2 48 (String_of_N (getDate now)) in
    yyyy ++ 45 :: mm ++ 45 :: dd.

Definition release_header (newVersion dateStr : list N) : list N :=
  lit "## [" ++ newVersion ++ lit "] - " ++ dateStr ++ [LF; LF].

(** What one category adds to [newReleaseSection]. *)
Definition release_subsection (categoryContent : gmap (list N) (list N))
    (category : list N) : list N :=
  let bullets := categoryContent !! category in
  if truthy bullets then
    lit "### " ++ category ++ [LF; LF] ++ default [] bullets ++ [LF; LF]
  else [].

Definition newReleaseSection (newVersion dateStr : list N)
    (categoryContent : gmap (list N) (list N)) : list N :=
  foldl (fun section category =>
           section ++ release_subsection categoryContent category)
    (release_header newVersion dateStr) categories.

Definition newUnreleasedSection : list N :=
  foldl (fun section category => section ++ lit "### " ++ category ++ [LF; LF])
    (lit "## [Unreleased]" ++ [LF; LF]) categories.

(** ** Outcomes and messages *)

Inductive outcome :=
  | Returns (updatedContent : list N)
  | Throws (message : list N).

Definition already_in (newVersion : list N) : list N :=
  lit "Version conflict: " ++ newVersion ++ lit " is already in CHANGELOG.md".

Definition not_higher (newVersion currentVersion : list N) : list N :=
  lit "Version conflict: " ++ newVersion ++ lit " is not higher than "
  ++ currentVersion.

Definition could_not_find : list N :=
  lit "Could not find " ++ QUOTE :: lit "Unreleased" ++ QUOTE
  :: lit " section in CHANGELOG.md".

(** ** The transformation *)

(** The body of [processChangelog] from the pending-section capture on
    (lines 65 to 133), which the version checks precede. *)
Definition rebuild (now : clock) (changelogContent newVersion : list N)
    (currentDateStr : option (list N)) : outcome :=
  match exec unreleasedRegex changelogContent with
  | None => Throws could_not_find
  | Some unreleasedMatch =>
      let index := match_index unreleasedMatch in
      let unreleasedBlock := default [] (match_groups unreleasedMatch !! 1%nat) in
      let categoryContent := extract_content unreleasedBlock in
      let dateStr := date_string now currentDateStr in
      Returns
        (take index changelogContent
         ++ newUnreleasedSection
         ++ [LF]
         ++ newReleaseSection newVersion dateStr categoryContent
         ++ drop (index + length unreleasedBlock) changelogContent)
  end.

Section Transformation.

(** [Number] on the strings that are not all decimal digits. *)
Variable Number_of_other : list N -> number.

Definition Number (s : list N) : number :=
  if forallb is_digit s then Number_of_digits s else Number_of_other s.

Definition isHigherVersion (version currentVersion : list N) : bool :=
  let versionParts := map Number (split_on 46 version) in
  let currentParts := map Number (split_on 46 currentVersion) in
  let maxLength := Nat.max (length versionParts) (length currentParts) in
  compare_parts versionParts currentParts 0 maxLength.

Definition processChangelog (now : clock)
    (changelogContent packageVersion : list N)
    (currentDateStr : option (list N)) : outcome :=
  let newVersion := 86 :: packageVersion in
  let currentVersion := getFirstVersionHeader changelogContent in
  if truthy currentVersion
     && str_eqb (default [] currentVersion) newVersion
  then Throws (already_in newVersion)
  else if truthy currentVersion
          && negb (isHigherVersion packageVersion (default [] currentVersion))
  then Throws (not_higher newVersion (default [] currentVersion))
  else rebuild now changelogContent newVersion currentDateStr.

End Transformation.

(** ** The sample document of the repository's tests *)

Definition unlines (ls : list (list N)) : list N :=
  concat (map (fun l => l ++ [LF]) ls).

Definition sampleChangelog : list N := unlines
  [ lit ""; lit "# Changelog"; lit "";
    lit "All notable changes to this project will be documented in this file.";
    lit ""; lit "## [Unreleased]"; lit ""; lit "### Added";
    lit "- add new user feature"; lit ""; lit "### Changed";
    lit "- change rendering egine"; lit ""; lit "### Deprecated"; lit "";
    lit "### Removed"; lit ""; lit "### Fixed"; lit ""; lit "### Security";
    lit ""; lit "## [V1.0.1] - 2024-02-14"; lit ""; lit "### Fixed";
    lit "- fix login bug" ].

Definition nan_elsewhere (_ : list N) : number := S754_nan.

Definition a_clock : clock := Clock 2026 10 3.

(** * The matchers the expressions denote

    Each expression of the source is also written out as the function that
    its backtracking search computes; the development proves the two equal
    and reasons on the functions.  In the header expression every quantifier
    is followed by a unit outside its own class, so that no shorter iteration
    can succeed where the longest fails. *)

(** [\d+] *)
Definition digits1 (s : list N) : option (list N * list N) :=
  match span is_digit s with
  | ([], _) => None
  | (ds, rest) => Some (ds, rest)
  end.

(** [\d{n}] *)
Fixpoint digits_exactly (n : nat) (s : list N) : option (list N) :=
  match n, s with
  | O, _ => Some s
  | S n', c :: s' => if is_digit c then digits_exactly n' s' else None
  | S _, [] => None
  end.

(** One literal unit. *)
Definition expect (c : N) (s : list N) : option (list N) :=
  match s with
  | b :: s' => if b =? c then Some s' else None
  | [] => None
  end.

(** [(?:c)?] *)
Definition optional (c : N) (s : list N) : list N :=
  match s with
  | b :: s' => if b =? c then s' else s
  | [] => s
  end.

(** [\d{4}-\d{2}-\d{2}] *)
Definition match_date (s : list N) : option (list N) :=
  s ← digits_exactly 4 s;
  s ← expect 45 s;
  s ← digits_exactly 2 s;
  s ← expect 45 s;
  digits_exactly 2 s.

(** [\s*\[(?:V)?(\d+\.\d+\.\d+)\]\s*-\s*\d{4}-\d{2}-\d{2}], what the expression
    wants after the two hashes; the result is the capture group. *)
Definition match_after_hashes (s : list N) : option (list N) :=
  s ← expect 91 (drop_while is_space s);
  '(major, s) ← digits1 (optional 86 s);
  s ← expect 46 s;
  '(minor, s) ← digits1 s;
  s ← expect 46 s;
  '(patch, s) ← digits1 s;
  s ← expect 93 s;
  s ← expect 45 (drop_while is_space s);
  _ ← match_date (drop_while is_space s);
  Some (major ++ 46 :: minor ++ 46 :: patch).

(** The expression without its [^], tried at the head of [s]: [match[1]]. *)
Definition match_header_here (s : list N) : option (list N) :=
  s ← strip_prefix (lit "##") s;
  match_after_hashes s.

(** The search for the first match: [bol] tells whether the head of [s] is at
    the start of a line. *)
Fixpoint find_header (bol : bool) (s : list N) : option (list N) :=
  match (if bol then match_header_here s else None) with
  | Some version => Some version
  | None =>
      match s with
      | [] => None
      | c :: s' => find_header (is_line_terminator c) s'
      end
  end.

(** The pending-section expression: group 1 is the marker line and the
    lazily extended group 2; the lookahead wants the start of a line and the
    three units of a top-level header. *)

Definition marker : list N := Eval cbv in lit "## [Unreleased]" ++ [LF].

Definition top_level : list N := Eval cbv in lit "## ".

(** [([\s\S]*?)(?=^## )] after a unit [prev]: the number of units the lazy
    star has to take, the fewest first. *)
Fixpoint lazy_to_header (prev : N) (s : list N) : option nat :=
  if is_line_terminator prev && starts_with top_level s then Some O
  else match s with
       | [] => None
       | c :: s' => S <$> lazy_to_header c s'
       end.

(** The expression tried at the head of [s]: the length of group 1. *)
Definition match_unreleased_here (s : list N) : option nat :=
  rest ← strip_prefix marker s;
  k ← lazy_to_header LF rest;
  Some (length marker + k)%nat.

(** The search, start positions from the left: [match.index] and the length
    of [match[1]]. *)
Fixpoint find_unreleased (index : nat) (s : list N) : option (nat * nat) :=
  match match_unreleased_here s with
  | Some n => Some (index, n)
  | None =>
      match s with
      | [] => None
      | _ :: s' => find_unreleased (S index) s'
      end
  end.

(** The subsection-header expression: the capture group.  The expression has
    no [$]: what follows the word is not looked at. *)
Definition header_name (line : list N) : option (list N) :=
  rest ← strip_prefix (lit "###") line;
  match span is_word (drop_while is_space rest) with
  | ([], _) => None
  | (name, _) => Some name
  end.

(** The place reached from [p] over the units [x], with [s'] left. *)
Definition moved (p : place) (x s' : list N) : place :=
  {| before := match last x with Some c => Some c | None => before p end;
     index := length x + index p;
     rest := s';
     groups := groups p |}.

(** The continuation fails wherever the next unit is in the class [f]. *)
Definition rejects {A} (f : N -> bool) (k : place -> option A) : Prop :=
  forall p c s', rest p = c :: s' -> f c = true -> k p = None.

(** The header expression from its capture group on. *)
Definition versionTail : regex :=
  sequence
    [ Capture 1
        (sequence [ plus is_digit; text [46]; plus is_digit; text [46];
                    plus is_digit ]);
      text [93]; Many is_space; text [45]; Many is_space;
      times 4 is_digit; text [45]; times 2 is_digit; text [45];
      times 2 is_digit ].

(** * Vocabulary of the statements *)

(** The head of a string is not in the class [f]. *)
Definition stops (f : N -> bool) (s : list N) : Prop :=
  match s with
  | [] => True
  | c :: _ => f c = false
  end.

(** A version of three non-empty runs of digits, [\d+\.\d+\.\d+]. *)
Definition is_triple (v : list N) : Prop :=
  exists major minor patch,
    v = major ++ 46 :: minor ++ 46 :: patch
    /\ (major <> [] /\ forallb is_digit major = true)
    /\ (minor <> [] /\ forallb is_digit minor = true)
    /\ (patch <> [] /\ forallb is_digit patch = true).


(** A document with a release and no pending section. *)
Definition released_only : list N := unlines [ lit "## [V1.0.1] - 2024-02-14" ].

(** The reset pending section, unit for unit. *)
Definition reset_text : list N := unlines
  [ lit "## [Unreleased]"; lit ""; lit "### Added"; lit "";
    lit "### Changed"; lit ""; lit "### Deprecated"; lit "";
    lit "### Removed"; lit ""; lit "### Fixed"; lit "";
    lit "### Security"; lit "" ].

(** The subsection of a category in a release section. *)
Definition subsection (category bullets : list N) : list N :=
  lit "### " ++ category ++ [LF; LF] ++ bullets ++ [LF; LF].

(** The bullets extracted for a category. *)
Definition bullets_of (content : gmap (list N) (list N)) (category : list N) : list N :=
  default [] (content !! category).

Definition another_clock : clock := Clock 2026 10 4.

(** ** The line walk as the specification words it

    States [NoCategory] and [InCategory c]; a recognized category header
    moves to [InCategory c] and is discarded; any other line is appended,
    with its line end, to the buffer of the current category, or dropped
    while there is none.  The walk ends with the span, and every buffer is
    then trimmed.  A category header is a line [### <CategoryName>] with one
    of the six names exactly and nothing after it. *)

Inductive category :=
  Added | Changed | Deprecated | Removed | Fixed | Security.

Global Instance category_eq_dec : EqDecision category.
Proof. solve_decision. Defined.

Definition category_name (c : category) : list N :=
  match c with
  | Added => lit "Added"
  | Changed => lit "Changed"
  | Deprecated => lit "Deprecated"
  | Removed => lit "Removed"
  | Fixed => lit "Fixed"
  | Security => lit "Security"
  end.

Definition all_categories : list category :=
  [Added; Changed; Deprecated; Removed; Fixed; Security].

Inductive cursor :=
  | NoCategory
  | InCategory (c : category).

(** A text as its lines: the lines, with a line feed between one and the
    next. *)
Fixpoint join_lines (lines : list (list N)) : list N :=
  match lines with
  | [] => []
  | line :: lines' =>
      match lines' with
      | [] => line
      | _ :: _ => line ++ LF :: join_lines lines'
      end
  end.

(** The category that a line announces in the words of the specification:
    the line is [### <CategoryName>], nothing else. *)
Definition spec_recognized (line : list N) : option category :=
  List.find (fun c => bool_decide (line = lit "### " ++ category_name c))
    all_categories.

Definition append_to (buffers : category -> list N) (c : category)
    (text : list N) : category -> list N :=
  fun c' => if decide (c' = c) then buffers c ++ text else buffers c'.

Definition spec_machine_step (st : cursor * (category -> list N))
    (line : list N) : cursor * (category -> list N) :=
  match spec_recognized line with
  | Some c => (InCategory c, snd st)
  | None =>
      match fst st with
      | InCategory c => (InCategory c, append_to (snd st) c (line ++ [LF]))
      | NoCategory => st
      end
  end.

Definition spec_machine_run (lines : list (list N)) : cursor * (category -> list N) :=
  foldl spec_machine_step (NoCategory, fun _ => []) lines.

(** A block in which a category name is followed by more text. *)
Definition name_with_text : list (list N) :=
  [ lit "### Fixed"; lit "- a"; lit "### Added extra"; lit "- x" ].

(** ** The line walk with the recognition of the code

    The same machine, where a line announces a category when it is three
    hashes, blanks, one of the six names and then nothing, or text that
    begins with a unit outside [\w]. *)
Definition announces (line : list N) (c : category) : Prop :=
  exists blanks rest,
    line = lit "###" ++ blanks ++ category_name c ++ rest
    /\ forallb is_space blanks = true
    /\ stops is_word rest.

(** [machine st lines st']: from the state [st] the machine reads [lines]
    and ends in [st']. *)
Inductive machine :
    cursor * (category -> list N) -> list (list N) ->
    cursor * (category -> list N) -> Prop :=
  | machine_end st : machine st [] st
  | machine_header k buffers line c lines st' :
      announces line c ->
      machine (InCategory c, buffers) lines st' ->
      machine (k, buffers) (line :: lines) st'
  | machine_append c buffers line lines st' :
      (forall c', ~ announces line c') ->
      machine (InCategory c, append_to buffers c (line ++ [LF])) lines st' ->
      machine (InCategory c, buffers) (line :: lines) st'
  | machine_drop buffers line lines st' :
      (forall c', ~ announces line c') ->
      machine (NoCategory, buffers) lines st' ->
      machine (NoCategory, buffers) (line :: lines) st'.

(** What the cursor is in the code: [null] or the name of a category. *)
Definition cursor_name (k : cursor) : option (list N) :=
  match k with
  | NoCategory => None
  | InCategory c => Some (category_name c)
  end.

(** The state of the code's walk and the state of the machine agree. *)
Definition agrees (st : option (list N) * gmap (list N) (list N))
    (sp : cursor * (category -> list N)) : Prop :=
  fst st = cursor_name (fst sp)
  /\ forall c, snd st !! category_name c = Some (snd sp c).

(** Some line of [s] begins with the three units of a top-level header,
    where [prev] is the unit before [s]: a line terminator, then the units. *)
Definition header_line_in (prev : N) (s : list N) : Prop :=
  exists a c b,
    prev :: s = a ++ c :: top_level ++ b /\ is_line_terminator c = true.

(** No line after the marker line begins a top-level header, at any place
    where the marker line occurs. *)
Definition pending_is_last (doc : list N) : Prop :=
  forall pre rest, doc = pre ++ marker ++ rest -> ~ header_line_in LF rest.

(** The same, as a test. *)
Fixpoint header_line_from (prev : N) (s : list N) : bool :=
  (is_line_terminator prev && starts_with top_level s)
  || match s with
     | [] => false
     | c :: s' => header_line_from c s'
     end.

Fixpoint pending_is_last_test (doc : list N) : bool :=
  match strip_prefix marker doc with
  | Some rest => negb (header_line_from LF rest)
  | None => true
  end
  && match doc with
     | [] => true
     | _ :: doc' => pending_is_last_test doc'
     end.

(** A changelog kept oldest first, the pending section at its end. *)
Definition oldest_first : list N := unlines
  [ lit "# Changelog"; lit ""; lit "## [V2.0.0] - 2020-01-01"; lit "";
    lit "### Fixed"; lit "- a fix"; lit ""; lit "## [Unreleased]"; lit "";
    lit "### Added"; lit "- a feature" ].

(** ** The order of Numbers *)

(** A place in the order of the Numbers that are not [NaN]: the sign class,
    then exponent and mantissa, reversed below zero. *)
Definition rank (x : number) : Z * Z * Z :=
  match x with
  | S754_infinity true => (-2, 0, 0)
  | S754_finite true m e => (-1, - e, - Z.pos m)
  | S754_zero _ => (0, 0, 0)
  | S754_nan => (0, 0, 0)
  | S754_finite false m e => (1, e, Z.pos m)
  | S754_infinity false => (2, 0, 0)
  end%Z.

Definition rank_lt (r1 r2 : Z * Z * Z) : Prop :=
  (r1.1.1 < r2.1.1
   \/ (r1.1.1 = r2.1.1
       /\ (r1.1.2 < r2.1.2 \/ (r1.1.2 = r2.1.2 /\ r1.2 < r2.2))))%Z.

(** Neither Number is below the other. *)
Definition same (x y : number) : Prop :=
  lt_number x y = false /\ lt_number y x = false.

(** The [i]-th part of a version as the loop reads it, [parts[i] || 0]. *)
Definition part (Number_of_other : list N -> number) (s : list N) (i : nat) : number :=
  or_zero (map (Number Number_of_other) (split_on 46 s) !! i).

(** ** Versions as sequences of integers *)

(** The Number of a non-negative integer. *)
Definition Number_of_N (n : N) : number :=
  binary_normalize prec emax (Z.of_N n) 0 false.

(** The integers of the parts of a dotted version. *)
Definition segments (s : list N) : list N :=
  map (decimal_value 0) (split_on 46 s).

(** The [i]-th integer, [0] where the version has no such part. *)
Definition segment (s : list N) (i : nat) : N := nth i (segments s) 0.

(** Dotted-numeric, every part below 2^53. *)
Definition safe_version (s : list N) : bool :=
  forallb (fun seg => forallb is_digit seg && (decimal_value 0 seg <? 2 ^ 53))
    (split_on 46 s).

(** The first version is above the second in the order of the integer
    sequences, read from the left, a missing part counting as [0]. *)
Definition higher_by_segments (a b : list N) : Prop :=
  exists k,
    (forall j, (j < k)%nat -> segment a j = segment b j)
    /\ segment b k < segment a k.

Definition equal_by_segments (a b : list N) : Prop :=
  forall i, segment a i = segment b i.

(** The date of a release header has the form [\d{4}-\d{2}-\d{2}], possibly
    with text after it. *)
Definition dated (d : list N) : bool :=
  match match_date d with
  | Some _ => true
  | None => false
  end.

(** Whether the place after [pre] is at the start of a line. *)
Fixpoint bol_after (bol : bool) (pre : list N) : bool :=
  match pre with
  | [] => bol
  | c :: pre' => bol_after (is_line_terminator c) pre'
  end.

(** The first header match that starts inside [pre], in a text that goes on
    with a hash. *)
Fixpoint find_header_before (bol : bool) (pre : list N) : option (list N) :=
  match pre with
  | [] => None
  | c :: pre' =>
      match (if bol then match_header_here (pre ++ [35]) else None) with
      | Some version => Some version
      | None => find_header_before (is_line_terminator c) pre'
      end
  end.

(** A pending section with lines that read as release headers (no blank
    after the hashes, so that they do not end the section): the first comes
    before any category and is dropped, the second is moved with the bullets
    of its category. *)
Definition quoting_headers : list N := unlines
  [ lit "## [Unreleased]"; lit "##[V1.0.0] - 2020-01-01"; lit "### Added";
    lit "##[V5.0.0] - 2020-01-01"; lit "## [V0.9.0] - 2019-01-01" ].

(** The output of the first run on it, with target 2.0.0 and the date
    written with slashes. *)
Definition quoting_headers_updated : list N := unlines
  [ lit "## [Unreleased]"; lit ""; lit "### Added"; lit "";
    lit "### Changed"; lit ""; lit "### Deprecated"; lit "";
    lit "### Removed"; lit ""; lit "### Fixed"; lit "";
    lit "### Security"; lit ""; lit ""; lit "## [V2.0.0] - 2025/02/19"; lit "";
    lit "### Added"; lit ""; lit "##[V5.0.0] - 2020-01-01"; lit "";
    lit "## [V0.9.0] - 2019-01-01" ].

(** A clock that shows a year of four digits, a month and a day. *)
Definition plausible (now : clock) : bool :=
  (1000 <=? getFullYear now) && (getFullYear now <=? 9999)
  && (getMonth now <=? 11)
  && (1 <=? getDate now) && (getDate now <=? 31).

(** Exactly [n] digits and nothing after them. *)
Definition all_digits (n : nat) (s : list N) : bool :=
  match digits_exactly n s with
  | Some [] => true
  | _ => false
  end.
(** * Vocabulary of the further properties *)

(** The text [s] begins with a release header that carries the version [v]:
    two hashes, blanks, the bracketed version with or without its [V],
    blanks, a hyphen, blanks and a date. *)
Definition header_at (s v : list N) : Prop :=
  exists blanks prefix blanks' blanks'' d,
    s = lit "##" ++ blanks ++ 91 :: prefix ++ v ++ 93 :: blanks' ++ 45 :: blanks'' ++ d
    /\ forallb is_space blanks = true
    /\ (prefix = [] \/ prefix = [86])
    /\ is_triple v
    /\ forallb is_space blanks' = true
    /\ forallb is_space blanks'' = true
    /\ dated d = true.

(** No release header is located in a text that ends where a marker line
    begins: a test over the places of the document. *)
Definition no_header_above (doc : list N) : bool :=
  forallb
    (fun k =>
       negb (starts_with marker (drop k doc))
       || bool_decide (getFirstVersionHeader (take k doc) = None))
    (seq 0 (S (length doc))).

(** Every line feed of [s] comes after a carriage return, where [prev] is
    the unit before [s]: the line ends of the text are CR LF. *)
Fixpoint crlf_from (prev : N) (s : list N) : bool :=
  match s with
  | [] => true
  | c :: s' => (negb (c =? LF) || (prev =? 13)) && crlf_from c s'
  end.

Definition crlf (doc : list N) : bool := crlf_from 0 doc.

(** A changelog saved with CR LF line ends. *)
Definition crlf_changelog : list N :=
  concat (map (fun l => l ++ [13; LF])
            [ lit "## [Unreleased]"; lit "### Added"; lit "- a feature";
              lit "## [V1.0.1] - 2024-02-14" ]).

(** The reset pending section that the first test of the repository expects
    in the output, before its [trim()]. *)
Definition unreleasedSectionExpected : list N := unlines
  [ lit "## [Unreleased]"; lit ""; lit "### Added"; lit "";
    lit "### Changed"; lit ""; lit "### Deprecated"; lit "";
    lit "### Removed"; lit ""; lit "### Fixed"; lit "";
    lit "### Security" ].

(** The keys of [categoryContent] are the six categories and the cursor is
    [null] or one of them, all along the walk. *)
Definition walk_invariant (st : option (list N) * gmap (list N) (list N)) : Prop :=
  (forall name, is_Some (snd st !! name) <-> name ∈ categories)
  /\ forall c, fst st = Some c -> c ∈ categories.

(** The subsections of a release section: what [newReleaseSection] writes
    after its header line. *)
Definition subsections (content : gmap (list N) (list N)) : list N :=
  concat (map (fun c => subsection c (bullets_of content c))
            (filter (fun c => bullets_of content c <> []) categories)).

(** Bullets as the walk keeps them: trimmed, and with no line that is a
    category header. *)
Definition plain_bullets (bullets : list N) : Prop :=
  trim bullets = bullets
  /\ Forall (fun line => category_header line = None) (split_on LF bullets).

(** The bullets of the sample document of the tests. *)
Definition sample_content : gmap (list N) (list N) :=
  <[lit "Added" := lit "- add new user feature"]>
    (<[lit "Changed" := lit "- change rendering egine"]> ∅).

(** * The script body (lines 137 to 179)

    What the script does when it is run directly, written as the calls that
    it makes to its collaborators, in their order.  The collaborators are
    given by what they answer: [require] on the path of [package.json],
    [fs.readFileSync] on the path of [CHANGELOG.md], [fs.writeFileSync] on
    that path, and the clock that [processChangelog] reads, since the script
    passes no date. *)

(** The value of [packageJson.version]: a string, or any other value
    ([undefined] when the field is missing, a number, [null], ...).  Of such
    a value the script uses the string conversion, in ['V' + packageVersion]
    and in its last message, and [version.split] raises a TypeError on it,
    with a message of the engine. *)
Inductive version_field :=
  | version_string (s : list N)
  | version_other (as_string message : list N).

(** What [require(packageJsonPath)] does: it throws, or it returns [null],
    on which reading [.version] raises a TypeError that nothing catches, or
    it returns a value whose [version] is read. *)
Inductive required :=
  | require_throws
  | required_null
  | required_value (version : version_field).

Record collaborators := Collaborators {
  package_json : required;
  (** the text of [CHANGELOG.md], or [None] where reading it throws *)
  readFileSync : option (list N);
  writeFileSync_throws : bool;
  new_Date : clock
}.

Inductive call :=
  | console_error_reading_package
  | console_error_reading_changelog
  | console_error (message : list N)
  | console_error_writing
  | console_log (message : list N)
  | fs_writeFileSync (data : list N)
  | process_exit (code : N)
  | uncaught_TypeError.

(** [String(packageVersion)] *)
Definition version_text (packageVersion : version_field) : list N :=
  match packageVersion with
  | version_string s => s
  | version_other as_string _ => as_string
  end.

Section Script.

Variable Number_of_other : list N -> number.

(** [processChangelog(changelogContent, packageVersion)] as the script calls
    it: no date, and a version that may not be a string.  On another value
    the first check compares ['V' + packageVersion] with a located version,
    which never begins with [V], and the second one calls [version.split]:
    it is reached where a release header is located. *)
Definition processChangelog_call (now : clock) (changelogContent : list N)
    (packageVersion : version_field) : outcome :=
  match packageVersion with
  | version_string s => processChangelog Number_of_other now changelogContent s None
  | version_other as_string message =>
      match getFirstVersionHeader changelogContent with
      | Some _ => Throws message
      | None => rebuild now changelogContent (86 :: as_string) None
      end
  end.

Definition main (c : collaborators) : list call :=
  match package_json c with
  | require_throws => [console_error_reading_package; process_exit 1]
  | required_null => [uncaught_TypeError]
  | required_value packageVersion =>
      match readFileSync c with
      | None => [console_error_reading_changelog; process_exit 1]
      | Some changelogContent =>
          match processChangelog_call (new_Date c) changelogContent packageVersion with
          | Throws message => [console_error message; process_exit 1]
          | Returns updatedContent =>
              if writeFileSync_throws c
              then [fs_writeFileSync updatedContent; console_error_writing;
                    process_exit 1]
              else [fs_writeFileSync updatedContent;
                    console_log
                      (lit "Changelog updated successfully. New version: V"
                       ++ version_text packageVersion)]
          end
      end
  end.

End Script.

(** A project with [package.json] at version 1.0.2 and the sample document
    as its changelog, and the same project after a run. *)
Definition sample_project : collaborators :=
  Collaborators (required_value (version_string (lit "1.0.2")))
    (Some sampleChangelog) false a_clock.

Definition project_with (c : collaborators) (changelog : list N) : collaborators :=
  Collaborators (package_json c) (Some changelog) (writeFileSync_throws c)
    (new_Date c).


(** * Facts about the string primitives *)

(** The fixed texts stay folded under [simpl]. *)
Arguments lit : simpl never.
Arguments marker : simpl never.
Arguments top_level : simpl never.
Arguments newUnreleasedSection : simpl never.

Lemma Returns_inj a b : Returns a = Returns b -> a = b.
Proof. congruence. Qed.

Lemma strip_prefix_spec p s r : strip_prefix p s = Some r <-> s = p ++ r.
Proof.
  revert s; induction p as [|a p IH]; intros [|b s]; simpl.
  - split; congruence.
  - split; congruence.
  - split; congruence.
  - destruct (N.eqb_spec a b) as [->|Hne].
    + rewrite IH. split; congruence.
    + split; congruence.
Qed.

Lemma strip_prefix_app p r : strip_prefix p (p ++ r) = Some r.
Proof. by apply strip_prefix_spec. Qed.

Lemma starts_with_spec p s : starts_with p s = true <-> exists r, s = p ++ r.
Proof.
  unfold starts_with. destruct (strip_prefix p s) as [r|] eqn:E.
  - apply strip_prefix_spec in E. split; eauto.
  - split; [done|]. intros [r ->]. by rewrite strip_prefix_app in E.
Qed.

Lemma span_spec f s a b :
  span f s = (a, b) <-> s = a ++ b /\ forallb f a = true /\ stops f b.
Proof.
  revert a b; induction s as [|c s IH]; intros a b; simpl.
  - split.
    + intros [= <- <-]. done.
    + intros (H & _ & _). symmetry in H. apply app_eq_nil in H as [-> ->]. done.
  - destruct (f c) eqn:Hc.
    + destruct (span f s) as [a' b'] eqn:E. split.
      * intros [= <- <-]. destruct (proj1 (IH a' b') eq_refl) as (-> & Ha & Hb).
        simpl. by rewrite Hc, Ha.
      * intros (H & Ha & Hb). destruct a as [|c' a]; simpl in *.
        { subst b. simpl in Hb. congruence. }
        injection H as <- ->. apply andb_true_iff in Ha as [_ Ha].
        assert (E' : (a', b') = (a, b)) by (by apply IH).
        by injection E' as <- <-.
    + split.
      * intros [= <- <-]. done.
      * intros (H & Ha & Hb). destruct a as [|c' a]; simpl in *.
        { by subst b. }
        injection H as <- ->. rewrite Hc in Ha. done.
Qed.

Lemma span_app f a b :
  forallb f a = true -> stops f b -> span f (a ++ b) = (a, b).
Proof. intros. by apply span_spec. Qed.

Lemma drop_while_app f a b :
  forallb f a = true -> stops f b -> drop_while f (a ++ b) = b.
Proof. intros Ha Hb. unfold drop_while. by rewrite span_app. Qed.

Lemma drop_while_stops f b : stops f b -> drop_while f b = b.
Proof. intros Hb. by apply (drop_while_app f []). Qed.

Lemma drop_while_spec f s :
  exists a, s = a ++ drop_while f s /\ forallb f a = true
            /\ stops f (drop_while f s).
Proof.
  unfold drop_while. destruct (span f s) as [a b] eqn:E.
  apply span_spec in E. exists a. done.
Qed.

Lemma digits1_spec s ds rest :
  digits1 s = Some (ds, rest)
  <-> ds <> [] /\ s = ds ++ rest /\ forallb is_digit ds = true
      /\ stops is_digit rest.
Proof.
  unfold digits1. destruct (span is_digit s) as [a b] eqn:E.
  apply span_spec in E. destruct E as (-> & Ha & Hb). split.
  - destruct a; [done|]. intros [= <- <-]. done.
  - intros (Hne & H & Hds & Hrest).
    assert (E1 : span is_digit (a ++ b) = (a, b)) by (by apply span_spec).
    assert (E2 : span is_digit (ds ++ rest) = (ds, rest)) by (by apply span_spec).
    rewrite H, E2 in E1. injection E1 as <- <-. by destruct ds.
Qed.

Lemma expect_spec c s r : expect c s = Some r <-> s = c :: r.
Proof.
  destruct s as [|b s]; simpl; [split; congruence|].
  destruct (N.eqb_spec b c) as [->|]; split; congruence.
Qed.

Lemma split_on_cons sep s : exists piece pieces, split_on sep s = piece :: pieces.
Proof.
  destruct s as [|c s]; [by eexists _, _|]. cbn [split_on].
  destruct (c =? sep); [by eexists _, _|].
  destruct (split_on sep s); by eexists _, _.
Qed.

Lemma split_on_app sep a rest :
  split_on sep (a ++ sep :: rest) = split_on sep a ++ split_on sep rest.
Proof.
  induction a as [|c a IH]; cbn [app split_on].
  - by rewrite N.eqb_refl.
  - rewrite IH. destruct (c =? sep); [done|].
    by destruct (split_on_cons sep a) as (piece & pieces & ->).
Qed.

Lemma split_on_one sep l : sep ∉ l -> split_on sep l = [l].
Proof.
  induction l as [|c l IH]; [done|]. intros H.
  apply not_elem_of_cons in H as [Hc H]. cbn [split_on].
  destruct (N.eqb_spec c sep) as [->|_]; [done|]. by rewrite IH.
Qed.

(** ** The shape of a located version *)

(** Case analysis on the stages of a matcher written in the option monad. *)
Ltac stages H :=
  unfold mbind, option_bind in H;
  repeat match type of H with
         | match ?m with Some _ => _ | None => None end = Some _ =>
             let E := fresh "E" in
             destruct m as [?|] eqn:E; [|discriminate H]
         | (let '(_, _) := ?p in _) = Some _ =>
             first [ is_var p; destruct p
                   | let E := fresh "E" in destruct p eqn:E ]
         end.

Lemma match_header_here_triple s v : match_header_here s = Some v -> is_triple v.
Proof.
  unfold match_header_here, match_after_hashes. intros H. stages H.
  repeat match goal with
         | H : digits1 _ = Some _ |- _ => apply digits1_spec in H
         end.
  injection H as <-.
  eexists _, _, _. split; [reflexivity|]. tauto.
Qed.

Lemma find_header_triple bol s v : find_header bol s = Some v -> is_triple v.
Proof.
  revert bol; induction s as [|c s IH]; intros bol; simpl.
  - destruct bol; [|done].
    destruct (match_header_here []) eqn:E; [|done].
    intros [= <-]. by eapply match_header_here_triple.
  - destruct (if bol then match_header_here (c :: s) else None) eqn:E.
    + intros [= <-]. destruct bol; [|done]. by eapply match_header_here_triple.
    + apply IH.
Qed.

Lemma triple_head v : is_triple v -> exists c w, v = c :: w /\ is_digit c = true.
Proof.
  intros (major & minor & patch & -> & (Hne & Hd) & _).
  destruct major as [|c major]; [done|]. simpl in Hd.
  apply andb_true_iff in Hd as [Hc _]. by eexists _, _.
Qed.

(** ** Where the pending section is found *)

Lemma last_cons_any (c : N) body d d' :
  List.last (c :: body) d = List.last (c :: body) d'.
Proof.
  revert c; induction body as [|b body IH]; intros c; [done|].
  change (List.last (b :: body) d = List.last (b :: body) d'). apply IH.
Qed.

Lemma lazy_to_header_Some prev s k :
  lazy_to_header prev s = Some k ->
  exists body post,
    s = body ++ post /\ length body = k /\ starts_with top_level post = true
    /\ is_line_terminator (List.last body prev) = true.
Proof.
  revert prev k; induction s as [|c s IH]; intros prev k; simpl.
  - destruct (is_line_terminator prev && starts_with top_level []) eqn:E; [|done].
    intros [= <-]. exists [], []. apply andb_true_iff in E as [? ?]. done.
  - destruct (is_line_terminator prev && starts_with top_level (c :: s)) eqn:E.
    + intros [= <-]. exists [], (c :: s). apply andb_true_iff in E as [? ?]. done.
    + destruct (lazy_to_header c s) as [k'|] eqn:E'; [|done].
      intros [= <-]. destruct (IH _ _ E') as (body & post & -> & <- & Hp & Hl).
      exists (c :: body), post. repeat split; [done|].
      destruct body as [|b body]; [done|].
      by rewrite (last_cons_any c (b :: body) prev c).
Qed.

Lemma match_unreleased_here_Some s n :
  match_unreleased_here s = Some n ->
  exists body post,
    s = marker ++ body ++ post /\ n = length (marker ++ body)
    /\ starts_with top_level post = true.
Proof.
  unfold match_unreleased_here. intros H. stages H. injection H as <-.
  apply strip_prefix_spec in E as ->.
  apply lazy_to_header_Some in E0 as (body & post & -> & <- & Hp & _).
  exists body, post. by rewrite length_app.
Qed.

Lemma find_unreleased_Some i s j n :
  find_unreleased i s = Some (j, n) ->
  exists pre body post,
    s = pre ++ (marker ++ body) ++ post
    /\ j = (i + length pre)%nat /\ n = length (marker ++ body)
    /\ starts_with top_level post = true.
Proof.
  revert i; induction s as [|c s IH]; intros i; cbn [find_unreleased].
  - done.
  - destruct (match_unreleased_here (c :: s)) eqn:E.
    + intros [= <- <-]. apply match_unreleased_here_Some in E as (b & p & E & -> & Hp).
      exists [], b, p. rewrite E, <- app_assoc. by rewrite Nat.add_0_r.
    + intros H. apply IH in H as (pre & b & p & -> & -> & -> & Hp).
      exists (c :: pre), b, p. simpl. repeat split; [lia|done].
Qed.

Lemma includes_false p s :
  includes p s = false -> forall a b, s <> a ++ p ++ b.
Proof.
  induction s as [|c s IH]; simpl; intros H a b E.
  - apply orb_false_iff in H as [H _].
    symmetry in E. apply app_eq_nil in E as [-> E]. apply app_eq_nil in E as [-> ->].
    done.
  - apply orb_false_iff in H as [H1 H2]. destruct a as [|c' a].
    + simpl in E. assert (starts_with p (c :: s) = true); [|congruence].
      apply starts_with_spec. by exists b.
    + injection E as -> E. by eapply IH.
Qed.

Lemma find_unreleased_None i s :
  (forall a b, s <> a ++ marker ++ b) -> find_unreleased i s = None.
Proof.
  revert i; induction s as [|c s IH]; intros i H; cbn [find_unreleased].
  - done.
  - destruct (match_unreleased_here (c :: s)) eqn:E.
    + apply match_unreleased_here_Some in E as (b & p & E & _).
      by destruct (H [] (b ++ p)).
    + apply IH. intros a b ->. by apply (H (c :: a) b).
Qed.

Lemma find_unreleased_ge i s j n : find_unreleased i s = Some (j, n) -> (i <= j)%nat.
Proof.
  revert i; induction s as [|c s IH]; intros i; cbn [find_unreleased].
  - destruct (match_unreleased_here []); [|done]. intros [= <- _]. lia.
  - destruct (match_unreleased_here (c :: s)).
    + intros [= <- _]. lia.
    + intros H. apply IH in H. lia.
Qed.

(** * The matchers the expressions denote *)

Lemma moved_nil p : moved p [] (rest p) = p.
Proof. by destruct p. Qed.

Lemma moved_here p s : rest p = s -> moved p [] s = p.
Proof. intros <-. apply moved_nil. Qed.

Lemma moved_moved p x s1 y s2 :
  moved (moved p x s1) y s2 = moved p (x ++ y) s2.
Proof.
  unfold moved. cbn [before index rest groups]. f_equal.
  - rewrite last_app. by destruct (last y).
  - rewrite length_app. lia.
Qed.

Lemma matches_text x A p (k : place -> option A) :
  matches (text x) A p k =
    match strip_prefix x (rest p) with
    | Some s' => k (moved p x s')
    | None => None
    end.
Proof.
  revert p; induction x as [|c x IH]; intros p.
  - cbn [text foldr matches strip_prefix]. by rewrite moved_nil.
  - change (text (c :: x)) with (Then (Unit (N.eqb c)) (text x)).
    cbn [matches]. destruct (rest p) as [|b s']; [done|].
    cbn [strip_prefix]. destruct (N.eqb_spec c b) as [<-|]; [|done].
    rewrite IH. change (step c s' p) with (moved p [c] s').
    cbn [rest moved]. destruct (strip_prefix x s') as [s''|]; [|done].
    by rewrite moved_moved.
Qed.

(** The greedy star where the continuation cannot take a unit of the class:
    only the longest run is left to try. *)
Lemma greedy_rejects {A} f (k : place -> option A) s p :
  rejects f k -> rest p = s ->
  greedy f k s p = k (moved p (span f s).1 (span f s).2).
Proof.
  intros Hk. revert p; induction s as [|c s IH]; intros p Hp;
    cbn [greedy span].
  - cbn [fst snd]. by rewrite moved_here.
  - destruct (f c) eqn:Hc.
    + rewrite IH by done. change (step c s p) with (moved p [c] s).
      rewrite moved_moved. destruct (span f s) as [a b]. cbn [fst snd app].
      destruct (k (moved p (c :: a) b)) eqn:E; [done|].
      by apply (Hk p c s).
    + cbn [fst snd]. by rewrite moved_here.
Qed.

Lemma matches_Many f A p (k : place -> option A) :
  rejects f k ->
  matches (Many f) A p k = k (moved p (span f (rest p)).1 (span f (rest p)).2).
Proof. intros Hk. cbn [matches]. by apply greedy_rejects. Qed.

(** The greedy star where the continuation succeeds after the longest run. *)
Lemma greedy_longest {A} f (k : place -> option A) s p a :
  k (moved p (span f s).1 (span f s).2) = Some a -> rest p = s ->
  greedy f k s p = Some a.
Proof.
  revert p; induction s as [|c s IH]; intros p; cbn [greedy span].
  - cbn [fst snd]. intros H Hp. by rewrite moved_here in H.
  - destruct (f c) eqn:Hc.
    + destruct (span f s) as [x y] eqn:E. cbn [fst snd]. intros H Hp.
      rewrite (IH (step c s p)); [done| |done].
      change (step c s p) with (moved p [c] s). by rewrite moved_moved.
    + cbn [fst snd]. intros H Hp. by rewrite moved_here in H.
Qed.

Lemma matches_plus f A p (k : place -> option A) :
  rejects f k ->
  matches (plus f) A p k =
    match span f (rest p) with
    | ([], _) => None
    | (ds, r) => k (moved p ds r)
    end.
Proof.
  intros Hk. unfold plus. cbn [matches]. destruct (rest p) as [|c s] eqn:Hp.
  - done.
  - cbn [span]. destruct (f c) eqn:Hc; [|done].
    rewrite greedy_rejects by done. cbn [rest step].
    change (step c s p) with (moved p [c] s). rewrite moved_moved.
    by destruct (span f s).
Qed.

Lemma matches_times n A p (k : place -> option A) :
  matches (times n is_digit) A p k =
    match digits_exactly n (rest p) with
    | Some s' => k (moved p (take n (rest p)) s')
    | None => None
    end.
Proof.
  revert p; induction n as [|n IH]; intros p; cbn [times matches digits_exactly].
  - by rewrite moved_nil.
  - destruct (rest p) as [|c s]; [done|]. destruct (is_digit c); [|done].
    rewrite IH. change (step c s p) with (moved p [c] s). cbn [rest moved].
    destruct (digits_exactly n s); [|done]. by rewrite moved_moved.
Qed.

(** The option where the continuation cannot take the optional unit. *)
Lemma matches_Maybe c A p (k : place -> option A) :
  rejects (N.eqb c) k ->
  matches (Maybe (text [c])) A p k =
    match rest p with
    | b :: s => if c =? b then k (moved p [c] s) else k p
    | [] => k p
    end.
Proof.
  intros Hk. cbn [matches text foldr]. destruct (rest p) as [|b s] eqn:Hp.
  - done.
  - destruct (N.eqb_spec c b) as [<-|Hne]; [|done].
    change (step c s p) with (moved p [c] s).
    destruct (k (moved p [c] s)); [done|].
    apply (Hk p c s Hp). apply N.eqb_refl.
Qed.

Lemma strip_prefix_single c s : strip_prefix [c] s = expect c s.
Proof.
  destruct s as [|b s]; [done|]. cbn [strip_prefix expect].
  rewrite (N.eqb_sym c b). by destruct (b =? c).
Qed.

Lemma matches_Then r1 r2 A p (k : place -> option A) :
  matches (Then r1 r2) A p k = matches r1 A p (fun p' => matches r2 A p' k).
Proof. reflexivity. Qed.

(** A continuation that starts with a unit outside the class rejects it. *)
Lemma rejects_Unit {A} f g r (k : place -> option A) :
  (forall c, f c = true -> g c = false) ->
  rejects f (fun p' => matches (Then (Unit g) r) A p' k).
Proof.
  intros H q c s' Hq Hc. cbn [matches]. rewrite Hq. by rewrite (H c Hc).
Qed.

Lemma rejects_after_group {A} f i (text_of : place -> list N)
    (k : place -> option A) :
  rejects f k -> rejects f (fun p' => k (set_group i (text_of p') p')).
Proof. intros H q c s' Hq Hc. by apply (H _ c s'). Qed.

Lemma rejects_Nothing {A} f r (k : place -> option A) :
  rejects f (fun p' => matches r A p' k) ->
  rejects f (fun p' => matches (Then Nothing r) A p' k).
Proof. done. Qed.

(** The two are different units: the class of the one rejects the other. *)
Ltac other_unit :=
  let c := fresh "c" in
  let Hc := fresh "Hc" in
  intros c Hc;
  first
    [ apply not_true_iff_false; intros ?;
      unfold is_word, is_space, is_digit, is_line_terminator in *;
      rewrite ?orb_true_iff, ?andb_true_iff, ?N.leb_le, ?N.eqb_eq in *; lia ].

Lemma matches_LineStart A p (k : place -> option A) :
  matches LineStart A p k = if at_line_start p then k p else None.
Proof. reflexivity. Qed.

Lemma matches_Nothing A p (k : place -> option A) : matches Nothing A p k = k p.
Proof. reflexivity. Qed.

Lemma matches_Capture i r A p (k : place -> option A) :
  matches (Capture i r) A p k =
    matches r A p
      (fun p' => k (set_group i (take (index p' - index p) (rest p)) p')).
Proof. reflexivity. Qed.

(** Closes the side condition of a deterministic star: the continuation
    starts with a unit that the class does not hold. *)
Ltac solve_rejects :=
  let q := fresh "q" in
  let c := fresh "c" in
  let s := fresh "s" in
  let Hq := fresh "Hq" in
  let Hc := fresh "Hc" in
  intros q c s Hq Hc;
  cbn [matches text foldr plus times set_group rest];
  rewrite Hq;
  match goal with
  | |- (if ?g then _ else _) = None =>
      replace g with false; [reflexivity|];
      symmetry; apply not_true_iff_false; intros ?;
      unfold is_word, is_space, is_digit, is_line_terminator in *;
      rewrite ?orb_true_iff, ?andb_true_iff, ?N.leb_le, ?N.eqb_eq in *; lia
  end.

(** One literal unit of the expression against [expect] of the matcher. *)
Ltac literal E :=
  rewrite matches_Then, matches_text, strip_prefix_single;
  cbn [rest moved set_group];
  match goal with
  | |- context [expect ?c ?s] =>
      destruct (expect c s) as [?|] eqn:E; [|reflexivity]
  end;
  cbn [mbind option_bind].

Lemma matches_digits A p (k : place -> option A) :
  rejects is_digit k ->
  matches (plus is_digit) A p k =
    match digits1 (rest p) with
    | Some (ds, r) => k (moved p ds r)
    | None => None
    end.
Proof.
  intros Hk. rewrite matches_plus by done. unfold digits1.
  by destruct (span is_digit (rest p)) as [[|d ds] r].
Qed.

(** [\d+] of the expression against [digits1] of the matcher. *)
Ltac digits E :=
  rewrite matches_Then, matches_digits by solve_rejects;
  cbn [rest moved set_group];
  match goal with
  | |- context [digits1 ?s] =>
      destruct (digits1 s) as [[? ?]|] eqn:E; [|reflexivity]
  end;
  cbn [mbind option_bind].

Lemma matches_versionTail q :
  matches versionTail _ q (fun p' => Some (groups p'))
  = ('(major, s) ← digits1 (rest q);
     s ← expect 46 s;
     '(minor, s) ← digits1 s;
     s ← expect 46 s;
     '(patch, s) ← digits1 s;
     s ← expect 93 s;
     s ← expect 45 (drop_while is_space s);
     _ ← match_date (drop_while is_space s);
     Some (major ++ 46 :: minor ++ 46 :: patch))
    ≫= fun v => Some (<[1%nat := v]> (groups q)).
Proof.
  unfold versionTail. cbn [sequence foldr].
  rewrite matches_Then, matches_Capture.
  digits E1. literal E2. digits E3. literal E4. digits E5.
  rewrite matches_Nothing.
  (* the text of the group *)
  assert (Hcap : take (index (moved (moved (moved (moved (moved q l l0) [46] l1)
                                              l2 l3) [46] l4) l5 l6) - index q)
                   (rest q)
                 = l ++ 46 :: l2 ++ 46 :: l5).
  { apply digits1_spec in E1 as (_ & -> & _), E3 as (_ & -> & _),
      E5 as (_ & -> & _).
    apply expect_spec in E2 as ->, E4 as ->.
    cbn [index moved].
    transitivity (take (length (l ++ 46 :: l2 ++ 46 :: l5))
                    ((l ++ 46 :: l2 ++ 46 :: l5) ++ l6));
      [|apply take_app_length].
    f_equal.
    - rewrite !length_app. cbn [length]. rewrite !length_app. cbn [length]. lia.
    - rewrite <- !app_assoc. cbn [app]. by rewrite <- !app_assoc. }
  rewrite Hcap. clear Hcap.
  literal E6.
  rewrite matches_Then, matches_Many by solve_rejects. cbn [rest moved].
  change (snd (span is_space l7)) with (drop_while is_space l7).
  literal E7.
  rewrite matches_Then, matches_Many by solve_rejects. cbn [rest moved].
  change (snd (span is_space l8)) with (drop_while is_space l8).
  unfold match_date.
  rewrite matches_Then, matches_times. cbn [rest moved].
  destruct (digits_exactly 4 (drop_while is_space l8)) as [s1|]; [|reflexivity].
  cbn [mbind option_bind].
  literal E8.
  rewrite matches_Then, matches_times. cbn [rest moved].
  destruct (digits_exactly 2 l9) as [s2|]; [|reflexivity].
  cbn [mbind option_bind].
  literal E9.
  rewrite matches_Then, matches_times. cbn [rest moved].
  destruct (digits_exactly 2 l10) as [s3|]; [|reflexivity].
  reflexivity.
Qed.

Lemma versionRegex_units :
  versionRegex =
  Then LineStart
    (Then (text [35; 35])
       (Then (Many is_space)
          (Then (text [91]) (Then (Maybe (text [86])) versionTail)))).
Proof. reflexivity. Qed.

Lemma matches_versionRegex p :
  matches versionRegex _ p (fun p' => Some (groups p'))
  = if at_line_start p
    then v ← match_header_here (rest p); Some (<[1%nat := v]> (groups p))
    else None.
Proof.
  rewrite versionRegex_units.
  rewrite matches_Then, matches_LineStart. destruct (at_line_start p); [|done].
  rewrite matches_Then, matches_text.
  unfold match_header_here. change (lit "##") with [35; 35].
  destruct (strip_prefix [35; 35] (rest p)) as [s1|] eqn:E1; [|done].
  cbn [mbind option_bind]. unfold match_after_hashes.
  rewrite matches_Then, matches_Many by solve_rejects. cbn [rest moved].
  change (snd (span is_space s1)) with (drop_while is_space s1).
  literal E2.
  rewrite matches_Then, matches_Maybe
    by (unfold versionTail; cbn [sequence foldr]; solve_rejects).
  cbn [rest moved].
  destruct l as [|b s2]; cbn [optional].
  - rewrite matches_versionTail. reflexivity.
  - rewrite (N.eqb_sym 86 b). destruct (b =? 86).
    + rewrite matches_versionTail. reflexivity.
    + rewrite matches_versionTail. reflexivity.
Qed.

(** The search with the header expression is [find_header]. *)
Lemma search_versionRegex s p :
  rest p = s -> groups p = ∅ ->
  group 1 (search versionRegex s p) = find_header (at_line_start p) s.
Proof.
  revert p; induction s as [|c s IH]; intros p Hr Hg;
    cbn [search find_header]; rewrite matches_versionRegex, Hr, Hg.
  - destruct (at_line_start p); [|done].
    destruct (match_header_here []) as [v|]; [|done].
    cbn [mbind option_bind group match_groups]. apply lookup_insert_eq.
  - destruct (at_line_start p).
    + destruct (match_header_here (c :: s)) as [v|].
      * cbn [mbind option_bind group match_groups]. apply lookup_insert_eq.
      * cbn [mbind option_bind]. by apply (IH (step c s p)).
    + by apply (IH (step c s p)).
Qed.

Lemma exec_versionRegex s : group 1 (exec versionRegex s) = find_header true s.
Proof. by apply (search_versionRegex s (Place None 0 s ∅)). Qed.

(** ** The pending-section expression *)

Lemma lazy_to_header_lazy {A} (F : place -> A) s q prev :
  rest q = s -> before q = Some prev ->
  lazy any
    (fun p' =>
       if at_line_start p' && starts_with top_level (rest p')
       then Some (F p') else None) s q
  = match lazy_to_header prev s with
    | Some k => Some (F (moved q (take k s) (drop k s)))
    | None => None
    end.
Proof.
  revert q prev; induction s as [|c s IH]; intros q prev Hr Hb;
    cbn [lazy lazy_to_header];
    replace (at_line_start q) with (is_line_terminator prev)
      by (unfold at_line_start; by rewrite Hb);
    rewrite Hr.
  - destruct (is_line_terminator prev && starts_with top_level []); [|done].
    cbn [take drop]. by rewrite moved_here.
  - destruct (is_line_terminator prev && starts_with top_level (c :: s)).
    + cbn [take drop]. by rewrite moved_here.
    + cbn [any]. rewrite (IH (step c s q) c) by done.
      destruct (lazy_to_header c s) as [k|]; [|done].
      cbn [fmap option_fmap option_map take drop].
      change (step c s q) with (moved q [c] s). by rewrite moved_moved.
Qed.

Lemma lazy_to_header_length prev s k :
  lazy_to_header prev s = Some k -> (k <= length s)%nat.
Proof.
  intros H. apply lazy_to_header_Some in H as (body & post & -> & <- & _).
  rewrite length_app. lia.
Qed.

Lemma unreleasedRegex_units :
  unreleasedRegex =
  Then (Capture 1 (Then (text marker) (Then (Capture 2 (Few any)) Nothing)))
    (Then (Ahead (Then LineStart (Then (text top_level) Nothing))) Nothing).
Proof. reflexivity. Qed.

Lemma matches_Ahead_header A p (k : place -> option A) :
  matches (Ahead (Then LineStart (Then (text top_level) Nothing))) A p k
  = if at_line_start p && starts_with top_level (rest p) then k p else None.
Proof.
  cbn [matches]. destruct (at_line_start p); [|done]. cbn [andb].
  rewrite matches_text. unfold starts_with.
  destruct (strip_prefix top_level (rest p)); [|done].
  by destruct p.
Qed.

Lemma lazy_ext {A} f (k1 k2 : place -> option A) s q :
  (forall p, k1 p = k2 p) -> lazy f k1 s q = lazy f k2 s q.
Proof.
  intros H. revert q; induction s as [|c s IH]; intros q; cbn [lazy];
    rewrite H; [done|].
  destruct (k2 q); [done|]. destruct (f c); [apply IH|done].
Qed.

Lemma matches_Few f A p (k : place -> option A) :
  matches (Few f) A p k = lazy f k (rest p) p.
Proof. reflexivity. Qed.

(** What the expression captures where it matches: group 1 is the text of
    the located length, group 2 what follows the marker in it. *)
Lemma matches_unreleasedRegex p :
  matches unreleasedRegex _ p (fun p' => Some (groups p'))
  = n ← match_unreleased_here (rest p);
    Some (<[1%nat := take n (rest p)]>
            (<[2%nat := take (n - length marker) (drop (length marker) (rest p))]>
               (groups p))).
Proof.
  rewrite unreleasedRegex_units.
  rewrite matches_Then, matches_Capture, matches_Then, matches_text.
  unfold match_unreleased_here.
  destruct (strip_prefix marker (rest p)) as [r|] eqn:E; [|done].
  cbn [mbind option_bind].
  rewrite matches_Then, matches_Capture, matches_Few.
  rewrite (lazy_ext _ _
             (fun p' =>
                if at_line_start p' && starts_with top_level (rest p')
                then Some (<[1%nat := take (index p' - index p) (rest p)]>
                             (<[2%nat := take (index p'
                                               - index (moved p marker r)) r]>
                                (groups p')))
                else None)).
  2:{ intros p'. rewrite matches_Nothing, matches_Then, matches_Ahead_header.
      reflexivity. }
  rewrite (lazy_to_header_lazy _ r (moved p marker r) LF) by reflexivity.
  cbn [rest moved].
  destruct (lazy_to_header LF r) as [k|] eqn:Ek; [|done].
  cbn [mbind option_bind]. f_equal.
  pose proof (lazy_to_header_length _ _ _ Ek) as Hk.
  apply strip_prefix_spec in E. rewrite E. cbn [index moved groups].
  rewrite length_take, Nat.min_l by done.
  rewrite drop_app_length.
  replace (k + (length marker + index p) - index p)%nat
    with (length marker + k)%nat by lia.
  replace (k + (length marker + index p) - (length marker + index p))%nat
    with k by lia.
  replace (length marker + k - length marker)%nat with k by lia.
  reflexivity.
Qed.

(** The search with the pending-section expression is [find_unreleased]. *)
Lemma search_unreleasedRegex s p :
  rest p = s -> groups p = ∅ ->
  (fun m => (match_index m, match_groups m !! 1%nat)) <$> search unreleasedRegex s p
  = (fun '(i, n) => (i, Some (take n (drop (i - index p) s))))
    <$> find_unreleased (index p) s.
Proof.
  revert p; induction s as [|c s IH]; intros p Hr Hg;
    cbn [search find_unreleased]; rewrite matches_unreleasedRegex, Hr, Hg.
  - destruct (match_unreleased_here []) as [n|]; [|done].
    cbn [mbind option_bind fmap option_fmap option_map match_index match_groups].
    rewrite lookup_insert_eq, Nat.sub_diag. done.
  - destruct (match_unreleased_here (c :: s)) as [n|].
    + cbn [mbind option_bind fmap option_fmap option_map match_index match_groups].
      rewrite lookup_insert_eq, Nat.sub_diag. done.
    + cbn [mbind option_bind]. rewrite (IH (step c s p)) by done.
      cbn [index step].
      destruct (find_unreleased (S (index p)) s) as [[i n]|] eqn:Ef; [|done].
      cbn [fmap option_fmap option_map]. apply find_unreleased_ge in Ef.
      replace (i - index p)%nat with (S (i - S (index p))) by lia. done.
Qed.

Lemma exec_unreleasedRegex s :
  (fun m => (match_index m, match_groups m !! 1%nat)) <$> exec unreleasedRegex s
  = (fun '(i, n) => (i, Some (take n (drop i s)))) <$> find_unreleased 0 s.
Proof.
  unfold exec. rewrite (search_unreleasedRegex s (Place None 0 s ∅)) by done.
  cbn [index]. destruct (find_unreleased 0 s) as [[i n]|]; [|done].
  cbn [fmap option_fmap option_map]. by rewrite Nat.sub_0_r.
Qed.

(** ** The subsection-header expression *)

Lemma headerRegex_units :
  headerRegex =
  Then InputStart
    (Then (text [35; 35; 35])
       (Then (Many is_space) (Then (Capture 1 (plus is_word)) Nothing))).
Proof. reflexivity. Qed.

Lemma matches_InputStart A p (k : place -> option A) :
  matches InputStart A p k = match index p with O => k p | S _ => None end.
Proof. reflexivity. Qed.

(** [x+] where the continuation never fails: the longest run is taken. *)
Lemma matches_plus_longest f A p (k : place -> option A) :
  (forall p', k p' <> None) ->
  matches (plus f) A p k =
    match span f (rest p) with
    | ([], _) => None
    | (ds, r) => k (moved p ds r)
    end.
Proof.
  intros Hk. unfold plus. cbn [matches]. destruct (rest p) as [|c s] eqn:Hp.
  - done.
  - cbn [span]. destruct (f c) eqn:Hc; [|done].
    destruct (span f s) as [ds r] eqn:Es.
    destruct (k (moved p (c :: ds) r)) as [a|] eqn:Ea;
      [|by destruct (Hk (moved p (c :: ds) r))].
    apply greedy_longest; [|done].
    change (step c s p) with (moved p [c] s). rewrite moved_moved.
    cbn [rest moved]. rewrite Es. exact Ea.
Qed.

Lemma matches_headerRegex p :
  matches headerRegex _ p (fun p' => Some (groups p'))
  = match index p with
    | O => name ← header_name (rest p); Some (<[1%nat := name]> (groups p))
    | S _ => None
    end.
Proof.
  rewrite headerRegex_units. rewrite matches_Then, matches_InputStart.
  destruct (index p) eqn:Ei; [|done].
  rewrite matches_Then, matches_text. unfold header_name.
  change (lit "###") with [35; 35; 35].
  destruct (strip_prefix [35; 35; 35] (rest p)) as [r|] eqn:E; [|done].
  cbn [mbind option_bind].
  rewrite matches_Then, matches_Many by solve_rejects. cbn [rest moved].
  change (snd (span is_space r)) with (drop_while is_space r).
  rewrite matches_Then, matches_Capture.
  rewrite matches_plus_longest by done. cbn [rest moved].
  destruct (span is_word (drop_while is_space r)) as [[|w ws] r'] eqn:Es; [done|].
  rewrite matches_Nothing. cbn [groups set_group moved index mbind option_bind].
  apply span_spec in Es as (Es & _). rewrite Es.
  by rewrite Nat.add_sub, take_app_length.
Qed.

Lemma search_headerRegex_later s p :
  (0 < index p)%nat -> search headerRegex s p = None.
Proof.
  revert p; induction s as [|c s IH]; intros p Hp; cbn [search];
    rewrite matches_headerRegex; destruct (index p) eqn:Ei; try lia; [done|].
  apply IH. cbn [index step]. lia.
Qed.

Lemma exec_headerRegex line : group 1 (exec headerRegex line) = header_name line.
Proof.
  unfold exec. destruct line as [|c s]; cbn [search];
    rewrite matches_headerRegex; cbn [index rest groups].
  - destruct (header_name []) as [name|];
      cbn [mbind option_bind group match_groups]; [|done].
    apply lookup_insert_eq.
  - destruct (header_name (c :: s)) as [name|];
      cbn [mbind option_bind group match_groups].
    + apply lookup_insert_eq.
    + by rewrite search_headerRegex_later by (cbn [index step]; lia).
Qed.

(** ** The source functions on the matchers *)

Lemma getFirstVersionHeader_find s :
  getFirstVersionHeader s = find_header true s.
Proof. apply exec_versionRegex. Qed.

Lemma category_header_name line :
  category_header line =
    match header_name line with
    | Some name => if bool_decide (name ∈ categories) then Some name else None
    | None => None
    end.
Proof. unfold category_header. by rewrite exec_headerRegex. Qed.

Lemma rebuild_located now doc newVersion date :
  rebuild now doc newVersion date =
    match find_unreleased 0 doc with
    | None => Throws could_not_find
    | Some (index, n) =>
        Returns
          (take index doc
           ++ newUnreleasedSection
           ++ [LF]
           ++ newReleaseSection newVersion (date_string now date)
                (extract_content (take n (drop index doc)))
           ++ drop (index + n) doc)
    end.
Proof.
  unfold rebuild. pose proof (exec_unreleasedRegex doc) as H.
  destruct (exec unreleasedRegex doc) as [m|],
    (find_unreleased 0 doc) as [[i n]|] eqn:Ef; try done.
  cbn [fmap option_fmap option_map] in H.
  apply (f_equal (fun o => match o with Some x => x | None => (0%nat, None) end)) in H.
  cbn beta iota in H.
  assert (Hi : match_index m = i) by (by apply (f_equal fst) in H).
  assert (Hg : match_groups m !! 1%nat = Some (take n (drop i doc)))
    by (by apply (f_equal snd) in H).
  rewrite Hi, Hg. cbn [default from_option]. unfold id.
  apply find_unreleased_Some in Ef as (pre & body & post & -> & -> & -> & _).
  change (0 + length pre)%nat with (length pre).
  by rewrite drop_app_length, !take_app_length.
Qed.

(** The first check of [processChangelog] never fires: the located version
    starts with a digit and [newVersion] with the prefix. *)
Lemma processChangelog_checks Number_of_other now doc v date :
  processChangelog Number_of_other now doc v date =
    match getFirstVersionHeader doc with
    | Some current =>
        if isHigherVersion Number_of_other v current
        then rebuild now doc (86 :: v) date
        else Throws (not_higher (86 :: v) current)
    | None => rebuild now doc (86 :: v) date
    end.
Proof.
  unfold processChangelog.
  destruct (getFirstVersionHeader doc) as [current|] eqn:E; [|done].
  rewrite getFirstVersionHeader_find in E.
  apply find_header_triple, triple_head in E as (c & w & -> & Hc). simpl.
  unfold str_eqb. rewrite bool_decide_eq_false_2.
  - by destruct (isHigherVersion _ _ _).
  - intros [= -> _]. done.
Qed.


(** * The claims on the order of the checks *)

(** The slip behind the first check: the located version has lost its prefix
    when it is compared with the prefixed [newVersion], so that a version
    which is already in the changelog is reported as not higher. *)
Example already_present_is_reported_as_not_higher :
  processChangelog nan_elsewhere a_clock sampleChangelog (lit "1.0.1")
    (Some (lit "2025-02-19"))
  = Throws (lit "Version conflict: V1.0.1 is not higher than 1.0.1").
Proof. vm_compute. reflexivity. Qed.

(** C1, as stated, fails: a document whose first release header carries
    1.0.1 and which has no pending section does not succeed with target
    1.0.2. *)
Lemma C1_counterexample :
  getFirstVersionHeader released_only = Some (lit "1.0.1")
  /\ processChangelog nan_elsewhere a_clock released_only (lit "1.0.2")
       (Some (lit "2025-02-19")) = Throws could_not_find.
Proof. vm_compute. done. Qed.

(** C1, amended: on every document whose first release header carries
    1.0.1, target 1.0.1 raises a version conflict, target 1.0.0 raises the
    version conflict whose message contains "not higher", and target 1.0.2
    passes the version checks, so that the call succeeds when the pending
    section is found and raises the structure error otherwise. *)
Theorem C1_conflict_detection Number_of_other now doc date :
  getFirstVersionHeader doc = Some (lit "1.0.1") ->
  (exists message,
     processChangelog Number_of_other now doc (lit "1.0.1") date = Throws message
     /\ starts_with (lit "Version conflict") message = true)
  /\ (exists message,
        processChangelog Number_of_other now doc (lit "1.0.0") date = Throws message
        /\ starts_with (lit "Version conflict") message = true
        /\ includes (lit "not higher") message = true)
  /\ processChangelog Number_of_other now doc (lit "1.0.2") date
     = rebuild now doc (lit "V1.0.2") date
  /\ match find_unreleased 0 doc with
     | Some _ =>
         exists updated,
           processChangelog Number_of_other now doc (lit "1.0.2") date
           = Returns updated
     | None =>
         processChangelog Number_of_other now doc (lit "1.0.2") date
         = Throws could_not_find
     end.
Proof.
  intros H. rewrite !processChangelog_checks, H.
  change (isHigherVersion Number_of_other (lit "1.0.1") (lit "1.0.1")) with false.
  change (isHigherVersion Number_of_other (lit "1.0.0") (lit "1.0.1")) with false.
  change (isHigherVersion Number_of_other (lit "1.0.2") (lit "1.0.1")) with true.
  cbv iota. repeat split.
  - eexists. split; [reflexivity|]. vm_compute. reflexivity.
  - eexists. split; [reflexivity|]. split; vm_compute; reflexivity.
  - rewrite rebuild_located.
    destruct (find_unreleased 0 doc) as [[index n]|]; [|done]. by eexists.
Qed.

Lemma C1_conflict_detection_witness :
  getFirstVersionHeader sampleChangelog = Some (lit "1.0.1")
  /\ exists updated,
       processChangelog nan_elsewhere a_clock sampleChangelog (lit "1.0.2")
         (Some (lit "2025-02-19")) = Returns updated.
Proof.
  assert (H : getFirstVersionHeader sampleChangelog = Some (lit "1.0.1"))
    by (vm_compute; reflexivity).
  split; [exact H|].
  destruct (C1_conflict_detection nan_elsewhere a_clock sampleChangelog
              (Some (lit "2025-02-19")) H) as (_ & _ & _ & Hok).
  destruct (find_unreleased 0 sampleChangelog) eqn:E; [exact Hok|].
  vm_compute in E. discriminate E.
Defined.

(** C2, as stated, fails: without the marker and with a target that is not
    higher than the located release, the version conflict is raised. *)
Lemma C2_counterexample :
  includes (lit "## [Unreleased]") released_only = false
  /\ processChangelog nan_elsewhere a_clock released_only (lit "1.0.0")
       (Some (lit "2025-02-19"))
     = Throws (lit "Version conflict: V1.0.0 is not higher than 1.0.1").
Proof. vm_compute. done. Qed.

Lemma rebuild_without_marker now doc newVersion date :
  includes (lit "## [Unreleased]") doc = false ->
  rebuild now doc newVersion date = Throws could_not_find.
Proof.
  intros H. rewrite rebuild_located, find_unreleased_None; [done|].
  intros a b ->.
  apply (includes_false _ _ H a (LF :: b)).
  change marker with (lit "## [Unreleased]" ++ [LF]).
  by rewrite <- !app_assoc.
Qed.

(** C2, amended: on a document without the marker every call raises an
    error; it is the structure error when no release header is located or
    the target is higher than the located version, and the version conflict
    otherwise. *)
Theorem C2_missing_marker Number_of_other now doc v date :
  includes (lit "## [Unreleased]") doc = false ->
  processChangelog Number_of_other now doc v date =
    match getFirstVersionHeader doc with
    | Some current =>
        if isHigherVersion Number_of_other v current
        then Throws could_not_find
        else Throws (not_higher (86 :: v) current)
    | None => Throws could_not_find
    end.
Proof.
  intros H. rewrite processChangelog_checks, rebuild_without_marker by done.
  reflexivity.
Qed.

Lemma C2_missing_marker_witness :
  includes (lit "## [Unreleased]") released_only = false
  /\ processChangelog nan_elsewhere a_clock released_only (lit "1.0.2") None
     = Throws could_not_find.
Proof.
  assert (H : includes (lit "## [Unreleased]") released_only = false)
    by (vm_compute; reflexivity).
  split; [exact H|].
  rewrite (C2_missing_marker nan_elsewhere a_clock released_only (lit "1.0.2")
             None H).
  vm_compute. reflexivity.
Defined.

(** * Determinism *)

(** C9, as stated, fails: with the date absent the output carries the date of
    the clock, and two calls on different days differ. *)
Lemma C9_counterexample :
  processChangelog nan_elsewhere a_clock sampleChangelog (lit "1.0.2") None
  <> processChangelog nan_elsewhere another_clock sampleChangelog (lit "1.0.2") None.
Proof. vm_compute. intros H. discriminate H. Qed.

Lemma date_string_given now1 now2 date :
  truthy date = true -> date_string now1 date = date_string now2 date.
Proof. intros H. unfold date_string. by rewrite H. Qed.

(** C9, amended: with the same document, target and a date that is given
    (not absent, not empty) two calls agree whatever the clock; with the
    date absent they agree when the clock shows the same day; and an error
    never depends on the clock. *)
Theorem C9_determinism Number_of_other now1 now2 doc v date :
  (truthy date = true \/ date_string now1 date = date_string now2 date ->
   processChangelog Number_of_other now1 doc v date
   = processChangelog Number_of_other now2 doc v date)
  /\ (forall message,
        processChangelog Number_of_other now1 doc v date = Throws message ->
        processChangelog Number_of_other now2 doc v date = Throws message).
Proof.
  rewrite !processChangelog_checks, !rebuild_located. split.
  - intros H.
    assert (E : date_string now1 date = date_string now2 date).
    { destruct H as [H|H]; [by apply date_string_given|done]. }
    by rewrite E.
  - intros message.
    destruct (getFirstVersionHeader doc) as [current|];
      [destruct (isHigherVersion _ _ _)|];
      destruct (find_unreleased 0 doc) as [[index n]|]; done.
Qed.

Lemma C9_determinism_witness :
  truthy (Some (lit "2025-02-19")) = true
  /\ processChangelog nan_elsewhere a_clock sampleChangelog (lit "1.0.2")
       (Some (lit "2025-02-19"))
     = processChangelog nan_elsewhere another_clock sampleChangelog (lit "1.0.2")
         (Some (lit "2025-02-19")).
Proof.
  split; [reflexivity|].
  refine (proj1 (C9_determinism nan_elsewhere a_clock another_clock
                   sampleChangelog (lit "1.0.2") (Some (lit "2025-02-19"))) _).
  left. reflexivity.
Defined.

(** * The rebuilt document *)

Lemma rebuild_Returns now doc newVersion date updated :
  rebuild now doc newVersion date = Returns updated ->
  exists pre body post,
    doc = pre ++ (marker ++ body) ++ post
    /\ starts_with top_level post = true
    /\ find_unreleased 0 doc = Some (length pre, length (marker ++ body))
    /\ updated =
         pre ++ newUnreleasedSection ++ [LF]
         ++ newReleaseSection newVersion (date_string now date)
              (extract_content (marker ++ body))
         ++ post.
Proof.
  rewrite rebuild_located.
  destruct (find_unreleased 0 doc) as [[index n]|] eqn:E; [|done].
  intros H. apply Returns_inj in H as <-. pose proof E as E'.
  apply find_unreleased_Some in E' as (pre & body & post & -> & -> & -> & Hp).
  exists pre, body, post. do 3 (split; [done|]).
  change (0 + length pre)%nat with (length pre).
  rewrite drop_app_add, !drop_app_length, !take_app_length. reflexivity.
Qed.

Lemma processChangelog_Returns Number_of_other now doc v date updated :
  processChangelog Number_of_other now doc v date = Returns updated ->
  rebuild now doc (86 :: v) date = Returns updated.
Proof.
  rewrite processChangelog_checks.
  destruct (getFirstVersionHeader doc) as [current|]; [|done].
  by destruct (isHigherVersion _ _ _).
Qed.

Lemma processChangelog_splice Number_of_other now doc v date updated :
  processChangelog Number_of_other now doc v date = Returns updated ->
  exists pre body post,
    doc = pre ++ (marker ++ body) ++ post
    /\ starts_with top_level post = true
    /\ find_unreleased 0 doc = Some (length pre, length (marker ++ body))
    /\ updated =
         pre ++ newUnreleasedSection ++ [LF]
         ++ newReleaseSection (86 :: v) (date_string now date)
              (extract_content (marker ++ body))
         ++ post.
Proof. intros H. by apply processChangelog_Returns, rebuild_Returns in H. Qed.

(** C3: on success the output is the text before the pending-section match,
    the reset pending section, a blank line, the new release section and the
    text after the captured span, which starts with the next top-level
    header; the text on either side of the span is unchanged. *)
Theorem C3_splicing_frame Number_of_other now doc v date updated :
  processChangelog Number_of_other now doc v date = Returns updated ->
  exists pre body post,
    doc = pre ++ (marker ++ body) ++ post
    /\ starts_with top_level post = true
    /\ find_unreleased 0 doc = Some (length pre, length (marker ++ body))
    /\ updated =
         pre ++ newUnreleasedSection ++ [LF]
         ++ newReleaseSection (86 :: v) (date_string now date)
              (extract_content (marker ++ body))
         ++ post.
Proof. apply processChangelog_splice. Qed.

Lemma sample_succeeds :
  exists updated,
    processChangelog nan_elsewhere a_clock sampleChangelog (lit "1.0.2")
      (Some (lit "2025-02-19")) = Returns updated.
Proof. eexists. vm_compute. reflexivity. Qed.

Lemma C3_splicing_frame_witness :
  exists updated pre body post,
    processChangelog nan_elsewhere a_clock sampleChangelog (lit "1.0.2")
      (Some (lit "2025-02-19")) = Returns updated
    /\ sampleChangelog = pre ++ (marker ++ body) ++ post
    /\ updated =
         pre ++ newUnreleasedSection ++ [LF]
         ++ newReleaseSection (lit "V1.0.2") (lit "2025-02-19")
              (extract_content (marker ++ body))
         ++ post.
Proof.
  destruct sample_succeeds as [updated H].
  destruct (C3_splicing_frame _ _ _ _ _ _ H) as (pre & body & post & E & _ & _ & E').
  exists updated, pre, body, post.
  split; [exact H|]. split; [exact E|exact E'].
Defined.

(** ** The two sections *)

Lemma newUnreleasedSection_text : newUnreleasedSection = reset_text.
Proof. vm_compute. reflexivity. Qed.

Lemma release_subsections content (cats : list (list N)) acc :
  foldl (fun section category => section ++ release_subsection content category)
    acc cats
  = acc ++ concat (map (fun c => subsection c (bullets_of content c))
                     (filter (fun c => bullets_of content c <> []) cats)).
Proof.
  revert acc; induction cats as [|c cats IH]; intros acc; simpl.
  - by rewrite app_nil_r.
  - rewrite IH, filter_cons. unfold release_subsection.
    destruct (decide (bullets_of content c <> [])) as [Hne|He].
    + assert (Ht : truthy (content !! c) = true).
      { unfold bullets_of in Hne. by destruct (content !! c) as [[|b bs]|]. }
      rewrite Ht. cbn [map concat]. unfold subsection at 2.
      rewrite <- !app_assoc. reflexivity.
    + assert (Ht : truthy (content !! c) = false).
      { unfold bullets_of in He. destruct (content !! c) as [[|b bs]|]; try done.
        by destruct He. }
      rewrite Ht. by rewrite app_nil_r.
Qed.

Lemma newReleaseSection_subsections newVersion dateStr content :
  newReleaseSection newVersion dateStr content
  = release_header newVersion dateStr
    ++ concat (map (fun c => subsection c (bullets_of content c))
                 (filter (fun c => bullets_of content c <> []) categories)).
Proof. apply release_subsections. Qed.

(** C4: on success the reset pending section is the marker line and the six
    category headers in the fixed order, each with an empty body, and the new
    release section is its header line followed by the subsections of the
    categories whose extracted bullets are not empty, in the fixed order, and
    of no other. *)
Theorem C4_sections Number_of_other now doc v date updated :
  processChangelog Number_of_other now doc v date = Returns updated ->
  exists pre body post,
    doc = pre ++ (marker ++ body) ++ post
    /\ updated =
         pre ++ reset_text ++ [LF]
         ++ (release_header (86 :: v) (date_string now date)
             ++ concat
                  (map (fun c =>
                          subsection c
                            (bullets_of (extract_content (marker ++ body)) c))
                     (filter
                        (fun c =>
                           bullets_of (extract_content (marker ++ body)) c <> [])
                        categories)))
         ++ post.
Proof.
  intros H. apply processChangelog_splice in H as (pre & body & post & ? & _ & _ & ->).
  exists pre, body, post. split; [done|].
  by rewrite newUnreleasedSection_text, newReleaseSection_subsections.
Qed.

Lemma C4_sections_witness :
  exists updated pre body post,
    processChangelog nan_elsewhere a_clock sampleChangelog (lit "1.0.2")
      (Some (lit "2025-02-19")) = Returns updated
    /\ sampleChangelog = pre ++ (marker ++ body) ++ post
    /\ updated =
         pre ++ reset_text ++ [LF]
         ++ (release_header (lit "V1.0.2") (lit "2025-02-19")
             ++ concat
                  (map (fun c =>
                          subsection c
                            (bullets_of (extract_content (marker ++ body)) c))
                     (filter
                        (fun c =>
                           bullets_of (extract_content (marker ++ body)) c <> [])
                        categories)))
         ++ post.
Proof.
  destruct sample_succeeds as [updated H].
  destruct (C4_sections _ _ _ _ _ _ H) as (pre & body & post & E & E').
  exists updated, pre, body, post.
  split; [exact H|]. split; [exact E|exact E'].
Defined.

(** The release section of the sample has the two subsections with bullets. *)
Example sample_release_section :
  newReleaseSection (lit "V1.0.2") (lit "2025-02-19")
    (extract_content (take 143 (drop 84 sampleChangelog)))
  = release_header (lit "V1.0.2") (lit "2025-02-19")
    ++ subsection (lit "Added") (lit "- add new user feature")
    ++ subsection (lit "Changed") (lit "- change rendering egine").
Proof. vm_compute. reflexivity. Qed.

(** * The line walk *)

Ltac class_bounds :=
  unfold is_word, is_space, is_digit, is_line_terminator in *;
  repeat match goal with
         | H : _ = false |- _ => apply not_true_iff_false in H
         | |- _ = false => apply not_true_iff_false; intros ?
         end;
  rewrite ?orb_true_iff, ?andb_true_iff, ?N.leb_le, ?N.eqb_eq in *;
  lia.

Lemma word_not_space c : is_word c = true -> is_space c = false.
Proof. intros H. class_bounds. Qed.

Lemma digit_not_space c : is_digit c = true -> is_space c = false.
Proof. intros H. class_bounds. Qed.

Lemma header_name_spec line name :
  header_name line = Some name
  <-> exists blanks rest,
        line = lit "###" ++ blanks ++ name ++ rest
        /\ forallb is_space blanks = true
        /\ (name <> [] /\ forallb is_word name = true)
        /\ stops is_word rest.
Proof.
  unfold header_name. split.
  - intros H. stages H. apply strip_prefix_spec in E as ->.
    destruct (drop_while_spec is_space l) as (blanks & E & Hb & _).
    apply span_spec in E0 as (Ew & Hw & Hr).
    destruct l0 as [|c w]; [done|]. injection H as <-.
    exists blanks, l1. rewrite E at 1. rewrite Ew. done.
  - intros (blanks & rest & -> & Hb & (Hne & Hw) & Hr).
    rewrite strip_prefix_app. simpl.
    destruct name as [|c name]; [done|].
    rewrite drop_while_app; [|done|].
    + rewrite span_app by done. done.
    + simpl in *. apply andb_true_iff in Hw as [Hc _]. by apply word_not_space.
Qed.

Lemma category_name_in c : category_name c ∈ categories.
Proof. destruct c; vm_compute; repeat constructor. Qed.

Lemma category_name_inj c1 c2 : category_name c1 = category_name c2 -> c1 = c2.
Proof. destruct c1, c2; intros H; try reflexivity; vm_compute in H; discriminate H. Qed.

Lemma categories_named name :
  name ∈ categories -> exists c, name = category_name c.
Proof.
  unfold categories. rewrite !elem_of_cons, elem_of_nil.
  intros [->|[->|[->|[->|[->|[->|[]]]]]]];
    [by exists Added|by exists Changed|by exists Deprecated|by exists Removed
    |by exists Fixed|by exists Security].
Qed.

(** C8, as stated, fails: a line with text after the category name is taken
    as the header of that category. *)
Lemma C8_counterexample :
  category_header (lit "### Added extra") = Some (lit "Added")
  /\ walk_line (None, empty_content) (lit "### Added extra")
     = (Some (lit "Added"), empty_content).
Proof. split; vm_compute; reflexivity. Qed.

(** C8, amended: a line is a category header exactly when it is [###],
    any blanks, one of the six names in its exact case, and then either
    nothing or text that starts with a unit outside [\w]; that text is
    ignored.  A name directly followed by word units is not recognized. *)
Theorem C8_category_header line name :
  category_header line = Some name
  <-> name ∈ categories
      /\ exists blanks rest,
           line = lit "###" ++ blanks ++ name ++ rest
           /\ forallb is_space blanks = true
           /\ stops is_word rest.
Proof.
  rewrite category_header_name. split.
  - destruct (header_name line) as [name'|] eqn:E; [|done].
    destruct (decide (name' ∈ categories)) as [Hin|Hout].
    + rewrite bool_decide_eq_true_2 by done. intros [= <-]. split; [done|].
      apply header_name_spec in E as (blanks & rest & ? & ? & _ & ?).
      by exists blanks, rest.
    + by rewrite bool_decide_eq_false_2.
  - intros (Hin & blanks & rest & E & Hb & Hr).
    assert (H : header_name line = Some name).
    { apply header_name_spec. exists blanks, rest. repeat split; try done.
      - apply categories_named in Hin as [c ->]. by destruct c.
      - apply categories_named in Hin as [c ->]. by destruct c. }
    rewrite H. by rewrite bool_decide_eq_true_2.
Qed.

Lemma C8_category_header_witness :
  category_header (lit "###" ++ lit "  " ++ lit "Fixed" ++ lit ": now")
  = Some (lit "Fixed").
Proof.
  apply C8_category_header. split.
  - vm_compute. repeat constructor.
  - exists (lit "  "), (lit ": now"). repeat split.
Defined.

Lemma forallb_rev (f : N -> bool) l : forallb f (rev l) = forallb f l.
Proof.
  induction l as [|c l IH]; [done|]. simpl.
  rewrite forallb_app, IH. simpl. rewrite andb_true_r. apply andb_comm.
Qed.

(** What [trim] removes and what it leaves. *)
Lemma trim_spec s :
  exists l r,
    s = l ++ trim s ++ r
    /\ forallb is_space l = true /\ forallb is_space r = true
    /\ stops is_space (trim s) /\ stops is_space (rev (trim s)).
Proof.
  unfold trim.
  destruct (drop_while_spec is_space s) as (l & E & Hl & Hs).
  destruct (drop_while_spec is_space (rev (drop_while is_space s)))
    as (r & E' & Hr & Hs').
  set (d := drop_while is_space s) in *.
  set (t := drop_while is_space (rev d)) in *.
  assert (Ed : d = rev t ++ rev r).
  { rewrite <- (rev_involutive d), E'. apply rev_app_distr. }
  exists l, (rev r). repeat split.
  - by rewrite <- Ed.
  - done.
  - by rewrite forallb_rev.
  - rewrite Ed in Hs. destruct (rev t); done.
  - by rewrite rev_involutive.
Qed.

Lemma category_name_truthy c : truthy (Some (category_name c)) = true.
Proof. by destruct c. Qed.

Lemma empty_content_lookup c : empty_content !! category_name c = Some [].
Proof. destruct c; vm_compute; reflexivity. Qed.

Lemma category_name_word c :
  category_name c <> [] /\ forallb is_word (category_name c) = true.
Proof. by destruct c. Qed.

(** The recognition of the machine is the header test of the code. *)
Lemma announces_header line c :
  announces line c <-> category_header line = Some (category_name c).
Proof.
  rewrite category_header_name. split.
  - intros (blanks & rest & E & Hb & Hr).
    assert (H : header_name line = Some (category_name c)).
    { apply header_name_spec. exists blanks, rest.
      do 2 (split; [done|]). split; [apply category_name_word|done]. }
    rewrite H, bool_decide_eq_true_2; [done|apply category_name_in].
  - destruct (header_name line) as [name|] eqn:E; [|done].
    destruct (bool_decide (name ∈ categories)); [|done]. intros [= ->].
    apply header_name_spec in E as (blanks & rest & E & Hb & _ & Hr).
    by exists blanks, rest.
Qed.

Lemma header_announced line name :
  category_header line = Some name ->
  exists c, name = category_name c /\ announces line c.
Proof.
  intros H. pose proof H as H'. rewrite category_header_name in H'.
  destruct (header_name line) as [name'|]; [|done].
  destruct (decide (name' ∈ categories)) as [Hin|Hout].
  - rewrite bool_decide_eq_true_2 in H' by done.
    assert (name' = name) by congruence. subst name'.
    apply categories_named in Hin as [c ->]. exists c. split; [done|].
    by apply announces_header.
  - by rewrite bool_decide_eq_false_2 in H'.
Qed.

Lemma none_announced line :
  category_header line = None <-> forall c, ~ announces line c.
Proof.
  split.
  - intros H c Ha. apply announces_header in Ha. congruence.
  - intros H. destruct (category_header line) as [name|] eqn:E; [|done].
    apply header_announced in E as (c & _ & Ha). by destruct (H c).
Qed.

Lemma machine_agrees sp lines sp' :
  machine sp lines sp' ->
  forall st, agrees st sp -> agrees (foldl walk_line st lines) sp'.
Proof.
  induction 1 as [sp|k buffers line c lines sp' Ha _ IH
                 |c buffers line lines sp' Hn _ IH
                 |buffers line lines sp' Hn _ IH];
    intros [cur content] [Hk Hb]; cbn [fst snd] in Hk, Hb.
  - done.
  - cbn [foldl]. apply IH. unfold walk_line.
    apply announces_header in Ha. rewrite Ha. by split.
  - cbn [foldl]. apply IH. unfold walk_line.
    rewrite (proj2 (none_announced line) Hn). subst cur.
    cbn [cursor_name]. rewrite category_name_truthy. split; [done|].
    intros c'. cbn [snd]. unfold append_to.
    destruct (decide (c' = c)) as [->|Hne].
    + by rewrite lookup_insert_eq, Hb.
    + rewrite lookup_insert_ne; [done|].
      intros H. by apply category_name_inj in H.
  - cbn [foldl]. apply IH. unfold walk_line.
    rewrite (proj2 (none_announced line) Hn). subst cur. by split.
Qed.

(** The machine reads every list of lines to the end. *)
Lemma machine_total lines sp : exists sp', machine sp lines sp'.
Proof.
  revert sp; induction lines as [|line lines IH]; intros [k buffers].
  - eexists. constructor.
  - destruct (category_header line) as [name|] eqn:E.
    + apply header_announced in E as (c & _ & Ha).
      destruct (IH (InCategory c, buffers)) as [sp' H].
      exists sp'. by apply machine_header with c.
    + pose proof (proj1 (none_announced line) E) as Hn. destruct k as [|c].
      * destruct (IH (NoCategory, buffers)) as [sp' H].
        exists sp'. by apply machine_drop.
      * destruct (IH (InCategory c, append_to buffers c (line ++ [LF]))) as [sp' H].
        exists sp'. by apply machine_append.
Qed.

(** The code cuts the block at its line feeds: the lines of a text are
    what [split] returns, and every text has lines. *)
Lemma split_on_join lines :
  lines <> [] -> Forall (fun line => LF ∉ line) lines ->
  split_on LF (join_lines lines) = lines.
Proof.
  induction lines as [|line lines IH]; [done|]. intros _ H.
  apply Forall_cons in H as [Hl H]. cbn [join_lines].
  destruct lines as [|line' lines]; [by apply split_on_one|].
  rewrite split_on_app, split_on_one by done. cbn [app]. f_equal. by apply IH.
Qed.

Lemma join_split_on block : join_lines (split_on LF block) = block.
Proof.
  induction block as [|c s IH]; [done|]. cbn [split_on].
  destruct (split_on_cons LF s) as (piece & pieces & E). rewrite E in IH |- *.
  destruct (N.eqb_spec c LF) as [->|Hc].
  - change (join_lines ([] :: piece :: pieces))
      with (LF :: join_lines (piece :: pieces)). by rewrite IH.
  - destruct pieces as [|piece' pieces]; cbn [join_lines app] in IH |- *;
      by rewrite IH.
Qed.

Lemma split_on_free block : Forall (fun line => LF ∉ line) (split_on LF block).
Proof.
  induction block as [|c s IH]; cbn [split_on].
  - constructor; [apply not_elem_of_nil|constructor].
  - destruct (N.eqb_spec c LF) as [->|Hc].
    + constructor; [apply not_elem_of_nil|done].
    + destruct (split_on LF s) as [|piece pieces]; [|apply Forall_cons in IH as [Hp IH]].
      * constructor; [|constructor]. apply not_elem_of_cons. split; [done|apply not_elem_of_nil].
      * constructor; [|done]. apply not_elem_of_cons. by split.
Qed.

(** The recognition of the specification. *)
Lemma spec_recognized_Some line c :
  spec_recognized line = Some c <-> line = lit "### " ++ category_name c.
Proof.
  split.
  - intros H. apply List.find_some in H as [_ H]. by apply bool_decide_eq_true in H.
  - intros ->. destruct c; vm_compute; reflexivity.
Qed.

Lemma exact_announces c : announces (lit "### " ++ category_name c) c.
Proof.
  exists [32], []. split; [by rewrite app_nil_r|done].
Qed.

(** Where the only lines that announce a category are the exact ones, the
    machine of the specification is the machine. *)
Lemma spec_machine_is_machine lines :
  (forall line c, line ∈ lines -> announces line c ->
                  line = lit "### " ++ category_name c) ->
  forall sp, machine sp lines (foldl spec_machine_step sp lines).
Proof.
  induction lines as [|line lines IH]; intros H [k buffers]; cbn [foldl].
  - constructor.
  - assert (H' : forall line' c, line' ∈ lines -> announces line' c ->
                                line' = lit "### " ++ category_name c).
    { intros line' c Hin. apply H, elem_of_cons. by right. }
    unfold spec_machine_step at 2. destruct (spec_recognized line) as [c|] eqn:E.
    + apply spec_recognized_Some in E as ->.
      apply machine_header with c; [apply exact_announces|by apply IH].
    + assert (Hn : forall c', ~ announces line c').
      { intros c' Ha. apply H in Ha; [|apply elem_of_cons; by left].
        apply spec_recognized_Some in Ha. congruence. }
      cbn [fst snd]. destruct k as [|c];
        [apply machine_drop|apply machine_append]; by try apply IH.
Qed.

(** C5, as stated, fails: the machine of the specification takes a line
    [### Added extra] as a line of the current category, the code takes it as
    the header of Added. *)
Lemma C5_counterexample :
  extract_content (join_lines name_with_text) !! category_name Fixed
  = Some (lit "- a")
  /\ trim (snd (spec_machine_run name_with_text) Fixed)
     = join_lines [lit "- a"; lit "### Added extra"; lit "- x"]
  /\ extract_content (join_lines name_with_text) !! category_name Fixed
     <> Some (trim (snd (spec_machine_run name_with_text) Fixed)).
Proof.
  split; [vm_compute; reflexivity|]. split; [vm_compute; reflexivity|].
  vm_compute. intros H. discriminate H.
Qed.

(** C5, amended: the code cuts the block at its line feeds and walks the
    lines as the state machine does, where a line announces a category when
    it is three hashes, blanks, one of the six names and then nothing or
    text that begins outside [\w].  From [NoCategory], such a line sets the
    cursor and is discarded, any other line is appended with its line feed
    to the buffer of the current category, or dropped before the first
    header; each buffer is then trimmed, which removes blanks at both ends
    only.  Where the only lines that announce a category are exactly
    [### <CategoryName>], this is the machine of the specification.  Every
    block is the text of such lines. *)
Theorem C5_line_walk lines c :
  lines <> [] ->
  Forall (fun line => LF ∉ line) lines ->
  (exists final, machine (NoCategory, fun _ => []) lines final)
  /\ (forall final,
        machine (NoCategory, fun _ => []) lines final ->
        extract_content (join_lines lines) !! category_name c
        = Some (trim (snd final c)))
  /\ ((forall line c', line ∈ lines -> announces line c' ->
                       line = lit "### " ++ category_name c') ->
      extract_content (join_lines lines) !! category_name c
      = Some (trim (snd (spec_machine_run lines) c)))
  /\ (forall block,
        exists lines',
          lines' <> [] /\ Forall (fun line => LF ∉ line) lines'
          /\ block = join_lines lines')
  /\ (forall buffer,
        exists l r,
          buffer = l ++ trim buffer ++ r
          /\ forallb is_space l = true /\ forallb is_space r = true
          /\ stops is_space (trim buffer) /\ stops is_space (rev (trim buffer))).
Proof.
  intros Hne Hfree.
  assert (Hstart : agrees (None, empty_content) (NoCategory, fun _ => [])).
  { split; [done|]. intros c'. apply empty_content_lookup. }
  assert (Hrun : forall final,
             machine (NoCategory, fun _ => []) lines final ->
             extract_content (join_lines lines) !! category_name c
             = Some (trim (snd final c))).
  { intros final Hm. unfold extract_content.
    rewrite lookup_fmap, split_on_join by done.
    destruct (machine_agrees _ _ _ Hm _ Hstart) as [_ H]. by rewrite H. }
  split; [apply machine_total|]. split; [done|]. split; [|split].
  - intros Hexact. apply Hrun. by apply spec_machine_is_machine.
  - intros block. exists (split_on LF block).
    destruct (split_on_cons LF block) as (piece & pieces & E).
    split; [by rewrite E|]. split; [apply split_on_free|].
    by rewrite join_split_on.
  - apply trim_spec.
Qed.

Lemma C5_line_walk_witness :
  exists final,
    machine (NoCategory, fun _ => []) name_with_text final
    /\ extract_content (join_lines name_with_text) !! category_name Fixed
       = Some (trim (snd final Fixed)).
Proof.
  assert (Hne : name_with_text <> []) by done.
  assert (Hfree : Forall (fun line => LF ∉ line) name_with_text).
  { apply (bool_decide_unpack _). vm_compute. exact I. }
  destruct (C5_line_walk name_with_text Fixed Hne Hfree) as ([final Hm] & Hrun & _).
  exists final. split; [exact Hm|exact (Hrun final Hm)].
Defined.

(** A block with text before the first header, two headers of one category
    and a blank line between bullets. *)
Example walk_example :
  extract_content
    (unlines [ lit "## [Unreleased]"; lit "dropped"; lit "### Fixed";
               lit "- one"; lit ""; lit "- two"; lit "### Other";
               lit "- three"; lit "### Fixed"; lit "- four"; lit "" ])
  !! lit "Fixed"
  = Some (unlines [ lit "- one"; lit ""; lit "- two"; lit "### Other";
                    lit "- three" ] ++ lit "- four").
Proof. vm_compute. reflexivity. Qed.

(** * The pending section at the end of the document *)

Lemma cons_eq_inv (a b : N) l k : a :: l = b :: k -> a = b /\ l = k.
Proof. intros H. by injection H. Qed.

Lemma header_line_from_spec prev s :
  header_line_from prev s = true <-> header_line_in prev s.
Proof.
  revert prev; induction s as [|c s IH]; intros prev; cbn [header_line_from].
  - rewrite orb_false_r, andb_true_iff. split.
    + intros [_ H]. done.
    + intros (a & c & b & E & _). exfalso.
      destruct a as [|x a]; [done|]. apply cons_eq_inv in E as [_ E].
      by destruct a.
  - rewrite orb_true_iff, andb_true_iff, IH, starts_with_spec. split.
    + intros [[Hp [r Hr]]|(a & c' & b & E & Hc)].
      * exists [], prev, r. by rewrite Hr.
      * exists (prev :: a), c', b. by rewrite E.
    + intros (a & c' & b & E & Hc). destruct a as [|x a].
      * apply cons_eq_inv in E as [-> E]. left. split; [done|]. by exists b.
      * apply cons_eq_inv in E as [-> E]. right. by exists a, c', b.
Qed.

Lemma lazy_to_header_None prev s :
  lazy_to_header prev s = None <-> ~ header_line_in prev s.
Proof.
  rewrite <- header_line_from_spec.
  revert prev; induction s as [|c s IH]; intros prev; cbn [lazy_to_header header_line_from].
  - rewrite orb_false_r.
    destruct (is_line_terminator prev && starts_with top_level []); split; done.
  - destruct (is_line_terminator prev && starts_with top_level (c :: s)); cbn [orb].
    + split; [done|]. intros H. by destruct H.
    + rewrite <- IH. destruct (lazy_to_header c s); split; done.
Qed.

Lemma pending_is_last_test_spec doc :
  pending_is_last_test doc = true -> pending_is_last doc.
Proof.
  induction doc as [|c doc IH]; cbn [pending_is_last_test]; intros H pre rest E.
  - by destruct pre.
  - apply andb_true_iff in H as [H1 H2]. destruct pre as [|x pre].
    + change ([] ++ marker ++ rest) with (marker ++ rest) in E.
      rewrite E, strip_prefix_app in H1.
      rewrite <- header_line_from_spec. by destruct (header_line_from LF rest).
    + apply cons_eq_inv in E as [-> E]. by apply (IH H2 pre rest).
Qed.

Lemma find_unreleased_last i doc :
  pending_is_last doc -> find_unreleased i doc = None.
Proof.
  revert i; induction doc as [|c doc IH]; intros i H; cbn [find_unreleased].
  - done.
  - assert (E : match_unreleased_here (c :: doc) = None).
    { unfold match_unreleased_here.
      destruct (strip_prefix marker (c :: doc)) as [rest|] eqn:E; [|done].
      apply strip_prefix_spec in E.
      assert (E' : lazy_to_header LF rest = None).
      { apply lazy_to_header_None. by apply (H [] rest). }
      simpl. by rewrite E'. }
    rewrite E. apply IH. intros pre rest ->. by apply (H (c :: pre) rest).
Qed.

(** C10, as stated, fails: the version checks come first, and a document
    whose pending section is the last one raises the version conflict when
    the target is not higher than the located release. *)
Lemma C10_counterexample :
  includes marker oldest_first = true
  /\ pending_is_last oldest_first
  /\ processChangelog nan_elsewhere a_clock oldest_first (lit "1.0.0")
       (Some (lit "2025-02-19"))
     = Throws (lit "Version conflict: V1.0.0 is not higher than 2.0.0").
Proof.
  split; [vm_compute; reflexivity|]. split.
  - apply pending_is_last_test_spec. vm_compute. reflexivity.
  - vm_compute. reflexivity.
Qed.

(** C10, amended: where no line after the marker line begins a top-level
    header, the capture fails and nothing is captured up to the end of the
    document: every call raises an error, which is the structure error of a
    missing marker when no release header is located or the target is higher
    than the located version, and the version conflict otherwise. *)
Theorem C10_pending_section_last Number_of_other now doc v date :
  pending_is_last doc ->
  processChangelog Number_of_other now doc v date =
    match getFirstVersionHeader doc with
    | Some current =>
        if isHigherVersion Number_of_other v current
        then Throws could_not_find
        else Throws (not_higher (86 :: v) current)
    | None => Throws could_not_find
    end.
Proof.
  intros H. rewrite processChangelog_checks, rebuild_located.
  by rewrite find_unreleased_last.
Qed.

Lemma C10_pending_section_last_witness :
  includes marker oldest_first = true
  /\ processChangelog nan_elsewhere a_clock oldest_first (lit "2.0.1") None
     = Throws could_not_find.
Proof.
  split; [vm_compute; reflexivity|].
  rewrite (C10_pending_section_last nan_elsewhere a_clock oldest_first
             (lit "2.0.1") None).
  - vm_compute. reflexivity.
  - apply pending_is_last_test_spec. vm_compute. reflexivity.
Defined.

(** * The version comparator *)

Lemma lt_number_rank x y :
  x <> S754_nan -> y <> S754_nan ->
  (lt_number x y = true <-> rank_lt (rank x) (rank y)).
Proof.
  intros Hx Hy. unfold lt_number, SFltb, SFcompare, rank_lt.
  destruct x as [sx|sx| |sx mx ex], y as [sy|sy| |sy my ey]; try done;
    try destruct sx; try destruct sy; simpl; try (split; [done|lia]);
    try (split; [lia|done]); try (split; intros; lia).
  - change (Pos.compare_cont Eq mx my) with (mx ?= my)%positive.
    destruct (Z.compare_spec ex ey), (Pos.compare_spec mx my); simpl;
      split; (done || lia).
  - change (Pos.compare_cont Eq mx my) with (mx ?= my)%positive.
    destruct (Z.compare_spec ex ey), (Pos.compare_spec mx my); simpl;
      split; (done || lia).
Qed.

Lemma lt_number_rank_false x y :
  x <> S754_nan -> y <> S754_nan ->
  (lt_number x y = false <-> ~ rank_lt (rank x) (rank y)).
Proof.
  intros Hx Hy. rewrite <- lt_number_rank by done.
  destruct (lt_number x y); split; done.
Qed.

Lemma or_zero_not_nan x : or_zero x <> S754_nan.
Proof. by destruct x as [[| | |]|]. Qed.

Lemma part_not_nan Number_of_other s i : part Number_of_other s i <> S754_nan.
Proof. apply or_zero_not_nan. Qed.

(** Turns statements on [lt_number] and [same] between values that are not
    [NaN] into linear arithmetic on their ranks. *)
Ltac by_rank :=
  unfold same in *;
  repeat match goal with
         | H : context [lt_number ?x ?y = true] |- _ =>
             rewrite (lt_number_rank x y) in H
               by (assumption || apply or_zero_not_nan || apply part_not_nan)
         | H : context [lt_number ?x ?y = false] |- _ =>
             rewrite (lt_number_rank_false x y) in H
               by (assumption || apply or_zero_not_nan || apply part_not_nan)
         | |- context [lt_number ?x ?y = true] =>
             rewrite (lt_number_rank x y)
               by (assumption || apply or_zero_not_nan || apply part_not_nan)
         | |- context [lt_number ?x ?y = false] =>
             rewrite (lt_number_rank_false x y)
               by (assumption || apply or_zero_not_nan || apply part_not_nan)
         end;
  unfold rank_lt in *;
  repeat match goal with
         | H : context [rank _] |- _ => revert H
         end;
  repeat match goal with
         | |- context [rank ?x] => generalize (rank x); intros [[? ?] ?]
         end;
  intros; simpl in *; lia.

Lemma lt_number_irrefl x : lt_number x x = false.
Proof.
  assert (Hd : x = S754_nan \/ x <> S754_nan)
    by (destruct x; (by left) || (by right)).
  destruct Hd as [->|Hx]; [done|]. by_rank.
Qed.

Lemma lt_number_trans x y z :
  x <> S754_nan -> y <> S754_nan -> z <> S754_nan ->
  lt_number x y = true -> lt_number y z = true -> lt_number x z = true.
Proof. intros Hx Hy Hz H1 H2. by_rank. Qed.

(** The loop returns [true] exactly when some part of the version is above
    that of the current version and the parts before it are level. *)
Lemma compare_parts_true vp cp i fuel :
  compare_parts vp cp i fuel = true
  <-> exists k,
        (i <= k < i + fuel)%nat
        /\ (forall j, (i <= j < k)%nat ->
                      same (or_zero (vp !! j)) (or_zero (cp !! j)))
        /\ lt_number (or_zero (cp !! k)) (or_zero (vp !! k)) = true.
Proof.
  revert i; induction fuel as [|fuel IH]; intros i; cbn [compare_parts].
  - split; [done|]. intros (k & Hk & _). lia.
  - destruct (lt_number (or_zero (cp !! i)) (or_zero (vp !! i))) eqn:Hcv.
    + split; [|done]. intros _. exists i. repeat split; [lia|lia|lia|lia|done].
    + destruct (lt_number (or_zero (vp !! i)) (or_zero (cp !! i))) eqn:Hvc.
      * split; [done|]. intros (k & Hk & Hsame & Hlt).
        destruct (decide (k = i)) as [->|Hne]; [congruence|].
        destruct (Hsame i) as [H _]; [lia|congruence].
      * rewrite IH. split; intros (k & Hk & Hsame & Hlt).
        -- exists k. split; [lia|]. split; [|done]. intros j Hj.
           destruct (decide (j = i)) as [->|Hne]; [done|]. apply Hsame. lia.
        -- destruct (decide (k = i)) as [->|Hne]; [congruence|].
           exists k. split; [lia|]. split; [|done]. intros j Hj. apply Hsame. lia.
Qed.

Lemma isHigherVersion_spec Number_of_other a b :
  isHigherVersion Number_of_other a b = true
  <-> exists k,
        (forall j, (j < k)%nat ->
                   same (part Number_of_other a j) (part Number_of_other b j))
        /\ lt_number (part Number_of_other b k) (part Number_of_other a k) = true.
Proof.
  unfold isHigherVersion. rewrite compare_parts_true. unfold part.
  set (vp := map (Number Number_of_other) (split_on 46 a)).
  set (cp := map (Number Number_of_other) (split_on 46 b)).
  split; intros (k & H).
  - destruct H as (Hk & Hsame & Hlt). exists k. split; [|done].
    intros j Hj. apply Hsame. lia.
  - destruct H as (Hsame & Hlt). exists k. split; [|split; [|done]].
    + split; [lia|]. simpl.
      destruct (decide (k < Nat.max (length vp) (length cp))%nat) as [|Hge]; [done|].
      rewrite (lookup_ge_None_2 vp k), (lookup_ge_None_2 cp k) in Hlt by lia.
      done.
    + intros j Hj. apply Hsame. lia.
Qed.

Lemma isHigherVersion_irrefl Number_of_other a :
  isHigherVersion Number_of_other a a = false.
Proof.
  apply not_true_iff_false. rewrite isHigherVersion_spec.
  intros (k & _ & H). by rewrite lt_number_irrefl in H.
Qed.

Lemma isHigherVersion_trans Number_of_other a b c :
  isHigherVersion Number_of_other a b = true ->
  isHigherVersion Number_of_other b c = true ->
  isHigherVersion Number_of_other a c = true.
Proof.
  rewrite !isHigherVersion_spec.
  intros (k1 & Hs1 & Hl1) (k2 & Hs2 & Hl2).
  destruct (lt_eq_lt_dec k1 k2) as [[Hlt|<-]|Hgt].
  - exists k1. split.
    + intros j Hj. pose proof (Hs1 j Hj). pose proof (Hs2 j ltac:(lia)). by_rank.
    + pose proof (Hs2 k1 Hlt). by_rank.
  - exists k1. split.
    + intros j Hj. pose proof (Hs1 j Hj). pose proof (Hs2 j Hj). by_rank.
    + by_rank.
  - exists k2. split.
    + intros j Hj. pose proof (Hs1 j ltac:(lia)). pose proof (Hs2 j Hj). by_rank.
    + pose proof (Hs1 k2 Hgt). by_rank.
Qed.

(** ** The Number of an integer below 2^53 is the integer *)

Lemma digits2_iter_xO p k :
  digits2_pos (Pos.iter xO p k) = (digits2_pos p + k)%positive.
Proof.
  induction k as [|k IH] using Pos.peano_ind.
  - simpl. lia.
  - rewrite Pos.iter_succ. simpl. rewrite IH. lia.
Qed.

Lemma iter_xO_value p k :
  Z.pos (Pos.iter xO p k) = (Z.pos p * 2 ^ Z.pos k)%Z.
Proof.
  induction k as [|k IH] using Pos.peano_ind.
  - simpl. lia.
  - rewrite Pos.iter_succ, Pos2Z.inj_xO, IH, Pos2Z.inj_succ, Z.pow_succ_r by lia.
    lia.
Qed.

Lemma round_canonical m e :
  Z.pos (digits2_pos m) = 53%Z -> (-1074 <= e <= 971)%Z ->
  binary_round_aux prec emax false (Z.pos m) e loc_Exact = S754_finite false m e.
Proof.
  intros Hm He.
  assert (Hf : (fexp prec emax (Zdigits2 (Z.pos m) + e) - e = 0)%Z).
  { unfold fexp, emin, prec, emax. simpl Zdigits2. lia. }
  unfold binary_round_aux, shr_fexp. rewrite Hf. cbn [shr shr_record_of_loc].
  cbn [shr_m loc_of_shr_record round_nearest_even]. rewrite Hf. cbn [shr shr_record_of_loc shr_m].
  unfold emax, prec. destruct (Z.leb_spec e (1024 - 53)); [done|lia].
Qed.

Lemma Number_of_small p :
  (Z.pos (digits2_pos p) <= 53)%Z ->
  binary_normalize prec emax (Z.pos p) 0 false
  = S754_finite false
      (Z.to_pos (Z.pos p * 2 ^ (53 - Z.pos (digits2_pos p))))
      (Z.pos (digits2_pos p) - 53).
Proof.
  intros Hd. cbn [binary_normalize]. unfold binary_round.
  assert (Hf : fexp prec emax (Z.pos (digits2_pos p) + 0) = (Z.pos (digits2_pos p) - 53)%Z).
  { unfold fexp, emin, prec, emax. lia. }
  rewrite Hf. unfold shl_align.
  destruct (Z.pos (digits2_pos p) - 53 - 0)%Z as [|q|q] eqn:Eq; [|lia|].
  - assert (Z.pos (digits2_pos p) = 53%Z) as E by lia. rewrite E. simpl Z.sub.
    rewrite Z.mul_1_r. simpl Z.to_pos. rewrite round_canonical; [done|done|lia]. 
  - assert (Hq : Z.pos q = (53 - Z.pos (digits2_pos p))%Z) by lia.
    rewrite round_canonical.
    + f_equal. rewrite <- Hq, <- iter_xO_value. done.
    + rewrite digits2_iter_xO. lia.
    + lia.
Qed.

Lemma digits2_bounds p :
  (2 ^ (Z.pos (digits2_pos p) - 1) <= Z.pos p < 2 ^ Z.pos (digits2_pos p))%Z.
Proof.
  induction p as [p IH|p IH|]; cbn [digits2_pos].
  - rewrite Pos2Z.inj_succ.
    replace (Z.succ (Z.pos (digits2_pos p)) - 1)%Z
      with (Z.succ (Z.pos (digits2_pos p) - 1)) by lia.
    rewrite !Z.pow_succ_r by lia. lia.
  - rewrite Pos2Z.inj_succ.
    replace (Z.succ (Z.pos (digits2_pos p)) - 1)%Z
      with (Z.succ (Z.pos (digits2_pos p) - 1)) by lia.
    rewrite !Z.pow_succ_r by lia. lia.
  - simpl. lia.
Qed.

Lemma digits2_small p : (Z.pos p < 2 ^ 53)%Z -> (Z.pos (digits2_pos p) <= 53)%Z.
Proof.
  intros H. pose proof (digits2_bounds p) as [Hl _].
  destruct (Z.le_gt_cases (Z.pos (digits2_pos p)) 53) as [|Hgt]; [done|].
  assert (2 ^ 53 <= 2 ^ (Z.pos (digits2_pos p) - 1))%Z
    by (apply Z.pow_le_mono_r; lia).
  lia.
Qed.

Lemma lt_small p q :
  (Z.pos p < 2 ^ 53)%Z -> (Z.pos q < 2 ^ 53)%Z ->
  (lt_number (Number_of_N (N.pos p)) (Number_of_N (N.pos q)) = true
   <-> (Z.pos p < Z.pos q)%Z).
Proof.
  intros Hp Hq. unfold Number_of_N. cbn [Z.of_N].
  pose proof (digits2_small p Hp) as Hdp. pose proof (digits2_small q Hq) as Hdq.
  rewrite !Number_of_small by done.
  rewrite lt_number_rank by done. unfold rank_lt. cbn [rank fst snd].
  pose proof (digits2_bounds p) as [Hp1 Hp2].
  pose proof (digits2_bounds q) as [Hq1 Hq2].
  set (dp := Z.pos (digits2_pos p)) in *. set (dq := Z.pos (digits2_pos q)) in *.
  assert (Hpow : forall k, (0 <= k -> 0 < 2 ^ k)%Z)
    by (intros; apply Z.pow_pos_nonneg; lia).
  rewrite !Z2Pos.id by (apply Z.mul_pos_pos; [lia|apply Hpow; lia]).
  destruct (Z.lt_total dp dq) as [Hlt|[Heq|Hgt]].
  - assert (2 ^ dp <= 2 ^ (dq - 1))%Z by (apply Z.pow_le_mono_r; lia). lia.
  - rewrite Heq. pose proof (Hpow (53 - dq)%Z ltac:(lia)). nia.
  - assert (2 ^ dq <= 2 ^ (dp - 1))%Z by (apply Z.pow_le_mono_r; lia). lia.
Qed.

Lemma lt_Number_of_N x y :
  x < 2 ^ 53 -> y < 2 ^ 53 ->
  lt_number (Number_of_N x) (Number_of_N y) = (x <? y).
Proof.
  intros Hx Hy.
  destruct x as [|p], y as [|q]; try done.
  - unfold Number_of_N. cbn [Z.of_N].
    rewrite Number_of_small by (apply digits2_small; lia). done.
  - unfold Number_of_N at 2. cbn [Z.of_N binary_normalize].
    unfold Number_of_N. cbn [Z.of_N].
    rewrite Number_of_small by (apply digits2_small; lia). done.
  - destruct (N.ltb_spec (N.pos p) (N.pos q)) as [H|H].
    + apply lt_small; lia.
    + apply not_true_iff_false. rewrite lt_small by lia. lia.
Qed.

Lemma or_zero_Number_of_N x :
  x < 2 ^ 53 -> or_zero (Some (Number_of_N x)) = Number_of_N x.
Proof.
  intros Hx. destruct x as [|p]; [done|].
  unfold Number_of_N. cbn [Z.of_N].
  rewrite Number_of_small by (apply digits2_small; lia). done.
Qed.

Lemma lookup_map {A B} (f : A -> B) (l : list A) i :
  map f l !! i = option_map f (l !! i).
Proof.
  revert i; induction l as [|x l IH]; intros [|i]; try done. apply IH.
Qed.

(** On a version with parts below 2^53 the loop reads the integers. *)
Lemma part_safe Number_of_other s i :
  safe_version s = true ->
  part Number_of_other s i = Number_of_N (segment s i) /\ segment s i < 2 ^ 53.
Proof.
  unfold safe_version, part, segment, segments.
  generalize (split_on 46 s). intros segs. revert i.
  induction segs as [|seg segs IH]; intros i H.
  - destruct i; done.
  - cbn [forallb] in H. apply andb_true_iff in H as [H1 H2].
    apply andb_true_iff in H1 as [Hd Hv]. apply N.ltb_lt in Hv.
    destruct i as [|i]; [|by apply IH].
    cbn [map lookup list_lookup nth]. unfold Number. rewrite Hd.
    split; [|done]. by apply or_zero_Number_of_N.
Qed.

Lemma isHigherVersion_safe Number_of_other a b :
  safe_version a = true -> safe_version b = true ->
  (isHigherVersion Number_of_other a b = true <-> higher_by_segments a b).
Proof.
  intros Ha Hb. rewrite isHigherVersion_spec. unfold higher_by_segments, same.
  assert (Hlt : forall i j,
             lt_number (part Number_of_other a i) (part Number_of_other b j)
             = (segment a i <? segment b j)).
  { intros i j. destruct (part_safe Number_of_other a i Ha) as [-> ?].
    destruct (part_safe Number_of_other b j Hb) as [-> ?].
    by apply lt_Number_of_N. }
  assert (Hgt : forall i j,
             lt_number (part Number_of_other b j) (part Number_of_other a i)
             = (segment b j <? segment a i)).
  { intros i j. destruct (part_safe Number_of_other a i Ha) as [-> ?].
    destruct (part_safe Number_of_other b j Hb) as [-> ?].
    by apply lt_Number_of_N. }
  split; intros (k & Hs & Hk); exists k.
  - rewrite Hgt in Hk. apply N.ltb_lt in Hk. split; [|done].
    intros j Hj. destruct (Hs j Hj) as [H1 H2]. rewrite Hlt in H1.
    rewrite Hgt in H2. apply N.ltb_ge in H1, H2. lia.
  - rewrite Hgt. split; [|by apply N.ltb_lt].
    intros j Hj. rewrite Hlt, Hgt, (Hs j Hj). split; apply N.ltb_irrefl.
Qed.

Lemma first_difference (f g : nat -> N) n :
  (forall j, (j < n)%nat -> f j = g j)
  \/ exists k, (k < n)%nat /\ (forall j, (j < k)%nat -> f j = g j) /\ f k <> g k.
Proof.
  induction n as [|n [IH|(k & Hk & Hs & Hd)]].
  - left. intros j Hj. lia.
  - destruct (decide (f n = g n)) as [E|Hne].
    + left. intros j Hj. destruct (decide (j = n)) as [->|]; [done|].
      apply IH. lia.
    + right. exists n. split; [lia|]. split; [|done]. done.
  - right. exists k. split; [lia|]. done.
Qed.

Lemma segment_beyond s i : (length (segments s) <= i)%nat -> segment s i = 0.
Proof. intros H. unfold segment. by apply nth_overflow. Qed.

(** The integer sequences of two versions are ordered one way, the other
    way, or level. *)
Lemma segments_trichotomy a b :
  (higher_by_segments a b \/ higher_by_segments b a \/ equal_by_segments a b)
  /\ ~ (higher_by_segments a b /\ higher_by_segments b a)
  /\ ~ (higher_by_segments a b /\ equal_by_segments a b)
  /\ ~ (higher_by_segments b a /\ equal_by_segments a b).
Proof.
  unfold higher_by_segments, equal_by_segments. repeat split.
  - set (n := Nat.max (length (segments a)) (length (segments b))).
    destruct (first_difference (segment a) (segment b) n)
      as [Heq|(k & Hk & Hs & Hd)].
    + right. right. intros i.
      destruct (decide (i < n)%nat) as [Hi|Hi]; [by apply Heq|].
      rewrite !segment_beyond by lia. done.
    + destruct (N.lt_total (segment a k) (segment b k)) as [Hlt|[E|Hgt]];
        [|done|].
      * right. left. exists k. split; [|done]. intros j Hj. by rewrite Hs.
      * left. by exists k.
  - intros [(k1 & Hs1 & Hl1) (k2 & Hs2 & Hl2)].
    destruct (lt_eq_lt_dec k1 k2) as [[Hlt| ->]|Hgt].
    + rewrite (Hs2 k1 Hlt) in Hl1. lia.
    + lia.
    + rewrite (Hs1 k2 Hgt) in Hl2. lia.
  - intros [(k & _ & Hl) Heq]. rewrite Heq in Hl. lia.
  - intros [(k & _ & Hl) Heq]. rewrite Heq in Hl. lia.
Qed.

(** C6, as stated, fails: 2^53 + 1 is not a Number; it is read as 2^53, and
    of two versions that differ there neither is higher than the other. *)
Lemma C6_counterexample :
  isHigherVersion nan_elsewhere (lit "9007199254740993") (lit "9007199254740992")
  = false
  /\ isHigherVersion nan_elsewhere (lit "9007199254740992") (lit "9007199254740993")
     = false
  /\ segments (lit "9007199254740993") <> segments (lit "9007199254740992").
Proof. vm_compute. repeat split. intros H. discriminate H. Qed.

(** C6, amended: [isHigherVersion(a, a)] is false for every string and
    [isHigherVersion] is transitive on all strings; the two examples hold;
    and on dotted-numeric versions whose parts are below 2^53
    [isHigherVersion] is the strict order of the integer sequences read from
    the left with a missing part as 0, so that exactly one of
    [isHigherVersion(a, b)], [isHigherVersion(b, a)] and the equality of the
    sequences holds. *)
Theorem C6_version_order Number_of_other :
  (forall a, isHigherVersion Number_of_other a a = false)
  /\ (forall a b c,
        isHigherVersion Number_of_other a b = true ->
        isHigherVersion Number_of_other b c = true ->
        isHigherVersion Number_of_other a c = true)
  /\ isHigherVersion Number_of_other (lit "1.2.0") (lit "1.1.9") = true
  /\ isHigherVersion Number_of_other (lit "1.0") (lit "1.0.0") = false
  /\ (forall a b,
        safe_version a = true -> safe_version b = true ->
        (isHigherVersion Number_of_other a b = true <-> higher_by_segments a b)
        /\ (isHigherVersion Number_of_other a b = true
            \/ isHigherVersion Number_of_other b a = true
            \/ equal_by_segments a b)
        /\ ~ (isHigherVersion Number_of_other a b = true
              /\ isHigherVersion Number_of_other b a = true)
        /\ ~ (isHigherVersion Number_of_other a b = true
              /\ equal_by_segments a b)
        /\ ~ (isHigherVersion Number_of_other b a = true
              /\ equal_by_segments a b)).
Proof.
  split; [apply isHigherVersion_irrefl|].
  split; [apply isHigherVersion_trans|].
  split; [reflexivity|]. split; [reflexivity|].
  intros a b Ha Hb.
  rewrite (isHigherVersion_safe Number_of_other a b Ha Hb).
  rewrite (isHigherVersion_safe Number_of_other b a Hb Ha).
  split; [done|]. apply segments_trichotomy.
Qed.

Lemma C6_version_order_witness :
  safe_version (lit "2.10.0") = true /\ safe_version (lit "2.9") = true
  /\ isHigherVersion nan_elsewhere (lit "2.10.0") (lit "2.9") = true
  /\ higher_by_segments (lit "2.10.0") (lit "2.9").
Proof.
  destruct (C6_version_order nan_elsewhere) as (_ & _ & _ & _ & H).
  destruct (H (lit "2.10.0") (lit "2.9") eq_refl eq_refl) as (Hiff & _).
  assert (E : isHigherVersion nan_elsewhere (lit "2.10.0") (lit "2.9") = true)
    by (vm_compute; reflexivity).
  split; [reflexivity|]. split; [reflexivity|]. split; [exact E|].
  apply Hiff. exact E.
Defined.

(** * The second run on the output of the first *)

(** ** A hash stops the header match

    After its two hashes the header expression accepts no hash: on a text
    that continues with one, the match succeeds or fails before it. *)

Lemma span_barrier f y T :
  f 35 = false ->
  span f (y ++ 35 :: T) = ((span f y).1, (span f y).2 ++ 35 :: T).
Proof.
  intros Hf. induction y as [|c y IH]; simpl.
  - by rewrite Hf.
  - destruct (f c); [|done]. rewrite IH. by destruct (span f y).
Qed.

Lemma drop_while_barrier f y T :
  f 35 = false -> drop_while f (y ++ 35 :: T) = drop_while f y ++ 35 :: T.
Proof. intros Hf. unfold drop_while. by rewrite span_barrier. Qed.

Lemma expect_barrier c y T :
  c <> 35 -> expect c (y ++ 35 :: T) = (fun y' => y' ++ 35 :: T) <$> expect c y.
Proof.
  intros Hc. destruct y as [|b y]; cbn [app expect optional].
  - destruct (N.eqb_spec 35 c); [congruence|done].
  - by destruct (b =? c).
Qed.

Lemma optional_barrier c y T :
  c <> 35 -> optional c (y ++ 35 :: T) = optional c y ++ 35 :: T.
Proof.
  intros Hc. destruct y as [|b y]; cbn [app expect optional].
  - destruct (N.eqb_spec 35 c); [congruence|done].
  - by destruct (b =? c).
Qed.

Lemma digits1_barrier y T :
  digits1 (y ++ 35 :: T) = (fun p => (p.1, p.2 ++ 35 :: T)) <$> digits1 y.
Proof.
  unfold digits1. rewrite span_barrier by done.
  destruct (span is_digit y) as [[|d ds] rest]; done.
Qed.

Lemma digits_exactly_barrier n y T :
  digits_exactly n (y ++ 35 :: T)
  = (fun y' => y' ++ 35 :: T) <$> digits_exactly n y.
Proof.
  revert y; induction n as [|n IH]; intros y; [done|].
  destruct y as [|c y]; simpl; [done|]. destruct (is_digit c); [apply IH|done].
Qed.

Lemma match_date_barrier y T :
  match_date (y ++ 35 :: T) = (fun y' => y' ++ 35 :: T) <$> match_date y.
Proof.
  unfold match_date. rewrite digits_exactly_barrier.
  destruct (digits_exactly 4 y) as [y1|]; [|done]. cbn [fmap option_fmap option_map mbind option_bind].
  rewrite expect_barrier by done.
  destruct (expect 45 y1) as [y2|]; [|done]. cbn [fmap option_fmap option_map mbind option_bind].
  rewrite digits_exactly_barrier.
  destruct (digits_exactly 2 y2) as [y3|]; [|done]. cbn [fmap option_fmap option_map mbind option_bind].
  rewrite expect_barrier by done.
  destruct (expect 45 y3) as [y4|]; [|done]. cbn [fmap option_fmap option_map mbind option_bind].
  apply digits_exactly_barrier.
Qed.

Lemma match_after_hashes_barrier y T :
  match_after_hashes (y ++ 35 :: T) = match_after_hashes y.
Proof.
  unfold match_after_hashes.
  rewrite drop_while_barrier, expect_barrier by done.
  unfold mbind, option_bind.
  destruct (expect 91 (drop_while is_space y)) as [y1|]; [|done].
  cbn [fmap option_fmap option_map].
  rewrite optional_barrier, digits1_barrier by done.
  destruct (digits1 (optional 86 y1)) as [[major y2]|]; [|done].
  cbn [fmap option_fmap option_map fst snd].
  rewrite expect_barrier by done.
  destruct (expect 46 y2) as [y3|]; [|done].
  cbn [fmap option_fmap option_map]. rewrite digits1_barrier.
  destruct (digits1 y3) as [[minor y4]|]; [|done].
  cbn [fmap option_fmap option_map fst snd].
  rewrite expect_barrier by done.
  destruct (expect 46 y4) as [y5|]; [|done].
  cbn [fmap option_fmap option_map]. rewrite digits1_barrier.
  destruct (digits1 y5) as [[patch y6]|]; [|done].
  cbn [fmap option_fmap option_map fst snd].
  rewrite expect_barrier by done.
  destruct (expect 93 y6) as [y7|]; [|done].
  cbn [fmap option_fmap option_map].
  rewrite drop_while_barrier, expect_barrier by done.
  destruct (expect 45 (drop_while is_space y7)) as [y8|]; [|done].
  cbn [fmap option_fmap option_map].
  rewrite drop_while_barrier, match_date_barrier by done.
  by destruct (match_date (drop_while is_space y8)).
Qed.

(** The match on a text that reaches the marker ends before the marker. *)
Lemma match_header_here_marker y X :
  match_header_here (y ++ marker ++ X) = match_header_here (y ++ [35]).
Proof.
  unfold match_header_here, marker. change (lit "##") with [35; 35].
  destruct y as [|c1 [|c2 y]]; cbn [app strip_prefix].
  - reflexivity.
  - destruct (35 =? c1); [|done]. change (35 =? 35) with true.
    cbn [mbind option_bind]. apply (match_after_hashes_barrier []).
  - destruct (35 =? c1); [|done]. destruct (35 =? c2); [|done].
    cbn [mbind option_bind].
    rewrite (match_after_hashes_barrier y []). apply match_after_hashes_barrier.
Qed.

Lemma find_header_marker bol pre X :
  find_header bol (pre ++ marker ++ X) =
    match find_header_before bol pre with
    | Some version => Some version
    | None => find_header (bol_after bol pre) (marker ++ X)
    end.
Proof.
  revert bol; induction pre as [|c pre IH]; intros bol; [done|].
  change ((c :: pre) ++ marker ++ X) with (c :: (pre ++ marker ++ X)).
  cbn [find_header find_header_before bol_after].
  change (c :: (pre ++ marker ++ X)) with ((c :: pre) ++ marker ++ X).
  rewrite match_header_here_marker.
  destruct (if bol then match_header_here ((c :: pre) ++ [35]) else None);
    [done|apply IH].
Qed.

(** No header match starts in the reset pending section. *)
Lemma find_header_reset bol rest :
  find_header bol (reset_text ++ LF :: rest) = find_header true rest.
Proof. destruct bol; reflexivity. Qed.

Lemma digits_exactly_app n d r t :
  digits_exactly n d = Some r -> digits_exactly n (d ++ t) = Some (r ++ t).
Proof.
  revert d; induction n as [|n IH]; intros d; simpl.
  - by intros [= ->].
  - destruct d as [|c d]; [done|]. simpl. destruct (is_digit c); [apply IH|done].
Qed.

Lemma expect_app c d r t : expect c d = Some r -> expect c (d ++ t) = Some (r ++ t).
Proof. intros H. apply expect_spec in H as ->. simpl. by rewrite N.eqb_refl. Qed.

Lemma match_date_app d r t :
  match_date d = Some r -> match_date (d ++ t) = Some (r ++ t).
Proof.
  unfold match_date. intros H. stages H.
  rewrite (digits_exactly_app _ _ _ t E). cbn [mbind option_bind].
  rewrite (expect_app _ _ _ t E0). cbn [mbind option_bind].
  rewrite (digits_exactly_app _ _ _ t E1). cbn [mbind option_bind].
  rewrite (expect_app _ _ _ t E2). cbn [mbind option_bind].
  by apply digits_exactly_app.
Qed.

Lemma dated_head d : dated d = true -> exists c r, d = c :: r /\ is_digit c = true.
Proof.
  unfold dated, match_date. destruct d as [|c r]; [done|].
  cbn [digits_exactly]. destruct (is_digit c) eqn:Hc; [|done]. by exists c, r.
Qed.

Lemma digits1_app ds rest :
  ds <> [] -> forallb is_digit ds = true -> stops is_digit rest ->
  digits1 (ds ++ rest) = Some (ds, rest).
Proof. intros. by apply digits1_spec. Qed.

Lemma drop_while_cons f c s :
  f c = true -> drop_while f (c :: s) = drop_while f s.
Proof. intros H. unfold drop_while. simpl. rewrite H. by destruct (span f s). Qed.

(** The header line of the first run is a header match when the version is
    a triple and the date a date. *)
Lemma match_header_here_release v d t :
  is_triple v -> dated d = true ->
  match_header_here (release_header (86 :: v) d ++ t) = Some v.
Proof.
  intros (major & minor & patch & -> & (? & ?) & (? & ?) & (? & ?)) Hd.
  destruct (dated_head d Hd) as (c & r & -> & Hc).
  unfold dated in Hd. destruct (match_date (c :: r)) as [r'|] eqn:Er; [|done].
  unfold release_header, match_header_here, match_after_hashes.
  change (lit "## [") with ([35; 35; 32; 91]).
  change (lit "] - ") with ([93; 32; 45; 32]).
  change (lit "##") with ([35; 35]).
  repeat (rewrite <- app_assoc; cbn [app]).
  cbn [strip_prefix N.eqb Pos.eqb mbind option_bind].
  rewrite drop_while_cons, drop_while_stops by done.
  cbn [expect N.eqb Pos.eqb optional mbind option_bind].
  rewrite digits1_app by done. cbn [expect N.eqb Pos.eqb mbind option_bind].
  rewrite digits1_app by done. cbn [expect N.eqb Pos.eqb mbind option_bind].
  rewrite digits1_app by done. cbn [expect N.eqb Pos.eqb mbind option_bind].
  rewrite drop_while_cons, drop_while_stops by done.
  cbn [expect N.eqb Pos.eqb mbind option_bind].
  rewrite drop_while_cons by done.
  rewrite drop_while_stops by (by apply digit_not_space).
  change (c :: r ++ LF :: LF :: t) with ((c :: r) ++ LF :: LF :: t).
  rewrite (match_date_app _ _ _ Er). done.
Qed.

(** ** Where the second run finds the pending section *)

(** The match is the first one: the expression fails at every place before. *)
Lemma find_unreleased_first i pre s n :
  find_unreleased i (pre ++ s) = Some ((i + length pre)%nat, n) ->
  match_unreleased_here s = Some n
  /\ forall k, (k < length pre)%nat ->
               match_unreleased_here (drop k pre ++ s) = None.
Proof.
  revert i; induction pre as [|c pre IH]; intros i.
  - cbn [app length]. rewrite Nat.add_0_r. intros H. split; [|intros k Hk; simpl in Hk; lia].
    destruct s as [|c s]; cbn [find_unreleased] in H.
    + by destruct (match_unreleased_here []) as [n'|]; [injection H as ->|].
    + destruct (match_unreleased_here (c :: s)) as [n'|]; [by injection H as ->|].
      apply find_unreleased_ge in H. lia.
  - change ((c :: pre) ++ s) with (c :: (pre ++ s)). cbn [find_unreleased length].
    destruct (match_unreleased_here (c :: pre ++ s)) as [n'|] eqn:E.
    + intros [= H _]. lia.
    + replace (i + S (length pre))%nat with (S i + length pre)%nat by lia.
      intros H. apply IH in H as [H1 H2]. split; [done|].
      intros [|k] Hk; [done|]. apply H2. lia.
Qed.

Lemma find_unreleased_skip i pre s :
  (forall k, (k < length pre)%nat ->
             match_unreleased_here (drop k pre ++ s) = None) ->
  find_unreleased i (pre ++ s) = find_unreleased (i + length pre) s.
Proof.
  revert i; induction pre as [|c pre IH]; intros i H.
  - cbn [app length]. by rewrite Nat.add_0_r.
  - change ((c :: pre) ++ s) with (c :: (pre ++ s)). cbn [find_unreleased length].
    change (match_unreleased_here (c :: pre ++ s))
      with (match_unreleased_here (drop 0 (c :: pre) ++ s)).
    rewrite (H 0%nat) by (simpl; lia).
    replace (i + S (length pre))%nat with (S i + length pre)%nat by lia.
    apply IH. intros k Hk. apply (H (S k)). simpl. lia.
Qed.

Lemma strip_prefix_take p s :
  strip_prefix p s = None <-> take (length p) s <> p.
Proof.
  destruct (strip_prefix p s) as [r|] eqn:E.
  - apply strip_prefix_spec in E as ->. rewrite take_app_length. split; done.
  - split; [|done]. intros _ H. assert (E' : strip_prefix p s = Some (drop (length p) s)).
    { apply strip_prefix_spec. by rewrite <- H at 1; rewrite take_drop. }
    congruence.
Qed.

Lemma strip_prefix_later p y X1 X2 :
  strip_prefix p (y ++ p ++ X1) = None -> strip_prefix p (y ++ p ++ X2) = None.
Proof.
  rewrite !strip_prefix_take, !app_assoc.
  rewrite (take_app_le (y ++ p) X1), (take_app_le (y ++ p) X2)
    by (rewrite length_app; lia).
  done.
Qed.

(** A header line further on is found from any earlier place. *)
Lemma lazy_to_header_later prev s1 c s2 k :
  lazy_to_header c s2 = Some k ->
  exists k', lazy_to_header prev (s1 ++ c :: s2) = Some k'.
Proof.
  intros H. revert prev; induction s1 as [|x s1 IH]; intros prev;
    cbn [app lazy_to_header].
  - destruct (is_line_terminator prev && starts_with top_level (c :: s2));
      [by eexists|]. rewrite H. by eexists.
  - destruct (is_line_terminator prev && starts_with top_level (x :: s1 ++ c :: s2));
      [by eexists|]. destruct (IH x) as [k' ->]. by eexists.
Qed.

(** Before the place of the match the text does not read as the marker. *)
Lemma marker_not_before y X n :
  y <> [] ->
  match_unreleased_here (marker ++ X) = Some n ->
  match_unreleased_here (y ++ marker ++ X) = None ->
  strip_prefix marker (y ++ marker ++ X) = None.
Proof.
  intros Hy Hm Hn.
  destruct (strip_prefix marker (y ++ marker ++ X)) as [rest|] eqn:E; [|done].
  exfalso. unfold match_unreleased_here in Hm, Hn.
  rewrite E in Hn. rewrite strip_prefix_app in Hm.
  cbn [mbind option_bind] in Hm, Hn.
  destruct (lazy_to_header LF X) as [k|] eqn:Ek; [|done].
  apply strip_prefix_spec in E.
  (* the text between the two occurrences ends with the line end of the marker *)
  assert (Hs : exists s1, rest = s1 ++ LF :: X).
  { assert (E1 : (y ++ removelast marker) ++ LF :: X = marker ++ rest).
    { rewrite <- E, <- app_assoc. reflexivity. }
    assert (Hlen : (length marker <= length (y ++ removelast marker))%nat).
    { rewrite length_app. destruct y; [done|]. simpl. lia. }
    exists (drop (length marker) (y ++ removelast marker)).
    apply (f_equal (drop (length marker))) in E1.
    rewrite drop_app_length, drop_app_le in E1 by done. done. }
  destruct Hs as [s1 ->].
  destruct (lazy_to_header_later LF s1 LF X k Ek) as [k' Hk'].
  by rewrite Hk' in Hn.
Qed.

Lemma find_unreleased_swap pre X1 X2 n1 k2 :
  find_unreleased 0 (pre ++ marker ++ X1) = Some (length pre, n1) ->
  lazy_to_header LF X2 = Some k2 ->
  find_unreleased 0 (pre ++ marker ++ X2)
  = Some (length pre, (length marker + k2)%nat).
Proof.
  intros H1 H2. apply (find_unreleased_first 0) in H1 as [Hm Hbefore].
  assert (Hhere : match_unreleased_here (marker ++ X2)
                  = Some (length marker + k2)%nat).
  { unfold match_unreleased_here. rewrite strip_prefix_app.
    cbn [mbind option_bind]. by rewrite H2. }
  rewrite find_unreleased_skip.
  - destruct (marker ++ X2) eqn:E; cbn [find_unreleased]; by rewrite Hhere.
  - intros k Hk. unfold match_unreleased_here.
    rewrite (strip_prefix_later marker (drop k pre) X1 X2); [done|].
    apply (marker_not_before _ _ n1); [|done|by apply Hbefore].
    intros E. apply (f_equal length) in E. rewrite length_drop in E.
    simpl in E. lia.
Qed.

(** ** The second run *)

(** The pending section of the output holds no bullets: the release section
    built from it is its header line. *)
Lemma reset_section_extracts_nothing :
  Forall (fun c => bullets_of (extract_content (reset_text ++ [LF])) c = [])
    categories.
Proof. repeat constructor. Qed.


Lemma filter_none {A} (P : A -> Prop) `{forall x, Decision (P x)} (l : list A) :
  Forall (fun x => ~ P x) l -> filter P l = [].
Proof.
  induction 1 as [|x l Hx _ IH]; [done|].
  by rewrite filter_cons, decide_False.
Qed.

Lemma release_of_reset_section newVersion dateStr :
  newReleaseSection newVersion dateStr (extract_content (reset_text ++ [LF]))
  = release_header newVersion dateStr.
Proof.
  rewrite newReleaseSection_subsections, filter_none; [apply app_nil_r|].
  eapply Forall_impl; [apply reset_section_extracts_nothing|].
  intros c E Hne. by apply Hne.
Qed.

(** The lazy star of the second run stops at the header line of the first. *)
Lemma lazy_to_header_reset rest :
  lazy_to_header LF (drop (length marker) reset_text ++ LF :: top_level ++ rest)
  = Some (S (length (drop (length marker) reset_text))).
Proof. reflexivity. Qed.

Lemma release_header_top newVersion dateStr :
  release_header newVersion dateStr
  = top_level ++ 91 :: newVersion ++ lit "] - " ++ dateStr ++ [LF; LF].
Proof. reflexivity. Qed.

Lemma find_header_here s v :
  match_header_here s = Some v -> find_header true s = Some v.
Proof. intros H. destruct s; cbn [find_header]; by rewrite H. Qed.

(** C7, as stated, fails: with a date that is not written YYYY-MM-DD the
    header line of the first run is no header match, a line moved into the
    release section can be the first match of the second run, and a version
    above the first target is then refused. *)
Lemma C7_counterexample :
  processChangelog nan_elsewhere a_clock quoting_headers (lit "2.0.0")
    (Some (lit "2025/02/19")) = Returns quoting_headers_updated
  /\ isHigherVersion nan_elsewhere (lit "2.0.1") (lit "2.0.0") = true
  /\ processChangelog nan_elsewhere a_clock quoting_headers_updated (lit "2.0.1")
       (Some (lit "2025/03/01"))
     = Throws (lit "Version conflict: V2.0.1 is not higher than 5.0.0").
Proof. vm_compute. done. Qed.

(** C7, amended: where the first run succeeds with a target of three numeric
    parts and a date of the form YYYY-MM-DD, a second run on its output with
    any version that [isHigherVersion] puts above the first target succeeds:
    it finds the reset pending section, which holds no bullets, and its new
    release section is the header line alone, placed before the release
    section of the first run. *)
Theorem C7_reset_idempotent Number_of_other now now' doc v date v' date' updated :
  is_triple v ->
  dated (date_string now date) = true ->
  processChangelog Number_of_other now doc v date = Returns updated ->
  isHigherVersion Number_of_other v' v = true ->
  exists pre released,
    updated = pre ++ (reset_text ++ [LF]) ++ released
    /\ find_unreleased 0 updated
       = Some (length pre, length (reset_text ++ [LF]))
    /\ Forall (fun c => bullets_of (extract_content (reset_text ++ [LF])) c = [])
         categories
    /\ processChangelog Number_of_other now' updated v' date'
       = Returns
           (pre ++ reset_text ++ [LF]
            ++ release_header (86 :: v') (date_string now' date')
            ++ released).
Proof.
  intros Ht Hd H1 Hv. pose proof H1 as Hret.
  apply processChangelog_Returns, rebuild_Returns in Hret
    as (pre & body & post & Edoc & Hpost & Hfind & Eupd).
  set (d := date_string now date) in *.
  set (R := newReleaseSection (86 :: v) d (extract_content (marker ++ body))) in *.
  assert (ER : exists subs, R = release_header (86 :: v) d ++ subs).
  { eexists. apply newReleaseSection_subsections. }
  destruct ER as [subs ER].
  rewrite newUnreleasedSection_text in Eupd.
  (* the output, read from the marker on *)
  set (X2 := drop (length marker) reset_text ++ LF :: R ++ post).
  assert (Eupd' : updated = pre ++ marker ++ X2).
  { rewrite Eupd. reflexivity. }
  assert (Hfind2 : find_unreleased 0 updated
                   = Some (length pre, length (reset_text ++ [LF]))).
  { rewrite Eupd'. rewrite Edoc, <- app_assoc in Hfind.
    rewrite (find_unreleased_swap pre (body ++ post) X2 _
               (S (length (drop (length marker) reset_text))) Hfind);
      [reflexivity|].
    unfold X2. rewrite ER, release_header_top, <- !app_assoc.
    apply lazy_to_header_reset. }
  exists pre, (R ++ post). split; [by rewrite Eupd, <- !app_assoc|].
  split; [done|]. split; [apply reset_section_extracts_nothing|].
  (* the version checks of the second run *)
  assert (Hrebuild : processChangelog Number_of_other now' updated v' date'
                     = rebuild now' updated (86 :: v') date').
  { rewrite processChangelog_checks, getFirstVersionHeader_find in H1 |- *.
    rewrite Eupd' at 1. rewrite Edoc, <- app_assoc in H1.
    rewrite find_header_marker in H1 |- *.
    destruct (find_header_before true pre) as [h|].
    - destruct (isHigherVersion Number_of_other v h) eqn:Hh; [|done].
      by rewrite (isHigherVersion_trans _ v' v h).
    - change (marker ++ X2) with (reset_text ++ LF :: R ++ post).
      rewrite find_header_reset, ER, <- app_assoc.
      rewrite (find_header_here _ v) by (by apply match_header_here_release).
      by rewrite Hv. }
  rewrite Hrebuild, rebuild_located, Hfind2.
  assert (E3 : updated = pre ++ (reset_text ++ [LF]) ++ (R ++ post))
    by (by rewrite Eupd, <- !app_assoc).
  rewrite E3, drop_app_add, !drop_app_length, !take_app_length.
  by rewrite newUnreleasedSection_text, release_of_reset_section.
Qed.

Lemma C7_reset_idempotent_witness :
  exists updated pre released,
    processChangelog nan_elsewhere a_clock sampleChangelog (lit "1.0.2")
      (Some (lit "2025-02-19")) = Returns updated
    /\ updated = pre ++ (reset_text ++ [LF]) ++ released
    /\ processChangelog nan_elsewhere another_clock updated (lit "1.1.0") None
       = Returns
           (pre ++ reset_text ++ [LF]
            ++ release_header (lit "V1.1.0") (lit "2026-11-04") ++ released).
Proof.
  destruct sample_succeeds as [updated H].
  assert (Ht : is_triple (lit "1.0.2")).
  { exists (lit "1"), (lit "0"), (lit "2"). repeat split; done. }
  destruct (C7_reset_idempotent nan_elsewhere a_clock another_clock
              sampleChangelog (lit "1.0.2") (Some (lit "2025-02-19"))
              (lit "1.1.0") None updated Ht eq_refl H eq_refl)
    as (pre & released & E & _ & _ & H2).
  exists updated, pre, released.
  split; [exact H|]. split; [exact E|exact H2].
Defined.

(** ** The date of the clock is a date *)

Lemma range_by_cases (P : N -> bool) (lo len : N) :
  forallb (fun n => P (N.of_nat n)) (seq (N.to_nat lo) (N.to_nat len)) = true ->
  forall y, lo <= y < lo + len -> P y = true.
Proof.
  intros H y Hy. rewrite forallb_forall in H.
  rewrite <- (N2Nat.id y). apply H. apply in_seq. lia.
Qed.

Lemma all_digits_spec n s :
  all_digits n s = true -> digits_exactly n s = Some [].
Proof. unfold all_digits. by destruct (digits_exactly n s) as [[|]|]. Qed.

Lemma year_digits y :
  1000 <= y <= 9999 -> digits_exactly 4 (String_of_N y) = Some [].
Proof.
  intros Hy. apply all_digits_spec.
  apply (range_by_cases (fun y => all_digits 4 (String_of_N y)) 1000 9000);
    [vm_compute; reflexivity|lia].
Qed.

Lemma two_digits n :
  n <= 99 -> digits_exactly 2 (pad_start 2 48 (String_of_N n)) = Some [].
Proof.
  intros Hn. apply all_digits_spec.
  apply (range_by_cases
           (fun n => all_digits 2 (pad_start 2 48 (String_of_N n))) 0 100);
    [vm_compute; reflexivity|lia].
Qed.

(** With the date absent the header of the first run carries a date. *)
Lemma dated_clock now :
  plausible now = true -> dated (date_string now None) = true.
Proof.
  unfold plausible. rewrite !andb_true_iff, !N.leb_le.
  intros ((((Hy1 & Hy2) & Hm) & Hd1) & Hd2).
  unfold dated, date_string, match_date. cbn [truthy].
  rewrite (digits_exactly_app 4 _ [] _ (year_digits _ (conj Hy1 Hy2))).
  cbn [app mbind option_bind expect N.eqb Pos.eqb].
  rewrite (digits_exactly_app 2 _ [] _ (two_digits (getMonth now + 1) ltac:(lia))).
  cbn [app mbind option_bind expect N.eqb Pos.eqb].
  by rewrite (two_digits (getDate now)) by lia.
Qed.
(** * Further properties of the transformation *)

(** ** Which calls succeed and which errors are raised *)

Lemma includes_spec p s : includes p s = true <-> exists a b, s = a ++ p ++ b.
Proof.
  split.
  - induction s as [|c s IH]; simpl; intros H.
    + apply orb_true_iff in H as [H|H]; [|done].
      apply starts_with_spec in H as [r ->]. by exists [], r.
    + apply orb_true_iff in H as [H|H].
      * apply starts_with_spec in H as [r ->]. by exists [], r.
      * destruct (IH H) as (a & b & ->). by exists (c :: a), b.
  - intros (a & b & ->). destruct (includes p (a ++ p ++ b)) eqn:E; [done|].
    by destruct (includes_false _ _ E a b).
Qed.

Lemma find_unreleased_here i s n :
  match_unreleased_here s = Some n -> find_unreleased i s = Some (i, n).
Proof. intros H. destruct s; cbn [find_unreleased]; by rewrite H. Qed.

Lemma find_unreleased_found i pre rest :
  header_line_in LF rest -> find_unreleased i (pre ++ marker ++ rest) <> None.
Proof.
  intros H. revert i; induction pre as [|c pre IH]; intros i.
  - cbn [app].
    destruct (lazy_to_header LF rest) as [k|] eqn:E;
      [|by apply lazy_to_header_None in E].
    rewrite (find_unreleased_here _ _ (length marker + k)); [done|].
    unfold match_unreleased_here. rewrite strip_prefix_app. cbn. by rewrite E.
  - cbn [app find_unreleased].
    destruct (match_unreleased_here (c :: pre ++ marker ++ rest)); [done|]. apply IH.
Qed.

Lemma find_unreleased_None_last i doc :
  find_unreleased i doc = None <-> pending_is_last doc.
Proof.
  split; [|apply find_unreleased_last].
  intros H pre rest -> Hh. by apply (find_unreleased_found i pre rest).
Qed.

Lemma last_not_higher newVersion current c w :
  current = c :: w ->
  last (not_higher newVersion current) = last current.
Proof.
  intros ->. unfold not_higher. rewrite !last_app.
  destruct (last (c :: w)) eqn:E; [done|]. by apply last_None in E.
Qed.

Lemma find_unreleased_line i s j n :
  find_unreleased i s = Some (j, n) ->
  exists pre rest, s = pre ++ marker ++ rest /\ header_line_in LF rest.
Proof.
  assert (Hhere : forall s n, match_unreleased_here s = Some n ->
            exists rest, s = marker ++ rest /\ header_line_in LF rest).
  { clear. intros s n H. unfold match_unreleased_here in H. stages H.
    apply strip_prefix_spec in E as ->. eexists. split; [done|].
    apply header_line_from_spec.
    destruct (header_line_from LF _) eqn:Eh; [done|].
    assert (Hn : ~ header_line_in LF l).
    { intros Hh. apply header_line_from_spec in Hh. congruence. }
    apply lazy_to_header_None in Hn. congruence. }
  revert i; induction s as [|c s IH]; intros i; cbn [find_unreleased].
  - destruct (match_unreleased_here []) eqn:E; [|done].
    intros _. apply Hhere in E as (rest & -> & Hh). by exists [], rest.
  - destruct (match_unreleased_here (c :: s)) eqn:E.
    + intros _. apply Hhere in E as (rest & -> & Hh). by exists [], rest.
    + intros H. apply IH in H as (pre & rest & -> & Hh). by exists (c :: pre), rest.
Qed.

Lemma triple_last v : is_triple v -> exists c, last v = Some c /\ is_digit c = true.
Proof.
  intros (major & minor & patch & -> & _ & _ & Hne & Hd).
  destruct (last patch) as [c|] eqn:E.
  - exists c. split.
    + rewrite last_app, last_cons, last_app, last_cons. by rewrite E.
    + apply last_Some in E as [l' ->]. rewrite forallb_app in Hd.
      apply andb_true_iff in Hd as [_ Hd]. simpl in Hd. by destruct (is_digit c).
  - by apply last_None in E.
Qed.

Lemma last_already_in x : last (already_in x) = Some 100.
Proof. unfold already_in. by rewrite app_assoc, last_app. Qed.

(** X1: [processChangelog] returns a document exactly when the target is
    higher than the located release header, if there is one, and the marker
    line is followed, somewhere later, by a line that begins with [## ]. *)
Theorem processChangelog_succeeds_iff Number_of_other now doc v date :
  (exists updated, processChangelog Number_of_other now doc v date = Returns updated)
  <-> (forall current,
         getFirstVersionHeader doc = Some current ->
         isHigherVersion Number_of_other v current = true)
      /\ exists pre rest, doc = pre ++ marker ++ rest /\ header_line_in LF rest.
Proof.
  rewrite processChangelog_checks, rebuild_located. split.
  - intros [updated H]. split.
    + intros current E. rewrite E in H.
      by destruct (isHigherVersion Number_of_other v current).
    + destruct (find_unreleased 0 doc) as [[index n]|] eqn:E.
      * by apply find_unreleased_line in E.
      * by destruct (getFirstVersionHeader doc) as [current|];
          [destruct (isHigherVersion Number_of_other v current)|].
  - intros [Hv (pre & rest & -> & Hh)].
    pose proof (find_unreleased_found 0 pre rest Hh) as Hf.
    destruct (find_unreleased 0 (pre ++ marker ++ rest)) as [[index n]|]; [|done].
    destruct (getFirstVersionHeader _) as [current|]; [|by eexists].
    rewrite (Hv current eq_refl). by eexists.
Qed.

Lemma processChangelog_succeeds_iff_witness :
  exists pre rest, sampleChangelog = pre ++ marker ++ rest /\ header_line_in LF rest.
Proof.
  exact (proj2 (proj1 (processChangelog_succeeds_iff nan_elsewhere a_clock
                         sampleChangelog (lit "1.0.2") (Some (lit "2025-02-19")))
                  sample_succeeds)).
Defined.

(** X2: the errors of [processChangelog]: the structure error, raised when
    the version checks pass and no line after the marker line begins with
    [## ], or the version conflict "is not higher than", raised when a
    release header is located and the target is not higher than its
    version.  The conflict "is already in CHANGELOG.md" is never raised. *)
Theorem processChangelog_errors Number_of_other now doc v date message :
  processChangelog Number_of_other now doc v date = Throws message ->
  ((message = could_not_find
    /\ (forall current,
          getFirstVersionHeader doc = Some current ->
          isHigherVersion Number_of_other v current = true)
    /\ pending_is_last doc)
   \/ (exists current,
         getFirstVersionHeader doc = Some current
         /\ isHigherVersion Number_of_other v current = false
         /\ message = not_higher (86 :: v) current))
  /\ forall newVersion, message <> already_in newVersion.
Proof.
  rewrite processChangelog_checks, rebuild_located. intros H.
  assert (Hc : (message = could_not_find
    /\ (forall current,
          getFirstVersionHeader doc = Some current ->
          isHigherVersion Number_of_other v current = true)
    /\ pending_is_last doc)
   \/ (exists current,
         getFirstVersionHeader doc = Some current
         /\ isHigherVersion Number_of_other v current = false
         /\ message = not_higher (86 :: v) current)).
  { destruct (getFirstVersionHeader doc) as [current|] eqn:Ec.
    - destruct (isHigherVersion Number_of_other v current) eqn:Eh.
      + destruct (find_unreleased 0 doc) as [[index n]|] eqn:Ef; [done|].
        left. injection H as <-. split; [done|]. split.
        * by intros ? [= <-].
        * by apply (find_unreleased_None_last 0).
      + right. injection H as <-. by exists current.
    - destruct (find_unreleased 0 doc) as [[index n]|] eqn:Ef; [done|].
      left. injection H as <-. split; [done|]. split; [done|].
      by apply (find_unreleased_None_last 0). }
  split; [done|]. intros newVersion ->.
  destruct Hc as [[Hm _]|(current & Hc & _ & Hm)].
  - apply (f_equal head) in Hm. vm_compute in Hm. discriminate Hm.
  - apply (f_equal last) in Hm. rewrite last_already_in in Hm.
    rewrite getFirstVersionHeader_find in Hc. apply find_header_triple in Hc.
    destruct (triple_head _ Hc) as (c & w & E & _).
    rewrite (last_not_higher _ _ c w E) in Hm.
    apply triple_last in Hc as (d & Hl & Hd). rewrite Hl in Hm.
    injection Hm as <-. done.
Qed.

Lemma processChangelog_errors_witness :
  processChangelog nan_elsewhere a_clock released_only (lit "1.0.1")
    (Some (lit "2025-02-19"))
  = Throws (lit "Version conflict: V1.0.1 is not higher than 1.0.1")
  /\ lit "Version conflict: V1.0.1 is not higher than 1.0.1"
     <> already_in (lit "V1.0.1").
Proof.
  assert (H : processChangelog nan_elsewhere a_clock released_only (lit "1.0.1")
                (Some (lit "2025-02-19"))
              = Throws (lit "Version conflict: V1.0.1 is not higher than 1.0.1"))
    by (vm_compute; reflexivity).
  split; [exact H|].
  exact (proj2 (processChangelog_errors _ _ _ _ _ _ H) (lit "V1.0.1")).
Defined.

(** X3: a target that is not higher than the located release header is
    refused with the version conflict, whatever the rest of the document and
    the date; the version of the located header itself is refused in this
    way, and the message includes "Version conflict". *)
Theorem not_higher_is_refused Number_of_other now doc v date current :
  getFirstVersionHeader doc = Some current ->
  (isHigherVersion Number_of_other v current = false ->
   processChangelog Number_of_other now doc v date
   = Throws (not_higher (86 :: v) current))
  /\ processChangelog Number_of_other now doc current date
     = Throws (not_higher (86 :: current) current)
  /\ forall newVersion,
       includes (lit "Version conflict") (not_higher newVersion current) = true.
Proof.
  intros Hc. rewrite !processChangelog_checks, Hc, isHigherVersion_irrefl.
  split; [by intros ->|]. split; [done|].
  intros newVersion. apply includes_spec.
  exists [], (lit ": " ++ newVersion ++ lit " is not higher than " ++ current).
  unfold not_higher.
  change (lit "Version conflict: ") with (lit "Version conflict" ++ lit ": ").
  by rewrite <- app_assoc.
Qed.

Lemma not_higher_is_refused_witness :
  getFirstVersionHeader sampleChangelog = Some (lit "1.0.1")
  /\ processChangelog nan_elsewhere a_clock sampleChangelog (lit "1.0.1") None
     = Throws (lit "Version conflict: V1.0.1 is not higher than 1.0.1").
Proof.
  assert (H : getFirstVersionHeader sampleChangelog = Some (lit "1.0.1"))
    by (vm_compute; reflexivity).
  split; [exact H|].
  exact (proj1 (proj2 (not_higher_is_refused nan_elsewhere a_clock sampleChangelog
                         (lit "1.0.1") None (lit "1.0.1") H))).
Defined.

(** ** The header locator *)

Lemma optional_spec c s :
  exists prefix, s = prefix ++ optional c s /\ (prefix = [] \/ prefix = [c]).
Proof.
  destruct s as [|b s]; [exists []; split; [done|by left]|]. cbn [optional].
  destruct (N.eqb_spec b c) as [->|];
    [exists [c]; split; [done|by right]|exists []; split; [done|by left]].
Qed.

Lemma optional_digits major rest :
  major <> [] -> forallb is_digit major = true ->
  optional 86 (major ++ rest) = major ++ rest.
Proof.
  destruct major as [|c w]; [done|]. intros _ H. simpl in H.
  apply andb_true_iff in H as [H _]. cbn [app optional].
  destruct (N.eqb_spec c 86) as [->|]; [by vm_compute in H|done].
Qed.

Lemma match_header_here_spec s v : match_header_here s = Some v <-> header_at s v.
Proof.
  split.
  - unfold match_header_here, match_after_hashes. intros H. stages H.
    pose proof (match_header_here_triple s v) as Ht.
    injection H as <-.
    apply strip_prefix_spec in E as ->.
    destruct (drop_while_spec is_space l) as (blanks & El & Hb & _).
    apply expect_spec in E0. rewrite E0 in El.
    destruct (optional_spec 86 l0) as (prefix & El0 & Hp).
    apply digits1_spec in E1 as (? & E1 & ? & _). rewrite E1 in El0.
    apply expect_spec in E2 as ->.
    apply digits1_spec in E3 as (? & -> & ? & _).
    apply expect_spec in E4 as ->.
    apply digits1_spec in E5 as (? & -> & ? & _).
    apply expect_spec in E6 as ->.
    destruct (drop_while_spec is_space l9) as (blanks' & El9 & Hb' & _).
    apply expect_spec in E7. rewrite E7 in El9.
    destruct (drop_while_spec is_space l10) as (blanks'' & El10 & Hb'' & _).
    set (d := drop_while is_space l10) in *.
    exists blanks, prefix, blanks', blanks'', d.
    split.
    { rewrite El, El0, El9, El10. by repeat (rewrite <- app_assoc; cbn [app]). }
    do 2 (split; [done|]). split.
    { eexists _, _, _. split; [reflexivity|]. tauto. }
    do 2 (split; [done|]). unfold dated. by rewrite E8.
  - intros (blanks & prefix & blanks' & blanks'' & d & -> & Hb & Hp & Ht & Hb' & Hb'' & Hd).
    destruct Ht as (major & minor & patch & -> & (? & ?) & (? & ?) & (? & ?)).
    destruct (dated_head d Hd) as (c & r & -> & Hc).
    unfold dated in Hd. destruct (match_date (c :: r)) as [r'|] eqn:Er; [|done].
    unfold match_header_here, match_after_hashes.
    rewrite strip_prefix_app. cbn [mbind option_bind].
    rewrite drop_while_app by done.
    cbn [expect N.eqb Pos.eqb mbind option_bind].
    repeat (rewrite <- app_assoc; cbn [app]).
    assert (Ho : optional 86 (prefix ++ major ++ 46 :: minor ++ 46 :: patch ++ 93 ::
                                blanks' ++ 45 :: blanks'' ++ c :: r)
                 = major ++ 46 :: minor ++ 46 :: patch ++ 93 ::
                     blanks' ++ 45 :: blanks'' ++ c :: r).
    { destruct Hp as [->| ->]; cbn [app]; [by apply optional_digits|done]. }
    rewrite Ho.
    rewrite digits1_app by done. cbn [expect N.eqb Pos.eqb mbind option_bind].
    rewrite digits1_app by done. cbn [expect N.eqb Pos.eqb mbind option_bind].
    rewrite digits1_app by done. cbn [expect N.eqb Pos.eqb mbind option_bind].
    rewrite drop_while_app by done.
    cbn [expect N.eqb Pos.eqb mbind option_bind].
    rewrite drop_while_app by (done || by apply digit_not_space).
    by rewrite Er.
Qed.

Lemma match_header_here_nil : match_header_here [] = None.
Proof. reflexivity. Qed.

Lemma find_header_first bol s v :
  find_header bol s = Some v
  <-> exists pre t,
        s = pre ++ t /\ bol_after bol pre = true /\ match_header_here t = Some v
        /\ forall pre' t',
             s = pre' ++ t' -> (length pre' < length pre)%nat ->
             bol_after bol pre' = true -> match_header_here t' = None.
Proof.
  revert bol; induction s as [|c s IH]; intros bol.
  - cbn [find_header]. rewrite match_header_here_nil. split.
    + by destruct bol.
    + intros (pre & t & E & _ & H & _).
      symmetry in E. apply app_eq_nil in E as [_ ->].
      by rewrite match_header_here_nil in H.
  - cbn [find_header]. split.
    + destruct (if bol then match_header_here (c :: s) else None) as [v'|] eqn:E.
      * intros [= ->]. destruct bol; [|done].
        exists [], (c :: s). do 3 (split; [done|]).
        intros pre' t' _ Hl. simpl in Hl. lia.
      * intros H. apply IH in H as (pre & t & -> & Hb & Hm & Hmin).
        exists (c :: pre), t. do 3 (split; [done|]).
        intros pre' t' E' Hl Hb'. destruct pre' as [|c' pre'].
        -- cbn [app] in E'. subst t'. cbn [bol_after] in Hb'. by subst bol.
        -- cbn [app] in E'. apply cons_eq_inv in E' as [<- E'].
           apply (Hmin pre' t' E'); [simpl in Hl; lia|done].
    + intros (pre & t & E & Hb & Hm & Hmin). destruct pre as [|c' pre].
      * cbn [app] in E. subst t. cbn [bol_after] in Hb. subst bol. by rewrite Hm.
      * cbn [app] in E. apply cons_eq_inv in E as [<- ->].
        assert (E0 : (if bol then match_header_here (c :: pre ++ t) else None) = None).
        { destruct bol; [|done]. apply (Hmin [] (c :: pre ++ t)); [done|simpl; lia|done]. }
        rewrite E0. apply IH. exists pre, t. do 3 (split; [done|]).
        intros pre' t' E' Hl Hb'.
        apply (Hmin (c :: pre') t'); [by rewrite E'|simpl; lia|done].
Qed.

Lemma find_header_nowhere bol s :
  find_header bol s = None
  <-> forall pre t,
        s = pre ++ t -> bol_after bol pre = true -> match_header_here t = None.
Proof.
  revert bol; induction s as [|c s IH]; intros bol.
  - cbn [find_header]. rewrite match_header_here_nil. split; [|by destruct bol].
    intros _ pre t E _. symmetry in E. apply app_eq_nil in E as [_ ->].
    apply match_header_here_nil.
  - cbn [find_header]. split.
    + destruct (if bol then match_header_here (c :: s) else None) as [v'|] eqn:E; [done|].
      intros H pre t E' Hb. destruct pre as [|c' pre].
      * cbn [app] in E'. subst t. cbn [bol_after] in Hb. by subst bol.
      * cbn [app] in E'. apply cons_eq_inv in E' as [<- E'].
        by apply (proj1 (IH _) H pre t).
    + intros H.
      assert (E0 : (if bol then match_header_here (c :: s) else None) = None).
      { destruct bol; [|done]. by apply (H [] (c :: s)). }
      rewrite E0. apply IH. intros pre t -> Hb. by apply (H (c :: pre) t).
Qed.

(** X4: [getFirstVersionHeader] returns the version of the first release
    header that begins at the start of a line: the document is a text
    [pre], then a header that carries the version (two hashes, blanks, the
    bracketed triple with or without its [V], a hyphen between blanks, a
    date), and no header begins at the start of a line before it; it
    returns [null] exactly when no header begins at the start of a line. *)
Theorem getFirstVersionHeader_first doc :
  (forall v,
     getFirstVersionHeader doc = Some v
     <-> exists pre s,
           doc = pre ++ s /\ bol_after true pre = true /\ header_at s v
           /\ forall pre' s' v',
                doc = pre' ++ s' -> bol_after true pre' = true ->
                header_at s' v' -> (length pre <= length pre')%nat)
  /\ (getFirstVersionHeader doc = None
      <-> forall pre s v,
            doc = pre ++ s -> bol_after true pre = true -> ~ header_at s v).
Proof.
  rewrite getFirstVersionHeader_find. split.
  - intros v. rewrite find_header_first. split.
    + intros (pre & s & E & Hb & Hm & Hmin). exists pre, s.
      do 2 (split; [done|]). split; [by apply match_header_here_spec|].
      intros pre' s' v' E' Hb' Hh. apply match_header_here_spec in Hh.
      destruct (decide (length pre' < length pre)%nat) as [Hl|Hl]; [|lia].
      rewrite (Hmin pre' s' E' Hl Hb') in Hh. done.
    + intros (pre & s & E & Hb & Hm & Hmin). exists pre, s.
      do 2 (split; [done|]). split; [by apply match_header_here_spec|].
      intros pre' s' E' Hl Hb'.
      destruct (match_header_here s') as [v'|] eqn:Hh; [|done].
      apply match_header_here_spec in Hh.
      pose proof (Hmin pre' s' v' E' Hb' Hh). lia.
  - rewrite find_header_nowhere. split.
    + intros H pre s v E Hb Hh. apply match_header_here_spec in Hh.
      by rewrite (H pre s E Hb) in Hh.
    + intros H pre s E Hb. destruct (match_header_here s) as [v|] eqn:Hh; [|done].
      apply match_header_here_spec in Hh. by destruct (H pre s v E Hb).
Qed.

Lemma getFirstVersionHeader_first_witness :
  exists pre s,
    sampleChangelog = pre ++ s /\ bol_after true pre = true
    /\ header_at s (lit "1.0.1").
Proof.
  assert (H : getFirstVersionHeader sampleChangelog = Some (lit "1.0.1"))
    by (vm_compute; reflexivity).
  destruct (proj1 (proj1 (getFirstVersionHeader_first sampleChangelog) (lit "1.0.1")) H)
    as (pre & s & E & Hb & Hh & _).
  exists pre, s. split; [exact E|]. split; [exact Hb|exact Hh].
Defined.

Lemma match_header_here_other c s : c <> 35 -> match_header_here (c :: s) = None.
Proof.
  intros H. unfold match_header_here.
  change (lit "##") with [35; 35]. cbn [strip_prefix].
  by destruct (N.eqb_spec 35 c) as [<-|].
Qed.

Lemma find_header_skip bol pre s :
  35 ∉ pre -> find_header bol (pre ++ s) = find_header (bol_after bol pre) s.
Proof.
  revert bol; induction pre as [|c pre IH]; intros bol H; [done|].
  apply not_elem_of_cons in H as [Hc H].
  cbn [app find_header bol_after]. rewrite match_header_here_other by done.
  rewrite IH by done. by destruct bol.
Qed.

(** X5: the release header that [processChangelog] writes is read back by
    [getFirstVersionHeader]: placed at the start of a line after a text
    without hashes, the header written for a target of three numeric parts
    and a date that begins with YYYY-MM-DD gives that target, without its
    [V]. *)
Theorem written_header_is_located pre v d rest :
  35 ∉ pre -> bol_after true pre = true ->
  is_triple v -> dated d = true ->
  getFirstVersionHeader (pre ++ release_header (86 :: v) d ++ rest) = Some v.
Proof.
  intros Hp Hb Ht Hd.
  rewrite getFirstVersionHeader_find, find_header_skip, Hb by done.
  by apply find_header_here, match_header_here_release.
Qed.

Lemma written_header_is_located_witness :
  getFirstVersionHeader
    (lit "Changelog" ++ [LF]
     ++ release_header (lit "V1.0.2") (lit "2025-02-19") ++ lit "### Added")
  = Some (lit "1.0.2").
Proof.
  apply (written_header_is_located (lit "Changelog" ++ [LF]) (lit "1.0.2")
           (lit "2025-02-19") (lit "### Added")).
  - apply (bool_decide_unpack _). vm_compute. exact I.
  - reflexivity.
  - exists (lit "1"), (lit "0"), (lit "2"). repeat split; done.
  - reflexivity.
Defined.

(** ** The release that was just written *)

Lemma match_header_here_hash y : match_header_here (y ++ [35]) = match_header_here y.
Proof.
  unfold match_header_here. change (lit "##") with [35; 35].
  destruct y as [|a [|b y]]; cbn [app strip_prefix].
  - reflexivity.
  - by destruct (35 =? a).
  - destruct (35 =? a); [|done]. destruct (35 =? b); [|done].
    cbn [mbind option_bind]. apply match_after_hashes_barrier.
Qed.

Lemma find_header_before_find bol pre : find_header_before bol pre = find_header bol pre.
Proof.
  revert bol; induction pre as [|c pre IH]; intros bol.
  - cbn [find_header_before find_header]. rewrite match_header_here_nil.
    by destruct bol.
  - cbn [find_header_before find_header].
    change (c :: pre ++ [35]) with ((c :: pre) ++ [35]).
    rewrite match_header_here_hash.
    destruct (if bol then match_header_here (c :: pre) else None); [done|apply IH].
Qed.

Lemma no_header_above_spec doc :
  no_header_above doc = true ->
  forall pre rest, doc = pre ++ marker ++ rest -> getFirstVersionHeader pre = None.
Proof.
  unfold no_header_above. rewrite forallb_forall. intros H pre rest ->.
  specialize (H (length pre)). rewrite drop_app_length, take_app_length in H.
  unfold starts_with in H. rewrite strip_prefix_app in H. cbn [negb orb] in H.
  apply (bool_decide_eq_true_1 _), H, in_seq. rewrite length_app. lia.
Qed.

Lemma located_after_release Number_of_other now doc v date updated :
  is_triple v ->
  dated (date_string now date) = true ->
  (forall pre rest, doc = pre ++ marker ++ rest -> getFirstVersionHeader pre = None) ->
  processChangelog Number_of_other now doc v date = Returns updated ->
  getFirstVersionHeader updated = Some v.
Proof.
  intros Ht Hd Habove H.
  apply processChangelog_splice in H as (pre & body & post & Edoc & _ & _ & Eupd).
  rewrite <- app_assoc in Edoc. apply Habove in Edoc.
  rewrite getFirstVersionHeader_find in Edoc |- *.
  rewrite Eupd, newUnreleasedSection_text, newReleaseSection_subsections.
  change (reset_text ++ [LF] ++ ?x) with (marker ++ drop (length marker) reset_text ++ LF :: x).
  rewrite find_header_marker, find_header_before_find, Edoc.
  change (marker ++ drop (length marker) reset_text ++ LF :: ?x)
    with (reset_text ++ LF :: x).
  rewrite find_header_reset, <- app_assoc.
  by apply find_header_here, match_header_here_release.
Qed.

(** X6: after a release the new header is the located one.  Where the
    first run succeeds with a target of three numeric parts and a date of
    the form YYYY-MM-DD, on a document with no release header above its
    pending section, [getFirstVersionHeader] gives the target on the
    output, and a further run with a target that is not higher, the same
    target among them, is refused with the version conflict. *)
Theorem new_release_is_located Number_of_other now doc v date updated :
  is_triple v ->
  dated (date_string now date) = true ->
  (forall pre rest, doc = pre ++ marker ++ rest -> getFirstVersionHeader pre = None) ->
  processChangelog Number_of_other now doc v date = Returns updated ->
  getFirstVersionHeader updated = Some v
  /\ (forall now' v' date',
        isHigherVersion Number_of_other v' v = false ->
        processChangelog Number_of_other now' updated v' date'
        = Throws (not_higher (86 :: v') v))
  /\ forall now' date',
       processChangelog Number_of_other now' updated v date'
       = Throws (not_higher (86 :: v) v).
Proof.
  intros Ht Hd Habove H.
  pose proof (located_after_release _ _ _ _ _ _ Ht Hd Habove H) as Hloc.
  split; [done|]. split.
  - intros now' v' date' Hv. by rewrite processChangelog_checks, Hloc, Hv.
  - intros now' date'. by rewrite processChangelog_checks, Hloc, isHigherVersion_irrefl.
Qed.

Lemma new_release_is_located_witness :
  exists updated,
    processChangelog nan_elsewhere a_clock sampleChangelog (lit "1.0.2")
      (Some (lit "2025-02-19")) = Returns updated
    /\ getFirstVersionHeader updated = Some (lit "1.0.2")
    /\ processChangelog nan_elsewhere another_clock updated (lit "1.0.2") None
       = Throws (lit "Version conflict: V1.0.2 is not higher than 1.0.2").
Proof.
  destruct sample_succeeds as [updated H]. exists updated.
  assert (Ht : is_triple (lit "1.0.2")).
  { exists (lit "1"), (lit "0"), (lit "2"). repeat split; done. }
  assert (Habove : no_header_above sampleChangelog = true)
    by (vm_compute; reflexivity).
  pose proof (no_header_above_spec _ Habove) as Habove'.
  destruct (new_release_is_located nan_elsewhere a_clock sampleChangelog
              (lit "1.0.2") (Some (lit "2025-02-19")) updated Ht eq_refl Habove' H)
    as (H1 & _ & H2).
  split; [exact H|]. split; [exact H1|exact (H2 another_clock None)].
Defined.

(** ** The comparator reads a version through its parts *)

Lemma isHigherVersion_parts Number_of_other a a' b b' :
  (forall i, part Number_of_other a i = part Number_of_other a' i) ->
  (forall i, part Number_of_other b i = part Number_of_other b' i) ->
  isHigherVersion Number_of_other a b = isHigherVersion Number_of_other a' b'.
Proof.
  intros Ha Hb.
  assert (H : isHigherVersion Number_of_other a b = true
              <-> isHigherVersion Number_of_other a' b' = true).
  { rewrite !isHigherVersion_spec. split; intros (k & Hs & Hl); exists k.
    - split; [intros j Hj; rewrite <- Ha, <- Hb; by apply Hs|by rewrite <- Ha, <- Hb].
    - split; [intros j Hj; rewrite Ha, Hb; by apply Hs|by rewrite Ha, Hb]. }
  destruct (isHigherVersion Number_of_other a b),
           (isHigherVersion Number_of_other a' b'); try done.
  - symmetry. by apply H.
  - by apply H.
Qed.

Lemma part_zero Number_of_other (parts : list (list N)) x i :
  or_zero (Some (Number Number_of_other x)) = zero ->
  or_zero (map (Number Number_of_other) (parts ++ [x]) !! i)
  = or_zero (map (Number Number_of_other) parts !! i).
Proof.
  intros Hx. rewrite map_app. cbn [map].
  destruct (decide (i < length parts)%nat) as [Hi|Hi].
  - by rewrite lookup_app_l by (by rewrite length_map).
  - rewrite lookup_app_r by (rewrite length_map; lia).
    rewrite (lookup_ge_None_2 (map _ parts)) by (rewrite length_map; lia).
    rewrite length_map. destruct (i - length parts)%nat; [done|].
    done.
Qed.

(** X7: a trailing part [.0] never changes the comparison, on either
    side: [isHigherVersion] reads a missing part and a part [0] alike, for
    all strings. *)
Theorem trailing_zero_part Number_of_other a b :
  isHigherVersion Number_of_other (a ++ lit ".0") b
  = isHigherVersion Number_of_other a b
  /\ isHigherVersion Number_of_other a (b ++ lit ".0")
     = isHigherVersion Number_of_other a b.
Proof.
  assert (H : forall s i, part Number_of_other (s ++ lit ".0") i
                          = part Number_of_other s i).
  { intros s i. unfold part. change (lit ".0") with (46 :: [48]).
    rewrite split_on_app. by apply part_zero. }
  split; by apply isHigherVersion_parts.
Qed.

Lemma trailing_zero_part_witness :
  isHigherVersion nan_elsewhere (lit "1.2" ++ lit ".0") (lit "1.1.9")
  = isHigherVersion nan_elsewhere (lit "1.2") (lit "1.1.9").
Proof. exact (proj1 (trailing_zero_part nan_elsewhere (lit "1.2") (lit "1.1.9"))). Defined.

Lemma part_replace Number_of_other (ps qs : list (list N)) x x' i :
  or_zero (Some (Number Number_of_other x))
  = or_zero (Some (Number Number_of_other x')) ->
  or_zero (map (Number Number_of_other) (ps ++ x :: qs) !! i)
  = or_zero (map (Number Number_of_other) (ps ++ x' :: qs) !! i).
Proof.
  intros Hx. rewrite !map_app. cbn [map].
  destruct (decide (i < length ps)%nat) as [Hi|Hi].
  - by rewrite !lookup_app_l by (by rewrite length_map).
  - rewrite !lookup_app_r by (rewrite length_map; lia).
    by destruct (i - length (map (Number Number_of_other) ps))%nat.
Qed.

(** X8: a part that is empty, or that [Number] reads as [NaN], counts as
    [0]: putting [0] in its place changes no comparison, on either side. *)
Theorem unreadable_part_is_zero Number_of_other a a' b ps x qs :
  split_on 46 a = ps ++ x :: qs ->
  split_on 46 a' = ps ++ lit "0" :: qs ->
  x = [] \/ Number Number_of_other x = S754_nan ->
  isHigherVersion Number_of_other a b = isHigherVersion Number_of_other a' b
  /\ isHigherVersion Number_of_other b a = isHigherVersion Number_of_other b a'.
Proof.
  intros Ea Ea' Hx.
  assert (H : forall i, part Number_of_other a i = part Number_of_other a' i).
  { intros i. unfold part. rewrite Ea, Ea'. apply part_replace.
    destruct Hx as [->|Hx]; [done|]. by rewrite Hx. }
  split; by apply isHigherVersion_parts.
Qed.

Lemma unreadable_part_is_zero_witness :
  isHigherVersion nan_elsewhere (lit "1.x.3") (lit "1.0.2")
  = isHigherVersion nan_elsewhere (lit "1.0.3") (lit "1.0.2")
  /\ isHigherVersion nan_elsewhere (lit "1..3") (lit "1.0.2")
     = isHigherVersion nan_elsewhere (lit "1.0.3") (lit "1.0.2").
Proof.
  split.
  - apply (unreadable_part_is_zero nan_elsewhere (lit "1.x.3") (lit "1.0.3")
             (lit "1.0.2") [lit "1"] (lit "x") [lit "3"]);
      [reflexivity|reflexivity|right; reflexivity].
  - apply (unreadable_part_is_zero nan_elsewhere (lit "1..3") (lit "1.0.3")
             (lit "1.0.2") [lit "1"] [] [lit "3"]);
      [reflexivity|reflexivity|left; reflexivity].
Defined.

Lemma first_unlike (P : nat -> bool) n :
  (forall j, (j < n)%nat -> P j = true)
  \/ exists k, (k < n)%nat /\ (forall j, (j < k)%nat -> P j = true) /\ P k = false.
Proof.
  induction n as [|n [IH|(k & Hk & Hj & Hp)]].
  - left. intros j Hj. lia.
  - destruct (P n) eqn:E.
    + left. intros j Hj. destruct (decide (j = n)) as [->|]; [done|apply IH; lia].
    + right. exists n. split; [lia|]. split; [done|done].
  - right. exists k. split; [lia|done].
Qed.

Lemma part_beyond Number_of_other s i :
  (length (split_on 46 s) <= i)%nat -> part Number_of_other s i = zero.
Proof.
  intros H. unfold part.
  by rewrite lookup_ge_None_2 by (by rewrite length_map).
Qed.

(** X9: [isHigherVersion] is a strict weak order on all strings: of two
    versions one is higher, or the other is, or at every index neither part
    is below the other (parts are read as [parts[i] || 0]), and no two of
    the three hold together. *)
Theorem isHigherVersion_weak_order Number_of_other a b :
  (isHigherVersion Number_of_other a b = true
   \/ isHigherVersion Number_of_other b a = true
   \/ forall i, same (part Number_of_other a i) (part Number_of_other b i))
  /\ ~ (isHigherVersion Number_of_other a b = true
        /\ isHigherVersion Number_of_other b a = true)
  /\ ~ (isHigherVersion Number_of_other a b = true
        /\ forall i, same (part Number_of_other a i) (part Number_of_other b i))
  /\ ~ (isHigherVersion Number_of_other b a = true
        /\ forall i, same (part Number_of_other a i) (part Number_of_other b i)).
Proof.
  set (pa := part Number_of_other a). set (pb := part Number_of_other b).
  set (n := Nat.max (length (split_on 46 a)) (length (split_on 46 b))).
  split; [|split; [|split]].
  - destruct (first_unlike
                (fun i => negb (lt_number (pa i) (pb i)) && negb (lt_number (pb i) (pa i))) n)
      as [Hall|(k & Hk & Hj & Hp)].
    + right. right. intros i. destruct (decide (i < n)%nat) as [Hi|Hi].
      * specialize (Hall i Hi). apply andb_true_iff in Hall as [H1 H2].
        split; [by destruct (lt_number (pa i) (pb i))|by destruct (lt_number (pb i) (pa i))].
      * unfold pa, pb. rewrite !part_beyond by (unfold n in Hi; lia).
        split; apply lt_number_irrefl.
    + assert (Hs : forall j, (j < k)%nat -> same (pa j) (pb j)).
      { intros j Hjk. specialize (Hj j Hjk). apply andb_true_iff in Hj as [H1 H2].
        split; [by destruct (lt_number (pa j) (pb j))|by destruct (lt_number (pb j) (pa j))]. }
      apply andb_false_iff in Hp as [Hp|Hp]; apply negb_false_iff in Hp.
      * right. left. apply isHigherVersion_spec. exists k. split; [|done].
        intros j Hjk. destruct (Hs j Hjk). by split.
      * left. apply isHigherVersion_spec. exists k. by split.
  - intros [H1 H2].
    pose proof (isHigherVersion_trans _ _ _ _ H1 H2) as H.
    by rewrite isHigherVersion_irrefl in H.
  - subst pa pb. intros [H Hs]. apply isHigherVersion_spec in H as (k & _ & Hl).
    destruct (Hs k) as [_ H']. congruence.
  - subst pa pb. intros [H Hs]. apply isHigherVersion_spec in H as (k & _ & Hl).
    destruct (Hs k) as [H' _]. congruence.
Qed.

Lemma isHigherVersion_weak_order_witness :
  isHigherVersion nan_elsewhere (lit "1.2.0") (lit "1.1.9") = true
  \/ isHigherVersion nan_elsewhere (lit "1.1.9") (lit "1.2.0") = true
  \/ forall i, same (part nan_elsewhere (lit "1.2.0") i)
                 (part nan_elsewhere (lit "1.1.9") i).
Proof.
  exact (proj1 (isHigherVersion_weak_order nan_elsewhere (lit "1.2.0") (lit "1.1.9"))).
Defined.

(** ** The date of the clock *)

Lemma year_value y : 1000 <= y <= 9999 -> decimal_value 0 (String_of_N y) = y.
Proof.
  intros Hy. apply N.eqb_eq.
  apply (range_by_cases (fun y => decimal_value 0 (String_of_N y) =? y) 1000 9000);
    [vm_compute; reflexivity|lia].
Qed.

Lemma two_digits_value n :
  n <= 99 -> decimal_value 0 (pad_start 2 48 (String_of_N n)) = n.
Proof.
  intros Hn. apply N.eqb_eq.
  apply (range_by_cases
           (fun n => decimal_value 0 (pad_start 2 48 (String_of_N n)) =? n) 0 100);
    [vm_compute; reflexivity|lia].
Qed.

Lemma all_digits_intro n s : digits_exactly n s = Some [] -> all_digits n s = true.
Proof. unfold all_digits. by intros ->. Qed.

(** X10: with the date absent, or the empty string, the date of the release
    header is read from the clock: for a year of four digits it is the
    year, the month counted from 1 and the day, written with four, two and
    two digits (zeros in front) and a hyphen between them. *)
Theorem date_of_the_clock now :
  plausible now = true ->
  exists yyyy mm dd,
    date_string now None = yyyy ++ 45 :: mm ++ 45 :: dd
    /\ date_string now (Some []) = yyyy ++ 45 :: mm ++ 45 :: dd
    /\ all_digits 4 yyyy = true /\ decimal_value 0 yyyy = getFullYear now
    /\ all_digits 2 mm = true /\ decimal_value 0 mm = getMonth now + 1
    /\ all_digits 2 dd = true /\ decimal_value 0 dd = getDate now.
Proof.
  unfold plausible. rewrite !andb_true_iff, !N.leb_le.
  intros ((((Hy1 & Hy2) & Hm) & Hd1) & Hd2).
  exists (String_of_N (getFullYear now)),
         (pad_start 2 48 (String_of_N (getMonth now + 1))),
         (pad_start 2 48 (String_of_N (getDate now))).
  do 2 (split; [reflexivity|]).
  split; [by apply all_digits_intro, year_digits|].
  split; [by apply year_value|].
  split; [apply all_digits_intro, two_digits; lia|].
  split; [apply two_digits_value; lia|].
  split; [apply all_digits_intro, two_digits; lia|].
  apply two_digits_value; lia.
Qed.

Lemma date_of_the_clock_witness :
  exists yyyy mm dd,
    date_string a_clock None = yyyy ++ 45 :: mm ++ 45 :: dd
    /\ date_string a_clock (Some []) = yyyy ++ 45 :: mm ++ 45 :: dd
    /\ all_digits 4 yyyy = true /\ decimal_value 0 yyyy = getFullYear a_clock
    /\ all_digits 2 mm = true /\ decimal_value 0 mm = getMonth a_clock + 1
    /\ all_digits 2 dd = true /\ decimal_value 0 dd = getDate a_clock.
Proof. apply (date_of_the_clock a_clock). reflexivity. Defined.

(** ** Documents with CR LF line ends *)

Lemma crlf_from_marker prev a rest :
  crlf_from prev (a ++ 93 :: LF :: rest) = false.
Proof.
  revert prev; induction a as [|c a IH]; intros prev.
  - cbn [app crlf_from]. rewrite andb_false_iff. right. done.
  - cbn [app crlf_from]. rewrite IH. apply andb_false_r.
Qed.

Lemma crlf_no_marker doc : crlf doc = true -> pending_is_last doc.
Proof.
  intros H pre rest ->. exfalso.
  change marker with (lit "## [Unreleased" ++ 93 :: [LF]) in H.
  rewrite <- app_assoc, app_assoc in H. cbn [app] in H.
  unfold crlf in H. by rewrite crlf_from_marker in H.
Qed.

(** X11: a document whose line ends are all CR LF is never rebuilt: the
    marker line of the pending-section expression ends with a line feed
    directly after the bracket, so every call raises an error, the
    structure error wherever the version checks pass. *)
Theorem crlf_is_refused Number_of_other now doc v date :
  crlf doc = true ->
  processChangelog Number_of_other now doc v date
  = match getFirstVersionHeader doc with
    | Some current =>
        if isHigherVersion Number_of_other v current
        then Throws could_not_find
        else Throws (not_higher (86 :: v) current)
    | None => Throws could_not_find
    end.
Proof.
  intros H. apply crlf_no_marker, (find_unreleased_last 0) in H.
  by rewrite processChangelog_checks, rebuild_located, H.
Qed.

Lemma crlf_is_refused_witness :
  crlf crlf_changelog = true
  /\ processChangelog nan_elsewhere a_clock crlf_changelog (lit "1.0.2") None
     = Throws could_not_find.
Proof.
  split; [reflexivity|].
  exact (crlf_is_refused nan_elsewhere a_clock crlf_changelog (lit "1.0.2") None
           eq_refl).
Defined.

(** ** The extent of the captured block *)

Lemma last_cons_next (c : N) l d : List.last (c :: l) d = List.last l c.
Proof.
  destruct l as [|b l]; [done|].
  change (List.last (b :: l) d = List.last (b :: l) c). apply last_cons_any.
Qed.

Lemma lazy_to_header_minimal prev s k :
  lazy_to_header prev s = Some k ->
  forall b1 b2 post,
    s = b1 ++ b2 ++ post -> length (b1 ++ b2) = k -> b2 <> [] ->
    is_line_terminator (List.last b1 prev) = true ->
    starts_with top_level (b2 ++ post) = false.
Proof.
  revert prev k; induction s as [|c s IH]; intros prev k; cbn [lazy_to_header].
  - intros _ b1 b2 post E _ Hb2. symmetry in E.
    apply app_eq_nil in E as [_ E]. by apply app_eq_nil in E as [-> _].
  - destruct (is_line_terminator prev && starts_with top_level (c :: s)) eqn:Eh.
    + intros [= <-] b1 b2 post _ Hl Hb2. rewrite length_app in Hl.
      destruct b2; [done|]. simpl in Hl. lia.
    + destruct (lazy_to_header c s) as [k'|] eqn:Ek; [|done].
      intros [= <-] b1 b2 post E Hl Hb2 Hp. destruct b1 as [|c' b1].
      * cbn [app] in E. cbn [List.last] in Hp. rewrite Hp in Eh.
        by rewrite <- E.
      * cbn [app] in E. apply cons_eq_inv in E as [<- E].
        rewrite last_cons_next in Hp. cbn [app length] in Hl.
        apply (IH c k' Ek b1 b2 post E); [lia|done|done].
Qed.

Lemma first_marker pre X n a b :
  find_unreleased 0 (pre ++ marker ++ X) = Some (length pre, n) ->
  pre ++ marker ++ X = a ++ marker ++ b ->
  (length pre <= length a)%nat.
Proof.
  intros Hf E.
  destruct (decide (length a < length pre)%nat) as [Hl|Hl]; [|lia]. exfalso.
  apply (find_unreleased_first 0 pre) in Hf as [Hhere Hbefore].
  specialize (Hbefore (length a) Hl).
  apply (f_equal (drop (length a))) in E.
  rewrite drop_app_length, drop_app_le in E by lia.
  assert (Hy : drop (length a) pre <> []).
  { intros Hy. apply (f_equal length) in Hy. rewrite length_drop in Hy.
    simpl in Hy. lia. }
  pose proof (marker_not_before _ _ _ Hy Hhere Hbefore) as Hs.
  by rewrite E, strip_prefix_app in Hs.
Qed.

(** X12: the extent of the captured block.  On success it begins at the
    first place of the document where the text of the marker line stands,
    and it ends before the first later line that begins with [## ]: no
    place inside it, at the start of a line, begins with these units. *)
Theorem captured_block_extent Number_of_other now doc v date updated :
  processChangelog Number_of_other now doc v date = Returns updated ->
  exists pre body post,
    doc = pre ++ (marker ++ body) ++ post
    /\ updated =
         pre ++ newUnreleasedSection ++ [LF]
         ++ newReleaseSection (86 :: v) (date_string now date)
              (extract_content (marker ++ body))
         ++ post
    /\ (forall a b, doc = a ++ marker ++ b -> (length pre <= length a)%nat)
    /\ starts_with top_level post = true
    /\ is_line_terminator (List.last body LF) = true
    /\ forall b1 b2,
         body = b1 ++ b2 -> b2 <> [] ->
         is_line_terminator (List.last b1 LF) = true ->
         starts_with top_level (b2 ++ post) = false.
Proof.
  intros H.
  apply processChangelog_splice in H as (pre & body & post & Edoc & Hpost & Hf & Eupd).
  exists pre, body, post. do 2 (split; [done|]).
  rewrite Edoc, <- app_assoc in Hf.
  split; [intros a b E; apply (first_marker pre (body ++ post) _ a b Hf);
          by rewrite <- E, Edoc, <- app_assoc|].
  split; [done|].
  apply (find_unreleased_first 0 pre) in Hf as [Hhere _].
  unfold match_unreleased_here in Hhere. rewrite strip_prefix_app in Hhere.
  cbn [mbind option_bind] in Hhere.
  destruct (lazy_to_header LF (body ++ post)) as [k|] eqn:Ek; [|done].
  cbn [mbind option_bind] in Hhere.
  assert (Hk : (length marker + k)%nat = length (marker ++ body)) by congruence.
  rewrite length_app in Hk.
  assert (Hkb : k = length body) by lia. subst k.
  split.
  - apply lazy_to_header_Some in Ek as (body' & post' & E & Hl & _ & Hlast).
    apply app_inj_1 in E as [-> _]; done.
  - intros b1 b2 -> Hb2 Hp.
    apply (lazy_to_header_minimal LF _ _ Ek b1 b2 post); [by rewrite <- app_assoc|done..].
Qed.

Lemma captured_block_extent_witness :
  exists updated pre body post,
    processChangelog nan_elsewhere a_clock sampleChangelog (lit "1.0.2")
      (Some (lit "2025-02-19")) = Returns updated
    /\ sampleChangelog = pre ++ (marker ++ body) ++ post
    /\ starts_with top_level post = true
    /\ is_line_terminator (List.last body LF) = true.
Proof.
  destruct sample_succeeds as [updated H].
  destruct (captured_block_extent _ _ _ _ _ _ H)
    as (pre & body & post & E & _ & _ & Hp & Hl & _).
  exists updated, pre, body, post.
  split; [exact H|]. split; [exact E|]. split; [exact Hp|exact Hl].
Defined.

(** ** What the tests of the repository assert *)

Lemma includes_app_l x a b : includes x a = true -> includes x (a ++ b) = true.
Proof.
  rewrite !includes_spec. intros (a1 & a2 & ->). exists a1, (a2 ++ b).
  by rewrite <- !app_assoc.
Qed.

Lemma includes_app_r x a b : includes x b = true -> includes x (a ++ b) = true.
Proof.
  rewrite !includes_spec. intros (b1 & b2 & ->). exists (a ++ b1), b2.
  by rewrite <- !app_assoc.
Qed.

Lemma includes_here x b : includes x (x ++ b) = true.
Proof. apply includes_spec. by exists [], b. Qed.

Lemma includes_subsection content c cats :
  c ∈ cats ->
  includes (bullets_of content c)
    (concat (map (fun c => subsection c (bullets_of content c))
               (filter (fun c => bullets_of content c <> []) cats))) = true.
Proof.
  intros Hc. destruct (decide (bullets_of content c = [])) as [->|Hne].
  { apply (includes_here []). }
  assert (Hf : c ∈ filter (fun c => bullets_of content c <> []) cats)
    by (by apply list_elem_of_filter).
  apply list_elem_of_split in Hf as (l1 & l2 & ->).
  rewrite map_app, concat_app. apply includes_app_r. cbn [map concat].
  apply includes_app_l. unfold subsection.
  rewrite (app_assoc (lit "### ")), (app_assoc _ [LF; LF]).
  apply includes_app_r, includes_here.
Qed.

(** X13: what the first test of the repository asserts on its sample holds
    for every call that returns: the output includes the header
    [## [V<version>] - <date>], the expected reset section (trimmed), the
    bullets extracted for every category, and every text that the document
    held before or after the captured block, the older release headers
    among them. *)
Theorem assertions_of_the_update_test Number_of_other now doc v date updated :
  processChangelog Number_of_other now doc v date = Returns updated ->
  includes (lit "## [V" ++ v ++ lit "] - " ++ date_string now date) updated = true
  /\ includes (trim unreleasedSectionExpected) updated = true
  /\ exists pre body post,
       doc = pre ++ (marker ++ body) ++ post
       /\ (forall c, c ∈ categories ->
             includes (bullets_of (extract_content (marker ++ body)) c) updated
             = true)
       /\ forall x,
            includes x pre = true \/ includes x post = true ->
            includes x updated = true.
Proof.
  intros H.
  apply processChangelog_splice in H as (pre & body & post & Edoc & _ & _ & ->).
  rewrite newUnreleasedSection_text, newReleaseSection_subsections.
  split; [|split].
  - apply includes_app_r, includes_app_r, includes_app_r, includes_app_l, includes_app_l.
    apply includes_spec. exists [], [LF; LF]. unfold release_header.
    change (lit "## [V") with (lit "## [" ++ [86]).
    cbn [app]. by rewrite <- !app_assoc.
  - apply includes_app_r, includes_app_l.
    change reset_text with (trim unreleasedSectionExpected ++ [LF; LF]).
    apply includes_here.
  - exists pre, body, post. split; [done|]. split.
    + intros c Hc.
      apply includes_app_r, includes_app_r, includes_app_r, includes_app_l, includes_app_r.
      by apply includes_subsection.
    + intros x [Hx|Hx]; [by apply includes_app_l|].
      by apply includes_app_r, includes_app_r, includes_app_r, includes_app_r.
Qed.

Lemma assertions_of_the_update_test_witness :
  exists updated,
    processChangelog nan_elsewhere a_clock sampleChangelog (lit "1.0.2")
      (Some (lit "2025-02-19")) = Returns updated
    /\ includes (lit "## [V1.0.2] - 2025-02-19") updated = true
    /\ includes (trim unreleasedSectionExpected) updated = true.
Proof.
  destruct sample_succeeds as [updated H]. exists updated.
  destruct (assertions_of_the_update_test _ _ _ _ _ _ H) as (H1 & H2 & _).
  split; [exact H|]. split; [exact H1|exact H2].
Defined.

(** ** The extracted content *)

Lemma foldl_insert_lookup (l : list (list N)) (m : gmap (list N) (list N)) name :
  foldl (fun m category => <[category := []]> m) m l !! name
  = if bool_decide (name ∈ l) then Some [] else m !! name.
Proof.
  revert m; induction l as [|c l IH]; intros m; [done|].
  cbn [foldl]. rewrite IH.
  destruct (decide (name ∈ l)) as [Hl|Hl].
  - rewrite !bool_decide_eq_true_2; [done|by apply elem_of_cons; right|done].
  - rewrite (bool_decide_eq_false_2 (name ∈ l)) by done.
    destruct (decide (name = c)) as [->|Hc].
    + rewrite bool_decide_eq_true_2 by (apply elem_of_cons; by left). apply lookup_insert_eq.
    + rewrite bool_decide_eq_false_2 by (by apply not_elem_of_cons).
      by apply lookup_insert_ne.
Qed.

Lemma walk_line_invariant st line :
  walk_invariant st -> walk_invariant (walk_line st line).
Proof.
  destruct st as [cur m]. intros [Hk Hc]. unfold walk_line.
  rewrite category_header_name.
  destruct (header_name line) as [name|] eqn:E.
  - destruct (decide (name ∈ categories)) as [Hin|Hout].
    + rewrite bool_decide_eq_true_2 by done. split; [done|]. by intros c [= <-].
    + rewrite bool_decide_eq_false_2 by done.
      destruct cur as [c|]; [|done]. destruct (truthy (Some c)); [|done].
      split; [|done]. intros name'. cbn [snd].
      rewrite lookup_insert_is_Some, <- Hk.
      split; [intros [<-|[_ H]]; [by apply Hk, Hc|done]|].
      intros H. destruct (decide (c = name')); [by left|by right].
  - destruct cur as [c|]; [|done]. destruct (truthy (Some c)); [|done].
    split; [|done]. intros name'. cbn [snd].
    rewrite lookup_insert_is_Some, <- Hk.
    split; [intros [<-|[_ H]]; [by apply Hk, Hc|done]|].
    intros H. destruct (decide (c = name')); [by left|by right].
Qed.

Lemma walk_invariant_start : walk_invariant (None, empty_content).
Proof.
  split; [|done]. intros name. cbn [snd]. unfold empty_content.
  rewrite foldl_insert_lookup.
  destruct (decide (name ∈ categories)) as [H|H].
  - by rewrite bool_decide_eq_true_2.
  - rewrite bool_decide_eq_false_2 by done. rewrite lookup_empty.
    split; [by intros [? ?]|done].
Qed.

Lemma walk_invariant_run lines st :
  walk_invariant st -> walk_invariant (foldl walk_line st lines).
Proof.
  revert st; induction lines as [|line lines IH]; intros st H; [done|].
  cbn [foldl]. by apply IH, walk_line_invariant.
Qed.

Lemma trim_clean b :
  stops is_space b -> stops is_space (rev b) -> trim b = b.
Proof.
  intros H1 H2. unfold trim.
  by rewrite (drop_while_stops _ b), (drop_while_stops _ (rev b)), rev_involutive.
Qed.

Lemma trim_idempotent s : trim (trim s) = trim s.
Proof.
  destruct (trim_spec s) as (l & r & _ & _ & _ & H1 & H2). by apply trim_clean.
Qed.

(** X14: the extracted content has the six categories as its keys, whatever
    the block: every category has an entry, a trimmed text, and no other
    name has one, so that no subsection outside the list can be written. *)
Theorem extract_content_keys block name :
  (is_Some (extract_content block !! name) <-> name ∈ categories)
  /\ forall bullets,
       extract_content block !! name = Some bullets ->
       trim bullets = bullets.
Proof.
  unfold extract_content. rewrite lookup_fmap. split.
  - rewrite fmap_is_Some.
    apply (walk_invariant_run (split_on LF block) _ walk_invariant_start).
  - intros bullets H. apply fmap_Some in H as (buffer & _ & ->).
    apply trim_idempotent.
Qed.

Lemma extract_content_keys_witness :
  is_Some (extract_content (lit "### Added") !! lit "Fixed")
  /\ ~ is_Some (extract_content (lit "### Added") !! lit "Other").
Proof.
  split.
  - apply (proj1 (extract_content_keys (lit "### Added") (lit "Fixed"))).
    apply (bool_decide_unpack _). vm_compute. exact I.
  - intros H.
    apply (proj1 (extract_content_keys (lit "### Added") (lit "Other"))) in H.
    revert H. apply (bool_decide_unpack _). vm_compute. exact I.
Defined.

(** ** The lines before the first category *)

Lemma split_on_unlines lines rest :
  Forall (fun line => LF ∉ line) lines ->
  split_on LF (unlines lines ++ rest) = lines ++ split_on LF rest.
Proof.
  induction 1 as [|line lines Hl _ IH]; [done|].
  unfold unlines in *. cbn [map concat].
  rewrite <- !app_assoc. cbn [app].
  by rewrite split_on_app, split_on_one, IH.
Qed.

Lemma walk_line_outside m line :
  category_header line = None -> walk_line (None, m) line = (None, m).
Proof. intros H. unfold walk_line. by rewrite H. Qed.

Lemma walk_outside m lines rest :
  Forall (fun line => category_header line = None) lines ->
  foldl walk_line (None, m) (lines ++ rest) = foldl walk_line (None, m) rest.
Proof.
  induction 1 as [|line lines Hl _ IH]; [done|].
  cbn [app foldl]. by rewrite walk_line_outside.
Qed.

Lemma marker_line : marker = unlines [lit "## [Unreleased]"].
Proof. reflexivity. Qed.

Lemma extract_content_lead lines rest :
  Forall (fun line => (LF ∉ line) /\ category_header line = None) lines ->
  extract_content (marker ++ unlines lines ++ rest) = extract_content rest.
Proof.
  intros Hl. unfold extract_content. rewrite marker_line, app_assoc.
  change (unlines [lit "## [Unreleased]"] ++ unlines lines)
    with (unlines (lit "## [Unreleased]" :: lines)).
  rewrite split_on_unlines.
  - rewrite walk_outside; [done|].
    constructor; [reflexivity|]. eapply Forall_impl; [exact Hl|]. by intros ? [_ ?].
  - constructor.
    + apply (bool_decide_unpack _). vm_compute. exact I.
    + eapply Forall_impl; [exact Hl|]. by intros ? [? _].
Qed.

(** X15: what stands in the pending block before its first category header
    is lost.  The marker line and the lines that follow it up to the first
    category header are dropped by the walk: the content extracted from the
    block is the content extracted from the rest of it, and the release
    section is built from that alone. *)
Theorem lines_before_the_first_category_are_lost lines rest newVersion dateStr :
  Forall (fun line => (LF ∉ line) /\ category_header line = None) lines ->
  extract_content (marker ++ unlines lines ++ rest) = extract_content rest
  /\ newReleaseSection newVersion dateStr
       (extract_content (marker ++ unlines lines ++ rest))
     = newReleaseSection newVersion dateStr (extract_content rest).
Proof.
  intros Hl. split; [by apply extract_content_lead|].
  by rewrite extract_content_lead.
Qed.

Lemma lines_before_the_first_category_are_lost_witness :
  extract_content
    (marker ++ unlines [lit "- a bullet under no category"]
     ++ unlines [lit "### Added"; lit "- kept"])
  = extract_content (unlines [lit "### Added"; lit "- kept"]).
Proof.
  refine (proj1 (lines_before_the_first_category_are_lost
                   [lit "- a bullet under no category"]
                   (unlines [lit "### Added"; lit "- kept"]) [] [] _)).
  constructor; [|constructor]. split; [|reflexivity].
  apply (bool_decide_unpack _). vm_compute. exact I.
Defined.

(** ** A release section read as a pending block *)

Lemma unlines_split_on s : unlines (split_on LF s) = s ++ [LF].
Proof.
  induction s as [|c s IH]; [done|]. cbn [split_on].
  destruct (N.eqb_spec c LF) as [->|Hc].
  - unfold unlines in *. cbn [map concat app]. by rewrite IH.
  - destruct (split_on_cons LF s) as (piece & pieces & E). rewrite E in IH |- *.
    unfold unlines in *. cbn [map concat app] in IH |- *. by rewrite IH.
Qed.

Lemma walk_plain c m x lines more :
  truthy (Some c) = true -> m !! c = Some x ->
  Forall (fun line => category_header line = None) lines ->
  foldl walk_line (Some c, m) (lines ++ more)
  = foldl walk_line (Some c, <[c := x ++ unlines lines]> m) more.
Proof.
  intros Hc Hm Hl. revert m x Hm; induction Hl as [|line lines Hl _ IH]; intros m x Hm.
  - cbn [app]. unfold unlines. cbn [map concat]. by rewrite app_nil_r, insert_id.
  - cbn [app foldl]. unfold walk_line at 2. rewrite Hl, Hc, Hm. cbn [default].
    rewrite (IH _ (x ++ line ++ [LF])) by apply lookup_insert_eq.
    rewrite insert_insert_eq. unfold unlines. cbn [map concat].
    by rewrite <- !app_assoc.
Qed.

Lemma header_of_category c :
  c ∈ categories ->
  category_header (lit "### " ++ c) = Some c /\ (LF ∉ lit "### " ++ c)
  /\ truthy (Some c) = true.
Proof.
  intros H. apply categories_named in H as [k ->].
  destruct k; (split; [vm_compute; reflexivity|]);
    (split; [apply (bool_decide_unpack _); vm_compute; exact I|reflexivity]).
Qed.

Lemma walk_subsection cur m c old b rest :
  c ∈ categories -> m !! c = Some old ->
  Forall (fun line => category_header line = None) (split_on LF b) ->
  foldl walk_line (cur, m) (split_on LF (subsection c b ++ rest))
  = foldl walk_line (Some c, <[c := old ++ LF :: b ++ [LF; LF]]> m)
      (split_on LF rest).
Proof.
  intros Hc Hm Hb. destruct (header_of_category c Hc) as (Hh & Hlf & Ht).
  unfold subsection.
  replace ((lit "### " ++ c ++ [LF; LF] ++ b ++ [LF; LF]) ++ rest)
    with ((lit "### " ++ c) ++ LF :: ([] ++ LF :: (b ++ LF :: ([] ++ LF :: rest))))
    by (cbn [app]; by repeat (rewrite <- app_assoc; cbn [app])).
  rewrite !split_on_app, split_on_one by done.
  cbn [app foldl split_on]. unfold walk_line at 3. rewrite Hh.
  unfold walk_line at 2.
  change (category_header []) with (@None (list N)). rewrite Ht, Hm. cbn [default app].
  rewrite (walk_plain c _ (old ++ [LF])); [|done|apply lookup_insert_eq|done].
  rewrite insert_insert_eq, unlines_split_on. cbn [foldl].
  unfold walk_line at 2.
  change (category_header []) with (@None (list N)).
  rewrite Ht, lookup_insert_eq. cbn [default app].
  rewrite insert_insert_eq. unfold id.
  by repeat (rewrite <- app_assoc; cbn [app]).
Qed.

Lemma walk_subsections (f : list N -> list N) cs rest cur m :
  NoDup cs ->
  (forall c, c ∈ cs ->
     c ∈ categories
     /\ Forall (fun line => category_header line = None) (split_on LF (f c))) ->
  (forall c, c ∈ cs -> is_Some (m !! c)) ->
  exists cur' m',
    foldl walk_line (cur, m)
      (split_on LF (concat (map (fun c => subsection c (f c)) cs) ++ rest))
    = foldl walk_line (cur', m') (split_on LF rest)
    /\ forall c,
         m' !! c
         = if bool_decide (c ∈ cs)
           then (fun old => old ++ LF :: f c ++ [LF; LF]) <$> m !! c
           else m !! c.
Proof.
  revert cur m; induction cs as [|c cs IH]; intros cur m Hnd Hcs Hm.
  - exists cur, m. split; [done|]. intros c.
    rewrite bool_decide_eq_false_2; [done|]. apply not_elem_of_nil.
  - apply NoDup_cons in Hnd as [Hc Hnd].
    destruct (Hcs c) as [Hcat Hplain]; [apply elem_of_cons; by left|].
    destruct (Hm c) as [old Hold]; [apply elem_of_cons; by left|].
    cbn [map concat]. rewrite <- app_assoc.
    rewrite (walk_subsection _ _ _ old) by done.
    destruct (IH (Some c) (<[c := old ++ LF :: f c ++ [LF; LF]]> m) Hnd)
      as (cur' & m' & E & Hl).
    { intros c' H'. apply Hcs, elem_of_cons. by right. }
    { intros c' H'. apply lookup_insert_is_Some'. right.
      apply Hm, elem_of_cons. by right. }
    exists cur', m'. split; [done|]. intros c'. rewrite Hl.
    destruct (decide (c' = c)) as [->|Hne].
    + rewrite (bool_decide_eq_false_2 (c ∈ cs)) by done.
      rewrite (bool_decide_eq_true_2 (c ∈ c :: cs)) by (apply elem_of_cons; by left).
      by rewrite lookup_insert_eq, Hold.
    + rewrite lookup_insert_ne by done.
      destruct (decide (c' ∈ cs)) as [Hin|Hout].
      * rewrite !bool_decide_eq_true_2; [done|apply elem_of_cons; by right|done].
      * rewrite !bool_decide_eq_false_2; [done| |done].
        rewrite elem_of_cons. by intros [?|?].
Qed.

Lemma drop_while_all f s : forallb f s = true -> drop_while f s = [].
Proof. intros H. rewrite <- (app_nil_r s). by apply drop_while_app. Qed.

Lemma trim_pad l b r :
  forallb is_space l = true -> forallb is_space r = true -> trim b = b ->
  trim (l ++ b ++ r) = b.
Proof.
  intros Hl Hr Hb. destruct b as [|c b].
  - unfold trim. cbn [app]. rewrite (drop_while_all _ (l ++ r)); [done|].
    by rewrite forallb_app, Hl, Hr.
  - destruct (trim_spec (c :: b)) as (_ & _ & _ & _ & _ & H1 & H2).
    rewrite Hb in H1, H2. unfold trim.
    rewrite (drop_while_app _ l) by done.
    rewrite rev_app_distr, drop_while_app by (by rewrite ?forallb_rev).
    apply rev_involutive.
Qed.

Lemma subsections_ext (g h : list N -> list N) (l : list (list N)) :
  (forall c, c ∈ l -> g c = h c) ->
  concat (map (fun c => subsection c (g c)) (filter (fun c => g c <> []) l))
  = concat (map (fun c => subsection c (h c)) (filter (fun c => h c <> []) l)).
Proof.
  induction l as [|c l IH]; intros H; [done|].
  assert (Hc : g c = h c) by (apply H, elem_of_cons; by left).
  assert (IH' := IH (fun c' H' => H c' (proj2 (elem_of_cons l c' c) (or_intror H')))).
  rewrite !filter_cons. rewrite <- Hc.
  destruct (decide (g c <> [])); [|done].
  cbn [map concat]. by rewrite IH', Hc.
Qed.

Lemma empty_content_category c : c ∈ categories -> empty_content !! c = Some [].
Proof.
  intros H. unfold empty_content.
  by rewrite foldl_insert_lookup, bool_decide_eq_true_2.
Qed.

Lemma extract_subsections content c :
  (forall c, c ∈ categories -> plain_bullets (bullets_of content c)) ->
  c ∈ categories ->
  bullets_of (extract_content (subsections content)) c = bullets_of content c.
Proof.
  intros Hplain Hc.
  set (f := bullets_of content).
  set (cs := filter (fun c => f c <> []) categories).
  assert (Hnd : NoDup cs).
  { apply NoDup_filter. apply (bool_decide_unpack _). vm_compute. exact I. }
  destruct (walk_subsections f cs [] None empty_content Hnd)
    as (cur' & m' & E & Hl).
  { intros c' H'. apply list_elem_of_filter in H' as [_ H'].
    split; [done|]. by apply Hplain. }
  { intros c' H'. apply list_elem_of_filter in H' as [_ H'].
    rewrite empty_content_category by done. by eexists. }
  assert (Hbuf : exists l r,
             snd (walk_line (cur', m') []) !! c = Some (l ++ f c ++ r)
             /\ forallb is_space l = true /\ forallb is_space r = true).
  { assert (Hm' : exists l r, m' !! c = Some (l ++ f c ++ r)
                    /\ forallb is_space l = true /\ forallb is_space r = true).
    { rewrite Hl, empty_content_category by done.
      destruct (decide (c ∈ cs)) as [Hin|Hout].
      - rewrite bool_decide_eq_true_2 by done. by exists [LF], [LF; LF].
      - rewrite bool_decide_eq_false_2 by done. exists [], [].
        destruct (decide (f c = [])) as [->|Hne]; [done|].
        destruct Hout. by apply list_elem_of_filter. }
    destruct Hm' as (l & r & Hm' & Hsl & Hsr).
    unfold walk_line. change (category_header []) with (@None (list N)).
    destruct (truthy cur'); [|by exists l, r].
    destruct cur' as [k|]; [|by exists l, r]. cbn [snd].
    destruct (decide (k = c)) as [->|Hne].
    - rewrite lookup_insert_eq, Hm'. cbn [default]. unfold id.
      exists l, (r ++ [LF]). split; [by rewrite <- !app_assoc|].
      split; [done|]. by rewrite forallb_app, Hsr.
    - rewrite lookup_insert_ne by done. by exists l, r. }
  destruct Hbuf as (l & r & Hbuf & Hsl & Hsr).
  unfold bullets_of at 1, extract_content, subsections. fold f. fold cs.
  rewrite <- (app_nil_r (concat _)), E. cbn [split_on foldl].
  rewrite lookup_fmap, Hbuf. cbn [fmap option_fmap option_map default]. unfold id.
  apply trim_pad; [done|done|]. by apply Hplain.
Qed.

(** X16: the layout that the release section is written in is read back by
    the walk.  A pending block made of the marker line, a blank line and the
    subsections that [newReleaseSection] writes for a content (trimmed
    bullets, none of whose lines is a category header) gives that content
    back, and the release section written from it carries the same
    subsections, unit for unit. *)
Theorem subsections_are_read_back content newVersion dateStr :
  (forall c, c ∈ categories -> plain_bullets (bullets_of content c)) ->
  (forall c, c ∈ categories ->
     bullets_of (extract_content (marker ++ LF :: subsections content)) c
     = bullets_of content c)
  /\ newReleaseSection newVersion dateStr
       (extract_content (marker ++ LF :: subsections content))
     = release_header newVersion dateStr ++ subsections content.
Proof.
  intros Hplain.
  assert (E : extract_content (marker ++ LF :: subsections content)
              = extract_content (subsections content)).
  { apply (extract_content_lead [[]]). constructor; [|constructor].
    split; [apply not_elem_of_nil|reflexivity]. }
  rewrite E. split; [intros c Hc; by apply extract_subsections|].
  rewrite newReleaseSection_subsections. f_equal. unfold subsections.
  apply subsections_ext. intros c Hc. by apply extract_subsections.
Qed.

Lemma subsections_are_read_back_witness :
  newReleaseSection (lit "V1.0.2") (lit "2025-02-19")
    (extract_content (marker ++ LF :: subsections sample_content))
  = release_header (lit "V1.0.2") (lit "2025-02-19") ++ subsections sample_content.
Proof.
  refine (proj2 (subsections_are_read_back sample_content (lit "V1.0.2")
                   (lit "2025-02-19") _)).
  intros c Hc. apply categories_named in Hc as [k ->].
  destruct k;
    (split; [vm_compute; reflexivity|apply (bool_decide_unpack _); vm_compute; exact I]).
Defined.

(** ** A run on the output of a run *)

Lemma header_line_after_reset rest :
  header_line_in LF (drop (length marker) reset_text ++ LF :: top_level ++ rest).
Proof.
  apply header_line_from_spec.
  destruct (header_line_from LF _) eqn:E; [done|].
  assert (Hn : ~ header_line_in LF
                   (drop (length marker) reset_text ++ LF :: top_level ++ rest)).
  { intros Hh. apply header_line_from_spec in Hh. congruence. }
  apply lazy_to_header_None in Hn. by rewrite lazy_to_header_reset in Hn.
Qed.

(** X17: the output of a run always holds a pending section that a further
    run captures: whatever the target, the date, the clock and the reading
    of Numbers, a run on the output returns, or raises the version conflict
    against a located release header; it never raises the structure
    error. *)
Theorem output_is_processed_again
    Number_of_other now doc v date updated Number_of_other' now' v' date' :
  processChangelog Number_of_other now doc v date = Returns updated ->
  (exists updated',
     processChangelog Number_of_other' now' updated v' date' = Returns updated')
  \/ exists current,
       getFirstVersionHeader updated = Some current
       /\ isHigherVersion Number_of_other' v' current = false
       /\ processChangelog Number_of_other' now' updated v' date'
          = Throws (not_higher (86 :: v') current).
Proof.
  intros H.
  apply processChangelog_splice in H as (pre & body & post & _ & _ & _ & Eupd).
  rewrite newUnreleasedSection_text, newReleaseSection_subsections,
    release_header_top in Eupd.
  assert (Hf : find_unreleased 0 updated <> None).
  { rewrite Eupd.
    change (reset_text ++ [LF] ++ ?x)
      with (marker ++ drop (length marker) reset_text ++ LF :: x).
    apply find_unreleased_found. rewrite <- !app_assoc.
    apply header_line_after_reset. }
  rewrite processChangelog_checks, rebuild_located.
  destruct (find_unreleased 0 updated) as [[index n]|]; [|done].
  destruct (getFirstVersionHeader updated) as [current|]; [|left; by eexists].
  destruct (isHigherVersion Number_of_other' v' current) eqn:Eh;
    [left; by eexists|right; by exists current].
Qed.

Lemma output_is_processed_again_witness :
  exists updated,
    processChangelog nan_elsewhere a_clock sampleChangelog (lit "1.0.2")
      (Some (lit "2025-02-19")) = Returns updated
    /\ ((exists updated',
           processChangelog nan_elsewhere another_clock updated (lit "0.0.1") None
           = Returns updated')
        \/ exists current,
             getFirstVersionHeader updated = Some current
             /\ isHigherVersion nan_elsewhere (lit "0.0.1") current = false
             /\ processChangelog nan_elsewhere another_clock updated (lit "0.0.1") None
                = Throws (not_higher (lit "V0.0.1") current)).
Proof.
  destruct sample_succeeds as [updated H]. exists updated. split; [exact H|].
  exact (output_is_processed_again _ _ _ _ _ _ nan_elsewhere another_clock
           (lit "0.0.1") None H).
Defined.

(** * The script body *)

Ltac member_cases H :=
  repeat (apply elem_of_cons in H as [H|H]; [try discriminate H|]);
  try (by apply elem_of_nil in H).

Ltac quiet :=
  split;
  [ intros data H; member_cases H
  | split; [ intros _; first [by left | by right]
           | intros message H; member_cases H ] ].

(** X18: the script writes the changelog only with what [processChangelog]
    returned on the text it read, at most once; where nothing is written
    the run ends with [process.exit(1)], or with the TypeError that nothing
    catches; and the message of success is printed only after a write that
    did not throw. *)
Theorem script_writes_only_the_output Number_of_other c :
  (forall data,
     fs_writeFileSync data ∈ main Number_of_other c ->
     exists packageVersion changelogContent,
       package_json c = required_value packageVersion
       /\ readFileSync c = Some changelogContent
       /\ processChangelog_call Number_of_other (new_Date c) changelogContent
            packageVersion = Returns data
       /\ exists calls, main Number_of_other c = fs_writeFileSync data :: calls
                        /\ forall data', fs_writeFileSync data' ∉ calls)
  /\ ((forall data, fs_writeFileSync data ∉ main Number_of_other c) ->
      last (main Number_of_other c) = Some (process_exit 1)
      \/ main Number_of_other c = [uncaught_TypeError])
  /\ forall message,
       console_log message ∈ main Number_of_other c ->
       writeFileSync_throws c = false
       /\ exists data, main Number_of_other c = [fs_writeFileSync data; console_log message].
Proof.
  unfold main.
  destruct (package_json c) as [| |packageVersion];
    [quiet..|].
  destruct (readFileSync c) as [changelogContent|];
    [|quiet].
  destruct (processChangelog_call _ _ _ _) as [updatedContent|message'] eqn:E;
    [|quiet].
  destruct (writeFileSync_throws c); (split; [|split]).
  - intros data H. member_cases H. injection H as ->.
    eexists _, _. do 3 (split; [done|]). eexists. split; [done|].
    intros data' H'. member_cases H'.
  - intros H. destruct (H updatedContent). apply elem_of_cons. by left.
  - intros message H. member_cases H.
  - intros data H. member_cases H. injection H as ->.
    eexists _, _. do 3 (split; [done|]). eexists. split; [done|].
    intros data' H'. member_cases H'.
  - intros H. destruct (H updatedContent). apply elem_of_cons. by left.
  - intros message H. member_cases H. injection H as ->.
    split; [done|]. by eexists.
Qed.

Lemma script_writes_only_the_output_witness :
  exists data,
    fs_writeFileSync data ∈ main nan_elsewhere sample_project
    /\ processChangelog_call nan_elsewhere a_clock sampleChangelog
         (version_string (lit "1.0.2")) = Returns data.
Proof.
  assert (H : exists data calls,
            main nan_elsewhere sample_project = fs_writeFileSync data :: calls).
  { eexists _, _. vm_compute. reflexivity. }
  destruct H as (data & calls & H). exists data.
  assert (Hin : fs_writeFileSync data ∈ main nan_elsewhere sample_project).
  { rewrite H. apply elem_of_cons. by left. }
  split; [exact Hin|].
  destruct (proj1 (script_writes_only_the_output nan_elsewhere sample_project)
              data Hin) as (packageVersion & changelogContent & E1 & E2 & E3 & _).
  injection E1 as <-. injection E2 as <-. exact E3.
Defined.

(** X19: the script run twice.  In a project whose [package.json] carries a
    version of three numeric parts, whose changelog has no release header
    above its pending section and is rebuilt by the first run, on a day of
    a four-digit year, the first run writes the rebuilt text and prints the
    message of success; a second run of the project on the text written
    prints the version conflict, ends with [process.exit(1)] and writes
    nothing. *)
Theorem script_run_twice Number_of_other c v doc updated :
  package_json c = required_value (version_string v) ->
  readFileSync c = Some doc ->
  writeFileSync_throws c = false ->
  is_triple v ->
  plausible (new_Date c) = true ->
  no_header_above doc = true ->
  processChangelog Number_of_other (new_Date c) doc v None = Returns updated ->
  main Number_of_other c
  = [fs_writeFileSync updated;
     console_log (lit "Changelog updated successfully. New version: V" ++ v)]
  /\ forall now',
       main Number_of_other
         (Collaborators (package_json c) (Some updated) (writeFileSync_throws c) now')
       = [console_error (not_higher (86 :: v) v); process_exit 1].
Proof.
  intros Hp Hr Hw Ht Hc Ha H. split.
  - unfold main. rewrite Hp, Hr. cbn [processChangelog_call]. by rewrite H, Hw.
  - intros now'. unfold main. cbn [package_json readFileSync new_Date].
    rewrite Hp. cbn [processChangelog_call].
    rewrite processChangelog_checks.
    rewrite (located_after_release _ _ _ _ _ _ Ht (dated_clock _ Hc)
               (no_header_above_spec _ Ha) H).
    by rewrite isHigherVersion_irrefl.
Qed.

Lemma script_run_twice_witness :
  exists updated,
    main nan_elsewhere sample_project
    = [fs_writeFileSync updated;
       console_log (lit "Changelog updated successfully. New version: V1.0.2")]
    /\ main nan_elsewhere (project_with sample_project updated)
       = [console_error (lit "Version conflict: V1.0.2 is not higher than 1.0.2");
          process_exit 1].
Proof.
  assert (H : exists updated,
            processChangelog nan_elsewhere a_clock sampleChangelog (lit "1.0.2") None
            = Returns updated).
  { eexists. vm_compute. reflexivity. }
  destruct H as [updated H]. exists updated.
  assert (Ht : is_triple (lit "1.0.2")).
  { exists (lit "1"), (lit "0"), (lit "2"). repeat split; done. }
  assert (Ha : no_header_above sampleChangelog = true) by (vm_compute; reflexivity).
  destruct (script_run_twice nan_elsewhere sample_project (lit "1.0.2")
              sampleChangelog updated eq_refl eq_refl eq_refl Ht eq_refl Ha H)
    as [H1 H2].
  split; [exact H1|exact (H2 a_clock)].
Defined.



